(** * Offline task sync: the task service and the sync service

    A shallow embedding of [src/services/taskService.ts] and
    [src/services/syncService.ts] (with the PUT handler of
    [src/routes/tasks.ts]), and the properties of the synchronization
    engine stated over it.

    Modelling conventions.
    - The two SQLite tables are lists of rows. [INSERT] appends a row,
      [UPDATE ... WHERE id = ?] rewrites every row with that id,
      [DELETE ... WHERE task_id = ?] filters, [db.get] returns the first
      matching row.  The storage engine is assumed reliable: a statement
      never rejects.
    - Timestamps are instants, integers counting milliseconds since the
      epoch.  The code stores them as [toISOString()] text and SQLite
      orders that text byte by byte: [iso_le] is this order on instants,
      which is the chronological order within the years 0000 to 9999.
      The queue is read in that order, entries of equal [created_at] in
      the order of the table.  The two listings of tasks, of which only
      membership and sortedness are stated, are sorted on the instant.
    - Strings are sequences of 8-bit code units.
    - The JSON text of a queue entry's [data] column is kept as the
      structured snapshot it encodes; [null] and [undefined] are both
      [None] where the code does not tell them apart.
    - Everything the code takes from outside (wall clock, [uuidv4()], the
      health probe, the answer to a [POST /batch]) comes from an oracle
      [Env]; the [World] counts how often each oracle was consulted and
      records every statement and every request in a trace.
    - The body of a batch response has the shape of [BatchSyncResponse]:
      [processed_items], when present, is a list of items with one of the
      three statuses.
    - [batchSize] and [maxRetries] are natural numbers.  Console output is
      left out. *)

From stdpp Require Import base list strings sorting.
From Stdlib Require Import ZArith Ascii.

Local Open Scope Z_scope.

(** ** Data model *)

Inductive SyncStatus := St_pending | St_synced | St_error.
Inductive Operation := Op_create | Op_update | Op_delete.
Inductive ItemStatus := Rs_success | Rs_conflict | Rs_error.

Global Instance SyncStatus_eq_dec : EqDecision SyncStatus.
Proof. solve_decision. Defined.
Global Instance Operation_eq_dec : EqDecision Operation.
Proof. solve_decision. Defined.
Global Instance ItemStatus_eq_dec : EqDecision ItemStatus.
Proof. solve_decision. Defined.

(** A row of table [tasks]; [completed] and [is_deleted] are the INTEGER
    columns the code writes as 0 or 1. *)
Record TaskRow := mkTaskRow {
  row_id : string;
  row_title : string;
  row_description : option string;
  row_completed : Z;
  row_created_at : Z;
  row_updated_at : Z;
  row_is_deleted : Z;
  row_sync_status : SyncStatus;
  row_server_id : option string;
  row_last_synced_at : option Z }.

(** The [Task] object built by [rowToTask]. *)
Record Task := mkTask {
  id : string;
  title : string;
  description : option string;
  completed : bool;
  created_at : Z;
  updated_at : Z;
  is_deleted : bool;
  sync_status : SyncStatus;
  server_id : option string;
  last_synced_at : option Z }.

(** [Partial<Task>]: every key may be absent ([None]).  For the two keys
    that the code tests against [undefined] or spreads and whose value may
    be [null], [Some None] is a key present with value [null]. *)
Record PartialTask := mkPartial {
  p_id : option string;
  p_title : option string;
  p_description : option (option string);
  p_completed : option bool;
  p_created_at : option Z;
  p_updated_at : option Z;
  p_is_deleted : option bool;
  p_sync_status : option SyncStatus;
  p_server_id : option (option string);
  p_last_synced_at : option Z }.

(** The object serialised into the [data] column of a queue entry. *)
Record Snapshot := mkSnapshot {
  s_id : string;
  s_title : string;
  s_description : option string;
  s_completed : bool;
  s_created_at : Z;
  s_updated_at : Z;
  s_is_deleted : bool }.

(** A row of table [sync_queue], which is also the [SyncQueueItem] that
    [fetchSyncQueueItems] builds from it field by field. *)
Record SyncQueueItem := mkItem {
  q_id : string;
  q_task_id : string;
  q_operation : Operation;
  q_data : Snapshot;
  q_created_at : Z;
  q_retry_count : nat;
  q_error_message : option string }.

Record Database := mkDb {
  tasks : list TaskRow;
  sync_queue : list SyncQueueItem }.

(** ** The statements the two services send to the database *)

Inductive Stmt :=
  | Select_task (i : string)
  | Select_live_tasks
  | Select_tasks_needing_sync
  | Select_queue
  | Insert_task (r : TaskRow)
  | Insert_queue (q : SyncQueueItem)
  | Update_task_fields (t : string) (d : option string) (c : Z) (now : Z)
                       (s : SyncStatus) (i : string)
  | Update_task_deleted (now : Z) (s : SyncStatus) (i : string)
  | Update_task_sync (s : SyncStatus) (srv : option string) (now : Z) (i : string)
  | Update_task_error (i : string)
  | Update_queue_retry (n : nat) (msg : string) (i : string)
  | Delete_queue_of_task (i : string).

Definition update_tasks (i : string) (f : TaskRow → TaskRow) (d : Database) : Database :=
  mkDb ((λ r, if decide (row_id r = i) then f r else r) <$> tasks d) (sync_queue d).

Definition set_fields (t : string) (de : option string) (c now : Z) (s : SyncStatus)
    (r : TaskRow) : TaskRow :=
  mkTaskRow (row_id r) t de c (row_created_at r) now (row_is_deleted r) s
            (row_server_id r) (row_last_synced_at r).

Definition set_deleted (now : Z) (s : SyncStatus) (r : TaskRow) : TaskRow :=
  mkTaskRow (row_id r) (row_title r) (row_description r) (row_completed r)
            (row_created_at r) now 1 s (row_server_id r) (row_last_synced_at r).

Definition set_sync (s : SyncStatus) (srv : option string) (now : Z) (r : TaskRow) : TaskRow :=
  mkTaskRow (row_id r) (row_title r) (row_description r) (row_completed r)
            (row_created_at r) (row_updated_at r) (row_is_deleted r) s srv (Some now).

Definition set_status (s : SyncStatus) (r : TaskRow) : TaskRow :=
  mkTaskRow (row_id r) (row_title r) (row_description r) (row_completed r)
            (row_created_at r) (row_updated_at r) (row_is_deleted r) s
            (row_server_id r) (row_last_synced_at r).

Definition set_retry (n : nat) (msg : string) (q : SyncQueueItem) : SyncQueueItem :=
  mkItem (q_id q) (q_task_id q) (q_operation q) (q_data q) (q_created_at q) n (Some msg).

(** The effect of a statement on the tables; a [SELECT] has none. *)
Definition exec (s : Stmt) (d : Database) : Database :=
  match s with
  | Select_task _ | Select_live_tasks | Select_tasks_needing_sync | Select_queue => d
  | Insert_task r => mkDb (tasks d ++ [r]) (sync_queue d)
  | Insert_queue q => mkDb (tasks d) (sync_queue d ++ [q])
  | Update_task_fields t de c now s i => update_tasks i (set_fields t de c now s) d
  | Update_task_deleted now s i => update_tasks i (set_deleted now s) d
  | Update_task_sync s srv now i => update_tasks i (set_sync s srv now) d
  | Update_task_error i => update_tasks i (set_status St_error) d
  | Update_queue_retry n msg i =>
      mkDb (tasks d)
           ((λ q, if decide (q_id q = i) then set_retry n msg q else q) <$> sync_queue d)
  | Delete_queue_of_task i =>
      mkDb (tasks d) (filter (λ q, q_task_id q ≠ i) (sync_queue d))
  end.

(** [SELECT * FROM tasks WHERE id = ?] through [db.get]. *)
Definition select_task (i : string) (d : Database) : option TaskRow :=
  head (filter (λ r, row_id r = i) (tasks d)).

Definition created_le (a b : SyncQueueItem) : Prop := q_created_at a ≤ q_created_at b.
Definition updated_ge (a b : TaskRow) : Prop := row_updated_at b ≤ row_updated_at a.
Definition updated_le (a b : TaskRow) : Prop := row_updated_at a ≤ row_updated_at b.

Global Instance created_le_dec a b : Decision (created_le a b).
Proof. unfold created_le. apply _. Defined.
Global Instance updated_ge_dec a b : Decision (updated_ge a b).
Proof. unfold updated_ge. apply _. Defined.
Global Instance updated_le_dec a b : Decision (updated_le a b).
Proof. unfold updated_le. apply _. Defined.

(** *** The order of [created_at] as the database sees it *)

(** The first instant of year 0000 and the first instant of year 10000:
    between them [toISOString()] writes [YYYY-MM-DDTHH:mm:ss.sssZ]. *)
Definition iso_lo : Z := -62167219200000.
Definition iso_hi : Z := 253402300800000.

Definition four_digit_year (t : Z) : Prop := iso_lo ≤ t < iso_hi.

Global Instance four_digit_year_dec t : Decision (four_digit_year t).
Proof. unfold four_digit_year. apply _. Defined.

(** [getUTCFullYear()]: the year of an instant in the proleptic Gregorian
    calendar, counting days in eras of 400 years that start on a first of
    March. *)
Definition utc_year (t : Z) : Z :=
  let z := t / 86400000 + 719468 in
  let era := z / 146097 in
  let doe := z - era * 146097 in
  let yoe := (doe - doe / 1460 + doe / 36524 - doe / 146096) / 365 in
  let doy := doe - (365 * yoe + yoe / 4 - yoe / 100) in
  let mp := (5 * doy + 2) / 153 in
  yoe + era * 400 + (if decide (10 ≤ mp) then 1 else 0).

(** Where the text of [toISOString()] stands among all such texts.  From
    year 10000 on it starts with ['+'] and six digits of the year, before
    year 0000 with ['-'] and six digits of the year's magnitude, and
    ['+'] < ['-'] < ['0']: the late years come first, then the years
    before 0000 by growing magnitude, then the four-digit years; within
    one year the fixed-width rest of the text follows the instant. *)
Definition iso_key (t : Z) : Z * Z * Z :=
  if decide (iso_hi ≤ t) then (0, 0, t)
  else if decide (t < iso_lo) then (1, - utc_year t, t)
  else (2, 0, t).

(** [toISOString(a) <= toISOString(b)] as texts. *)
Definition iso_le (a b : Z) : Prop :=
  let ka := iso_key a in
  let kb := iso_key b in
  ka.1.1 < kb.1.1 ∨
  (ka.1.1 = kb.1.1 ∧ (ka.1.2 < kb.1.2 ∨ (ka.1.2 = kb.1.2 ∧ ka.2 ≤ kb.2))).

Global Instance iso_le_dec a b : Decision (iso_le a b).
Proof. unfold iso_le. apply _. Defined.

(** The order of [ORDER BY created_at ASC] on the rows of the queue. *)
Definition created_text_le (a b : SyncQueueItem) : Prop :=
  iso_le (q_created_at a) (q_created_at b).

Global Instance created_text_le_dec a b : Decision (created_text_le a b).
Proof. unfold created_text_le. apply _. Defined.

(** What a sorter that keeps rows of equal key in the order of the table
    returns: each row, from the last to the first, is put in front of the
    first row already placed that does not come before it. *)
Section OrderBy.
Context {A : Type} (R : A → A → Prop) `{!∀ x y, Decision (R x y)}.

Fixpoint insert_by (x : A) (l : list A) : list A :=
  match l with
  | [] => [x]
  | y :: l' => if decide (R x y) then x :: l else y :: insert_by x l'
  end.

Definition order_by (l : list A) : list A := foldr insert_by [] l.
End OrderBy.

(** [SELECT * FROM sync_queue ORDER BY created_at ASC]. *)
Definition select_queue (d : Database) : list SyncQueueItem :=
  order_by created_text_le (sync_queue d).

(** [SELECT * FROM tasks WHERE is_deleted = 0 ORDER BY updated_at DESC]. *)
Definition select_live_tasks (d : Database) : list TaskRow :=
  merge_sort updated_ge (filter (λ r, row_is_deleted r = 0) (tasks d)).

(** [SELECT * FROM tasks WHERE sync_status = 'pending' OR sync_status =
    'error' ORDER BY updated_at ASC]. *)
Definition select_tasks_needing_sync (d : Database) : list TaskRow :=
  merge_sort updated_le
    (filter (λ r, row_sync_status r = St_pending ∨ row_sync_status r = St_error) (tasks d)).

(** ** The outside world *)

(** A thrown value: an [Error] with its [name] and [message]. *)
Record JsError := mkError { err_name : string; err_message : string }.

Definition new_Error (msg : string) : JsError := mkError "Error" msg.

(** [Error.prototype.toString]. *)
Definition error_toString (e : JsError) : string :=
  if decide (err_name e = "") then err_message e
  else if decide (err_message e = "") then err_name e
  else err_name e +:+ ": " +:+ err_message e.

(** [String(err.message || err)]. *)
Definition error_text (e : JsError) : string :=
  if decide (err_message e = "") then error_toString e else err_message e.

(** One element of [processed_items] in the body of a batch response. *)
Record ProcessedItem := mkProcessed {
  client_id : string;
  pi_server_id : option string;
  status : ItemStatus;
  resolved_data : option PartialTask;
  pi_error : option string }.

(** The body of a batch response, [processed_items] possibly missing. *)
Record BatchSyncResponse := mkResponse {
  processed_items : option (list ProcessedItem) }.

(** What [axios.post] does: it throws, or it resolves with a body (which
    may be falsy, [None]). *)
Inductive PostOutcome :=
  | Post_throws (e : JsError)
  | Post_resolves (body : option BatchSyncResponse).

Record Env := mkEnv {
  clock : nat → Z;
  uuid : nat → string;
  health : nat → bool;
  post : nat → list SyncQueueItem → PostOutcome }.

Inductive Event :=
  | Ev_db (s : Stmt)
  | Ev_health
  | Ev_post (items : list SyncQueueItem).

Record World := mkWorld {
  db : Database;
  n_clock : nat;
  n_uuid : nat;
  n_health : nat;
  n_post : nat;
  trace : list Event }.

Definition empty_world : World := mkWorld (mkDb [] []) 0 0 0 0 [].

(** ** The monad of the two services: state passing over [World] *)

Definition M (A : Type) : Type := World → A * World.

Global Instance M_ret : MRet M := λ A a w, (a, w).
Global Instance M_bind : MBind M := λ A B f m w, let '(a, w') := m w in f a w'.

(** Read the world without changing it. *)
Definition gets {A} (f : World → A) : M A := λ w, (f w, w).

Section Services.
Variable env : Env.

(** [new Date()] *)
Definition new_Date : M Z := λ w,
  (clock env (n_clock w),
   mkWorld (db w) (S (n_clock w)) (n_uuid w) (n_health w) (n_post w) (trace w)).

Definition uuidv4 : M string := λ w,
  (uuid env (n_uuid w),
   mkWorld (db w) (n_clock w) (S (n_uuid w)) (n_health w) (n_post w) (trace w)).

(** [db.run(sql, params)] and the two readers [db.get] and [db.all]. *)
Definition db_run (s : Stmt) : M unit := λ w,
  (tt, mkWorld (exec s (db w)) (n_clock w) (n_uuid w) (n_health w) (n_post w)
               (trace w ++ [Ev_db s])).

Definition db_get_task (i : string) : M (option TaskRow) :=
  _ ← db_run (Select_task i); gets (λ w, select_task i (db w)).

Definition db_all_queue : M (list SyncQueueItem) :=
  _ ← db_run Select_queue; gets (λ w, select_queue (db w)).

Definition db_all_live_tasks : M (list TaskRow) :=
  _ ← db_run Select_live_tasks; gets (λ w, select_live_tasks (db w)).

Definition db_all_tasks_needing_sync : M (list TaskRow) :=
  _ ← db_run Select_tasks_needing_sync;
  gets (λ w, select_tasks_needing_sync (db w)).
End Services.

(** ** String helpers *)

(** The white space [String.prototype.trim] strips, among 8-bit code
    units: TAB, LF, VT, FF, CR, SPACE and NBSP. *)
Definition is_space (c : ascii) : bool :=
  let n := nat_of_ascii c in
  ((9 <=? n)%nat && (n <=? 13)%nat) || (n =? 32)%nat || (n =? 160)%nat.

Fixpoint trimStart (s : string) : string :=
  match s with
  | EmptyString => EmptyString
  | String c s' => if is_space c then trimStart s' else s
  end.

Definition trim (s : string) : string :=
  String.rev (trimStart (String.rev (trimStart s))).

(** What an [async] function settles to: a value, or a rejection. *)
Inductive Outcome (A : Type) :=
  | Returns (a : A)
  | Throws (e : JsError).
Arguments Returns {A} a.
Arguments Throws {A} e.

(** ** [TaskService] *)

(** [rowToTask] on a row that exists. *)
Definition toTask (row : TaskRow) : Task :=
  mkTask (row_id row) (row_title row) (row_description row)
         (bool_decide (row_completed row ≠ 0))
         (row_created_at row) (row_updated_at row)
         (bool_decide (row_is_deleted row ≠ 0))
         (row_sync_status row) (row_server_id row) (row_last_synced_at row).

(** [rowToTask]: [null] for a missing row. *)
Definition rowToTask (row : option TaskRow) : option Task := toTask <$> row.

Definition flag (b : bool) : Z := if b then 1 else 0.

Section TaskService.
Variable env : Env.

Definition nowIso : M Z := new_Date env.

Definition createTask (taskData : PartialTask) : M (Outcome (option Task)) :=
  id ← uuidv4 env;
  let title := trim (default "" (p_title taskData)) in
  if decide (title = "") then mret (Throws (new_Error "Title is required")) else
  let description :=
    match p_description taskData with
    | Some (Some d) => if decide (d = "") then None else Some d
    | _ => None
    end in
  let completed := flag (default false (p_completed taskData)) in
  now ← nowIso;
  let sync_status := St_pending in
  _ ← db_run (Insert_task
                (mkTaskRow id title description completed now now 0 sync_status None None));
  queueId ← uuidv4 env;
  let data :=
    mkSnapshot id title description (bool_decide (completed ≠ 0)) now now false in
  _ ← db_run (Insert_queue (mkItem queueId id Op_create data now 0 None));
  row ← db_get_task id;
  mret (Returns (rowToTask row)).

Definition updateTask (id : string) (updates : PartialTask) : M (option Task) :=
  existingRow ← db_get_task id;
  match existingRow with
  | None => mret None
  | Some r =>
      let existing := toTask r in
      if is_deleted existing then mret None else
      let title :=
        match p_title updates with Some t => trim t | None => title existing end in
      let description :=
        match p_description updates with Some d => d | None => description existing end in
      let completed :=
        match p_completed updates with
        | Some c => flag c
        | None => flag (completed existing)
        end in
      now ← nowIso;
      let sync_status := St_pending in
      _ ← db_run (Update_task_fields title description completed now sync_status id);
      queueId ← uuidv4 env;
      let data :=
        mkSnapshot id title description (bool_decide (completed ≠ 0))
                   (created_at existing) now false in
      _ ← db_run (Insert_queue (mkItem queueId id Op_update data now 0 None));
      row ← db_get_task id;
      mret (rowToTask row)
  end.

Definition deleteTask (id : string) : M bool :=
  existingRow ← db_get_task id;
  match existingRow with
  | None => mret false
  | Some r =>
      let existing := toTask r in
      if is_deleted existing then mret false else
      now ← nowIso;
      let sync_status := St_pending in
      _ ← db_run (Update_task_deleted now sync_status id);
      queueId ← uuidv4 env;
      let data :=
        mkSnapshot id (title existing) (description existing) (completed existing)
                   (created_at existing) now true in
      _ ← db_run (Insert_queue (mkItem queueId id Op_delete data now 0 None));
      mret true
  end.

Definition getTask (id : string) : M (option Task) :=
  row ← db_get_task id;
  match row with
  | None => mret None
  | Some r =>
      let task := toTask r in
      if is_deleted task then mret None else mret (Some task)
  end.

Definition getAllTasks : M (list Task) :=
  rows ← db_all_live_tasks;
  mret (toTask <$> rows).

Definition getTasksNeedingSync : M (list Task) :=
  rows ← db_all_tasks_needing_sync;
  mret (toTask <$> rows).
End TaskService.

(** ** [SyncService] *)

Definition DEFAULT_BATCH : nat := 50.
Definition DEFAULT_RETRIES : nat := 3.

(** The two numbers the constructor reads from the environment. *)
Record Config := mkConfig { batchSize : nat; maxRetries : nat }.

Definition default_config : Config := mkConfig DEFAULT_BATCH DEFAULT_RETRIES.

Record SyncError := mkSyncError {
  e_task_id : string;
  e_operation : string;
  e_error : string;
  e_timestamp : Z }.

Record SyncResult := mkResult {
  success : bool;
  synced_items : nat;
  failed_items : nat;
  errors : list SyncError }.

Definition operation_name (o : Operation) : string :=
  match o with Op_create => "create" | Op_update => "update" | Op_delete => "delete" end.

(** [s || d] on an optional string: the empty string is falsy too. *)
Definition or_else (s : option string) (d : string) : string :=
  match s with
  | Some x => if decide (x = "") then d else x
  | None => d
  end.

(** [Array.prototype.find]. *)
Definition find {A} (P : A → Prop) `{∀ x, Decision (P x)} (l : list A) : option A :=
  head (filter P l).

(** [for (const x of l) body], with the variables the body assigns
    threaded through as [s]. *)
Fixpoint for_of {A S} (body : S → A → M S) (l : list A) (s : S) : M S :=
  match l with
  | [] => mret s
  | x :: l' => s' ← body s x; for_of body l' s'
  end.

(** [{ ...base, ...over }] on the keys of a partial task. *)
Definition spread (base over : PartialTask) : PartialTask :=
  let pick {A} (f : PartialTask → option A) :=
    match f over with Some v => Some v | None => f base end in
  mkPartial (pick p_id) (pick p_title) (pick p_description) (pick p_completed)
            (pick p_created_at) (pick p_updated_at) (pick p_is_deleted)
            (pick p_sync_status) (pick p_server_id) (pick p_last_synced_at).

(** [{ server_id: pi.server_id, ...pi.resolved_data }] *)
Definition server_data (pi : ProcessedItem) : PartialTask :=
  let base :=
    mkPartial None None None None None None None None (Some (pi_server_id pi)) None in
  match resolved_data pi with
  | Some rd => spread base rd
  | None => base
  end.

(** [resolveConflict]: last write wins, ties to the server.  No method of
    the class calls it. *)
Definition resolveConflict (localTask serverTask : Task) : Task :=
  if decide (updated_at localTask ≤ updated_at serverTask) then serverTask else localTask.

Section SyncService.
Variable env : Env.
Variable cfg : Config.

Definition fetchSyncQueueItems : M (list SyncQueueItem) := db_all_queue.

Definition checkConnectivity : M bool := λ w,
  (health env (n_health w),
   mkWorld (db w) (n_clock w) (n_uuid w) (S (n_health w)) (n_post w)
           (trace w ++ [Ev_health])).

Definition addToSyncQueue (taskId : string) (operation : Operation) (data : Snapshot)
    : M unit :=
  id ← uuidv4 env;
  now ← new_Date env;
  db_run (Insert_queue (mkItem id taskId operation data now 0 None)).

Definition axios_post (items : list SyncQueueItem) : M PostOutcome := λ w,
  (post env (n_post w) items,
   mkWorld (db w) (n_clock w) (n_uuid w) (n_health w) (S (n_post w))
           (trace w ++ [Ev_post items])).

Definition processBatch (items : list SyncQueueItem) : M PostOutcome :=
  client_timestamp ← new_Date env;
  axios_post items.

Definition updateSyncStatus (taskId : string) (status : SyncStatus)
    (serverData : option PartialTask) : M unit :=
  now ← new_Date env;
  let server_id :=
    match serverData with
    | Some d => match p_server_id d with Some v => v | None => None end
    | None => None
    end in
  _ ← db_run (Update_task_sync status server_id now taskId);
  if decide (status = St_synced) then db_run (Delete_queue_of_task taskId)
  else mret tt.

Definition handleSyncError (item : SyncQueueItem) (error : JsError) : M unit :=
  let newRetry := S (q_retry_count item) in
  _ ← db_run (Update_queue_retry newRetry (error_text error) (q_id item));
  if decide (maxRetries cfg ≤ newRetry)%nat
  then db_run (Update_task_error (q_task_id item))
  else mret tt.

(** The body of [for (const pi of batchResp.processed_items)]. *)
Definition process_item (batch : list SyncQueueItem) (result : SyncResult)
    (pi : ProcessedItem) : M SyncResult :=
  match status pi with
  | Rs_success =>
      _ ← updateSyncStatus (client_id pi) St_synced (Some (server_data pi));
      mret (mkResult (success result) (S (synced_items result))
                     (failed_items result) (errors result))
  | Rs_conflict =>
      _ ← updateSyncStatus (client_id pi) St_synced (Some (server_data pi));
      mret (mkResult (success result) (S (synced_items result))
                     (failed_items result) (errors result))
  | Rs_error =>
      timestamp ← new_Date env;
      let result' :=
        mkResult false (synced_items result) (S (failed_items result))
                 (errors result ++
                  [mkSyncError (client_id pi) "sync" (or_else (pi_error pi) "unknown")
                               timestamp]) in
      match find (λ it, q_task_id it = client_id pi) batch with
      | Some queueItem =>
          _ ← handleSyncError queueItem (new_Error (or_else (pi_error pi) "sync error"));
          mret result'
      | None => mret result'
      end
  end.

(** The body of [for (const item of batch)] in the [catch] block. *)
Definition fail_item (err : JsError) (result : SyncResult) (item : SyncQueueItem)
    : M SyncResult :=
  _ ← handleSyncError item err;
  timestamp ← new_Date env;
  mret (mkResult false (synced_items result) (S (failed_items result))
                 (errors result ++
                  [mkSyncError (q_task_id item) (operation_name (q_operation item))
                               (error_text err) timestamp])).

(** One turn of the batch loop: the [try] and its [catch]. *)
Definition run_batch (batch : list SyncQueueItem) (result : SyncResult) : M SyncResult :=
  batchResp ← processBatch batch;
  match batchResp with
  | Post_resolves (Some resp) =>
      match processed_items resp with
      | Some pis => for_of (process_item batch) pis result
      | None => mret result
      end
  | Post_resolves None => mret result
  | Post_throws err => for_of (fail_item err) batch result
  end.

(** [for (let i = 0; i < items.length; i += this.batchSize)].  The loop
    runs on [fuel]; [None] is a run that has not reached the end of the
    loop with the fuel it was given. *)
Fixpoint batch_loop (fuel : nat) (items : list SyncQueueItem) (i : nat)
    (result : SyncResult) : M (option SyncResult) :=
  if decide (i < length items)%nat then
    match fuel with
    | O => mret None
    | S fuel' =>
        let batch := take (batchSize cfg) (drop i items) in
        result' ← run_batch batch result;
        batch_loop fuel' items (i + batchSize cfg) result'
    end
  else mret (Some result).

Definition sync : M (option SyncResult) :=
  let result := mkResult true 0 0 [] in
  connected ← checkConnectivity;
  if negb connected then
    timestamp ← new_Date env;
    mret (Some (mkResult false (synced_items result) (failed_items result)
                         [mkSyncError "" "sync" "Offline" timestamp]))
  else
    items ← fetchSyncQueueItems;
    match items with
    | [] => mret (Some result)
    | _ => batch_loop (length items) items 0 result
    end.
End SyncService.

(** ** The PUT route of [routes/tasks.ts] *)

(** A JSON value of a request body, as far as the handler looks at it. *)
Inductive JsValue :=
  | Js_undefined
  | Js_null
  | Js_bool (b : bool)
  | Js_number (n : Z)
  | Js_string (s : string).

(** [!!v] *)
Definition truthy (v : JsValue) : bool :=
  match v with
  | Js_undefined | Js_null => false
  | Js_bool b => b
  | Js_number n => bool_decide (n ≠ 0)
  | Js_string s => bool_decide (s ≠ "")
  end.

(** [req.body ?? {}], destructured.  The description is taken as absent,
    [null] or a string. *)
Record UpdateBody := mkBody {
  body_title : JsValue;
  body_description : option (option string);
  body_completed : JsValue }.

Inductive Response :=
  | Res_error (code : nat) (message : string)
  | Res_task (code : nat) (task : Task).

(** The title guard of the handler: the answer 400, or the key to set. *)
Definition title_guard (title : JsValue) : Response + option string :=
  match title with
  | Js_undefined => inr None
  | Js_string s =>
      if decide (trim s = "")
      then inl (Res_error 400 "If provided, title must be a non-empty string")
      else inr (Some (trim s))
  | _ => inl (Res_error 400 "If provided, title must be a non-empty string")
  end.

Section Routes.
Variable env : Env.

(** [router.put('/:id', ...)] *)
Definition put_task (id : string) (body : UpdateBody) : M Response :=
  match title_guard (body_title body) with
  | inl rejected => mret rejected
  | inr title =>
      let completed :=
        match body_completed body with
        | Js_undefined => None
        | v => Some (truthy v)
        end in
      let updates :=
        mkPartial None title (body_description body) completed
                  None None None None None None in
      updated ← updateTask env id updates;
      match updated with
      | None => mret (Res_error 404 "Task not found")
      | Some task => mret (Res_task 200 task)
      end
  end.
End Routes.

(** ** Vocabulary of the properties *)

(** The batches posted to the remote authority, in the order of posting. *)
Definition posted (t : list Event) : list (list SyncQueueItem) :=
  omap (λ e, match e with Ev_post items => Some items | _ => None end) t.

(** [I] holds after [m] whenever it held before. *)
Definition inv (I : World → Prop) {A} (m : M A) : Prop :=
  ∀ w, I w → I (m w).2.

(** A property of the two tables, as a property of the world. *)
Definition on_db (J : Database → Prop) : World → Prop := λ w, J (db w).

(** The lookup by id returns a soft-deleted record. *)
Definition gone (i : string) (d : Database) : Prop :=
  ∃ r, select_task i d = Some r ∧ row_is_deleted r ≠ 0.

(** Some queue entry belongs to record id [i]. *)
Definition queued (i : string) (d : Database) : Prop :=
  ∃ q, q ∈ sync_queue d ∧ q_task_id q = i.

(** The invariant of the data model: a pending or failed record has a
    queue entry, a synced record has none. *)
Definition queue_invariant (d : Database) : Prop :=
  ∀ r, r ∈ tasks d →
    (row_sync_status r = St_pending ∨ row_sync_status r = St_error →
       queued (row_id r) d) ∧
    (row_sync_status r = St_synced → ¬ queued (row_id r) d).

(** The same without the clause on [error]. *)
Definition pending_synced_invariant (d : Database) : Prop :=
  ∀ r, r ∈ tasks d →
    (row_sync_status r = St_pending → queued (row_id r) d) ∧
    (row_sync_status r = St_synced → ¬ queued (row_id r) d).

(** Every record id was drawn from the identifier oracle. *)
Definition ids_drawn (env : Env) (w : World) : Prop :=
  ∀ r, r ∈ tasks (db w) → ∃ k, (k < n_uuid w)%nat ∧ row_id r = uuid env k.

(** The batches posted so far are exactly [ps]. *)
Definition posted_is (ps : list (list SyncQueueItem)) : World → Prop :=
  λ w, posted (trace w) = ps.

(** The two clauses, together with the origin of the record ids. *)
Definition queue_wf (env : Env) : World → Prop :=
  λ w, pending_synced_invariant (db w) ∧ ids_drawn env w.

(** ** Calls from outside, and the states they reach *)

Inductive Call :=
  | Call_create (taskData : PartialTask)
  | Call_update (id : string) (updates : PartialTask)
  | Call_delete (id : string)
  | Call_sync.

Section Calls.
Variable env : Env.
Variable cfg : Config.

Definition call (c : Call) : M unit :=
  match c with
  | Call_create taskData => _ ← createTask env taskData; mret tt
  | Call_update id updates => _ ← updateTask env id updates; mret tt
  | Call_delete id => _ ← deleteTask env id; mret tt
  | Call_sync => _ ← sync env cfg; mret tt
  end.

Definition calls (cs : list Call) : M unit := for_of (λ _ c, call c) cs tt.

(** The states reached from the empty store by a sequence of calls. *)
Definition reachable (w : World) : Prop :=
  ∃ cs, w = (calls cs empty_world).2.
End Calls.

(** ** Sample worlds *)

Definition sample_clock (n : nat) : Z := 1700000000000 + Z.of_nat n.
(** The [n]-th identifier drawn: "uuid-" followed by [n] strokes. *)
Fixpoint strokes (n : nat) : string :=
  match n with
  | O => ""
  | S n' => String "i" (strokes n')
  end.

Definition sample_uuid (n : nat) : string := "uuid-" +:+ strokes n.

Definition only_title (t : string) : PartialTask :=
  mkPartial None (Some t) None None None None None None None None.

(** A remote authority that answers every item of a batch with [st]. *)
Definition answer_all (st : ItemStatus) (srv : option string) (rd : option PartialTask)
    (err : option string) (items : list SyncQueueItem) : PostOutcome :=
  Post_resolves (Some (mkResponse (Some
    ((λ it, mkProcessed (q_task_id it) srv st rd err) <$> items)))).

Definition transport_failure : PostOutcome :=
  Post_throws (mkError "Error" "timeout of 20000ms exceeded").

(** Never connected. *)
Definition env_offline : Env :=
  mkEnv sample_clock sample_uuid (λ _, false) (λ _ _, transport_failure).

(** Connected; every batch is accepted with server id "srv-1". *)
Definition env_success : Env :=
  mkEnv sample_clock sample_uuid (λ _, true)
        (λ _, answer_all Rs_success (Some "srv-1") None None).

(** Connected; the first batch is accepted, the second is answered with
    [conflict] and [resolved_data = {title: "Server title", updated_at}]. *)
Definition server_title : PartialTask :=
  mkPartial None (Some "Server title") None None None (Some 1800000000000)
            None None None None.

Definition env_conflict : Env :=
  mkEnv sample_clock sample_uuid (λ _, true)
        (λ n, match n with
              | O => answer_all Rs_success (Some "srv-1") None None
              | _ => answer_all Rs_conflict (Some "srv-1") (Some server_title) None
              end).

(** Connected, but every batch request fails in transport. *)
Definition env_timeout : Env :=
  mkEnv sample_clock sample_uuid (λ _, true) (λ _ _, transport_failure).

(** Connected; two batch requests fail in transport, the third is answered
    item by item: the first item accepted, the others rejected. *)
Definition accept_first (items : list SyncQueueItem) : PostOutcome :=
  Post_resolves (Some (mkResponse (Some
    (imap (λ k it,
       match k with
       | O => mkProcessed (q_task_id it) (Some "srv-1") Rs_success None None
       | _ => mkProcessed (q_task_id it) None Rs_error None (Some "rejected")
       end) items)))).

Definition env_flaky : Env :=
  mkEnv sample_clock sample_uuid (λ _, true)
        (λ n, match n with
              | 0%nat | 1%nat => λ _, transport_failure
              | _ => accept_first
              end).

(** Scenario A starts here: one task created, nothing synced. *)
Definition buy_milk (env : Env) : World :=
  (calls env default_config [Call_create (only_title "Buy milk")] empty_world).2.

(** Scenario C: a task is created and synced, then edited locally. *)
Definition local_edit : World :=
  (calls env_conflict default_config
     [Call_create (only_title "Local title"); Call_sync;
      Call_update (sample_uuid 0) (only_title "Local edit")] empty_world).2.

(** Scenario D: one task, three runs that all fail in transport. *)
Definition three_failures : World :=
  (calls env_timeout default_config
     [Call_create (only_title "Buy milk"); Call_sync; Call_sync; Call_sync]
     empty_world).2.

(** One task created and edited, two failed runs, then a run in which the
    remote authority accepts the first operation and rejects the second. *)
Definition flaky_calls : list Call :=
  [Call_create (only_title "Buy milk");
   Call_update (sample_uuid 0) (only_title "Buy oat milk");
   Call_sync; Call_sync; Call_sync].

(** The same before the third run. *)
Definition twice_failed : World :=
  (calls env_flaky default_config
     [Call_create (only_title "Buy milk");
      Call_update (sample_uuid 0) (only_title "Buy oat milk");
      Call_sync; Call_sync] empty_world).2.

(** Three tasks created one after the other, and batches of two. *)
Definition three_tasks : World :=
  (calls env_success default_config
     [Call_create (only_title "a"); Call_create (only_title "b");
      Call_create (only_title "c")] empty_world).2.

Definition batches_of_two : Config := mkConfig 2 DEFAULT_RETRIES.

(** Connected, every batch request fails in transport, and the clock
    stands still: everything happens within one millisecond. *)
Definition env_same_ms : Env :=
  mkEnv (λ _, 1700000000000) sample_uuid (λ _, true) (λ _ _, transport_failure).

(** One task created, edited and deleted within that millisecond: three
    entries with the same [created_at]. *)
Definition same_ms_ops : World :=
  (calls env_same_ms default_config
     [Call_create (only_title "Buy milk");
      Call_update (sample_uuid 0) (only_title "Buy oat milk");
      Call_delete (sample_uuid 0)] empty_world).2.

Definition timeout_error : JsError := mkError "Error" "timeout of 20000ms exceeded".

(** The response item of scenario B. *)
Definition accepted_milk : ProcessedItem :=
  mkProcessed (sample_uuid 0) (Some "srv-1") Rs_success None None.

(** Hand-built tables: the milk task and its [create] entry. *)
Definition milk_row (st : SyncStatus) (deleted : Z) : TaskRow :=
  mkTaskRow (sample_uuid 0) "Buy milk" None 0 1700000000000 1700000000000 deleted st
            None None.

Definition milk_entry (retries : nat) : SyncQueueItem :=
  mkItem (sample_uuid 1) (sample_uuid 0) Op_create
         (mkSnapshot (sample_uuid 0) "Buy milk" None false 1700000000000 1700000000000
                     false)
         1700000000000 retries None.

Definition world_of (d : Database) : World := mkWorld d 0 0 0 0 [].

Definition milk_pending (retries : nat) : World :=
  world_of (mkDb [milk_row St_pending 0] [milk_entry retries]).

Definition milk_soft_deleted : World :=
  world_of (mkDb [milk_row St_pending 1] [milk_entry 0]).

(** One task created and then deleted. *)
Definition deleted_milk : World :=
  (calls env_success default_config
     [Call_create (only_title "Buy milk"); Call_delete (sample_uuid 0)] empty_world).2.

(** ** Vocabulary of the further properties *)

(** The payload the mutators serialise for a stored row. *)
Definition snapshot_of (r : TaskRow) : Snapshot :=
  mkSnapshot (row_id r) (row_title r) (row_description r)
             (bool_decide (row_completed r ≠ 0)) (row_created_at r) (row_updated_at r)
             (bool_decide (row_is_deleted r ≠ 0)).

(** The columns of a record that only the mutators write. *)
Definition content (r : TaskRow) : string * string * option string * Z * Z * Z * Z :=
  (row_id r, row_title r, row_description r, row_completed r, row_created_at r,
   row_updated_at r, row_is_deleted r).

(** The columns of a queue entry that are fixed when it is enqueued. *)
Definition entry_core (q : SyncQueueItem) : string * string * Operation * Snapshot * Z :=
  (q_id q, q_task_id q, q_operation q, q_data q, q_created_at q).

(** No queue entry belongs to record id [c]. *)
Definition pruned (c : string) : World → Prop :=
  λ w, ∀ q, q ∈ sync_queue (db w) → q_task_id q ≠ c.

(** What retry bookkeeping with message [msg] does to the tables for the
    snapshot [it] of an entry. *)
Definition charge (cfg : Config) (msg : string) (d : Database) (it : SyncQueueItem)
    : Database :=
  let d1 := exec (Update_queue_retry (S (q_retry_count it)) msg (q_id it)) d in
  if decide (maxRetries cfg ≤ S (q_retry_count it))%nat
  then exec (Update_task_error (q_task_id it)) d1
  else d1.

(** An entry of [errors] without its timestamp. *)
Definition error_key (e : SyncError) : string * string * string :=
  (e_task_id e, e_operation e, e_error e).

(** Entry [q] belongs to record [r] and one more failure exhausts it. *)
Definition exhausts (cfg : Config) (r : TaskRow) (q : SyncQueueItem) : Prop :=
  q_task_id q = row_id r ∧ (maxRetries cfg ≤ S (q_retry_count q))%nat.

Global Instance exhausts_dec cfg r q : Decision (exhausts cfg r q).
Proof. unfold exhausts. apply _. Defined.

(** Record id [c] is done with: no entry is queued for it and its records
    are synced. *)
Definition settled (c : string) : World → Prop :=
  λ w, pruned c w ∧ ∀ r, r ∈ tasks (db w) → row_id r = c → row_sync_status r = St_synced.

(** What one turn of the batch loop has to do with record id [c]: a
    response with an item for it, or a failed request whose batch holds
    one of its entries. *)
Definition touches (c : string) (batch : list SyncQueueItem) (out : PostOutcome) : Prop :=
  match out with
  | Post_throws _ => ∃ q, q ∈ batch ∧ q_task_id q = c
  | Post_resolves (Some resp) =>
      match processed_items resp with
      | Some pis => ∃ pi, pi ∈ pis ∧ client_id pi = c
      | None => False
      end
  | Post_resolves None => False
  end.

(** [serverData?.server_id ?? null] in [updateSyncStatus], for the data
    that [sync] builds from a response item. *)
Definition response_server_id (pi : ProcessedItem) : option string :=
  match p_server_id (server_data pi) with Some v => v | None => None end.

(** Since [w0] the records were only rewritten in their three sync
    columns and the clock was not set back. *)
Definition kept (w0 w' : World) : Prop :=
  (∃ g, tasks (db w') = g <$> tasks (db w0) ∧ ∀ r, content (g r) = content r) ∧
  (n_clock w0 ≤ n_clock w')%nat.

(** Moreover the records of id [c] are those of [w0] marked synced with
    server id [srv] at the [n]-th reading of the clock, a reading taken
    since [w0], and no entry of [c] is queued. *)
Definition synced_at (env : Env) (c : string) (srv : option string) (n : nat)
    (w0 w' : World) : Prop :=
  (∃ g, tasks (db w') = g <$> tasks (db w0) ∧
        ∀ r, content (g r) = content r ∧
             (row_id r = c → g r = set_sync St_synced srv (clock env n) r)) ∧
  pruned c w' ∧
  (n_clock w0 ≤ n < n_clock w')%nat.

(** The remote authority accepts a batch: it answers one item per entry,
    in order, echoing the entry's task id, none with status [error]. *)
Definition accepts (out : PostOutcome) (items : list SyncQueueItem) : Prop :=
  ∃ pis, out = Post_resolves (Some (mkResponse (Some pis))) ∧
         client_id <$> pis = q_task_id <$> items ∧
         Forall (λ pi, status pi ≠ Rs_error) pis.

(** ** The batch endpoint of the sync router *)

(** [{ ...(it.data || {}), server_id: serverId, updated_at: ... }]: the
    payload echoed with the server id; the payload always carries
    [updated_at], so the clock is not read.  A payload without description
    is echoed with the key present. *)
Definition echo_data (s : Snapshot) (serverId : string) : PartialTask :=
  mkPartial (Some (s_id s)) (Some (s_title s)) (Some (s_description s))
            (Some (s_completed s)) (Some (s_created_at s)) (Some (s_updated_at s))
            (Some (s_is_deleted s)) None (Some (Some serverId)) None.

(** The loop of [router.post('/batch', ...)] over the items of the
    request, drawing identifiers from the server's own [uuidv4()], [n]
    being the number drawn so far: one for each server id, and one more
    for the client id of an item that has neither [task_id] nor [data.id]. *)
Fixpoint batch_endpoint (uuids : nat → string) (n : nat) (items : list SyncQueueItem)
    : list ProcessedItem :=
  match items with
  | [] => []
  | it :: rest =>
      let drawn :=
        if decide (q_task_id it = "")
        then if decide (s_id (q_data it) = "") then (uuids n, S n)
             else (s_id (q_data it), n)
        else (q_task_id it, n) in
      let clientId := drawn.1 in
      let serverId := "srv-" +:+ uuids drawn.2 in
      mkProcessed clientId (Some serverId) Rs_success
                  (Some (echo_data (q_data it) serverId)) None
        :: batch_endpoint uuids (S drawn.2) rest
  end.

(** [res.json({ processed_items })] *)
Definition batch_response (uuids : nat → string) (n : nat) (items : list SyncQueueItem)
    : PostOutcome :=
  Post_resolves (Some (mkResponse (Some (batch_endpoint uuids n items)))).

(** ** The other handlers of the two routers *)

Inductive CreateReply :=
  | Create_ok (code : nat) (task : option Task)
  | Create_error (code : nat) (message : string).

Inductive DeleteReply :=
  | Delete_ok
  | Delete_error (code : nat) (message : string).

Inductive SyncReply :=
  | Sync_error (code : nat) (message : string)
  | Sync_done (result : SyncResult)
  | Sync_unfinished.

Section Handlers.
Variable env : Env.
Variable cfg : Config.

(** [router.get('/', ...)] *)
Definition get_tasks : M (list Task) := getAllTasks.

(** [router.get('/:id', ...)] *)
Definition get_task (id : string) : M Response :=
  task ← getTask id;
  match task with
  | None => mret (Res_error 404 "Task not found")
  | Some t => mret (Res_task 200 t)
  end.

(** [router.post('/', ...)]: the guard is
    [!title || typeof title !== 'string' || !title.trim()]. *)
Definition post_task (body : UpdateBody) : M CreateReply :=
  match body_title body with
  | Js_string s =>
      if decide (s = "" ∨ trim s = "")
      then mret (Create_error 400 "Title is required")
      else
        let description :=
          match body_description body with
          | Some (Some d) => Some (Some d)
          | _ => None
          end in
        created ← createTask env
          (mkPartial None (Some (trim s)) description
                     (Some (truthy (body_completed body)))
                     None None None None None None);
        match created with
        | Returns task => mret (Create_ok 201 task)
        | Throws e =>
            mret (Create_error 500 (if decide (err_message e = "")
                                    then "Failed to create task" else err_message e))
        end
  | _ => mret (Create_error 400 "Title is required")
  end.

(** [router.delete('/:id', ...)] *)
Definition delete_task (id : string) : M DeleteReply :=
  deleted ← deleteTask env id;
  if (deleted : bool) then mret Delete_ok
  else mret (Delete_error 404 "Task not found or already deleted").

(** [router.post('/sync', ...)] of the sync router; [Sync_unfinished] is a
    run that has not ended. *)
Definition post_sync : M SyncReply :=
  connected ← checkConnectivity env;
  if negb connected then mret (Sync_error 503 "Cannot reach server - offline")
  else
    result ← sync env cfg;
    match result with
    | Some r => mret (Sync_done r)
    | None => mret Sync_unfinished
    end.
End Handlers.

(** A request to one of the routers. *)
Inductive Request :=
  | Req_list
  | Req_get (id : string)
  | Req_post (body : UpdateBody)
  | Req_put (id : string) (body : UpdateBody)
  | Req_delete (id : string)
  | Req_sync.

Section Router.
Variable env : Env.
Variable cfg : Config.

Definition handle (rq : Request) : M unit :=
  match rq with
  | Req_list => _ ← get_tasks; mret tt
  | Req_get id => _ ← get_task id; mret tt
  | Req_post body => _ ← post_task env body; mret tt
  | Req_put id body => _ ← put_task env id body; mret tt
  | Req_delete id => _ ← delete_task env id; mret tt
  | Req_sync => _ ← post_sync env cfg; mret tt
  end.

Definition serve (rqs : list Request) : M unit := for_of (λ _ rq, handle rq) rqs tt.
End Router.

(** Leading white space of a list of code units dropped. *)
Fixpoint skip_spaces (l : list ascii) : list ascii :=
  match l with
  | [] => []
  | c :: l' => if is_space c then skip_spaces l' else l
  end.

(** Every stored title is trimmed and not blank. *)
Definition titles_valid (d : Database) : Prop :=
  ∀ r, r ∈ tasks d → row_title r ≠ "" ∧ trim (row_title r) = row_title r.

(** A partial task with no key. *)
Definition no_updates : PartialTask :=
  mkPartial None None None None None None None None None None.

(** ** Further sample worlds *)

(** Connected; every batch request resolves without a body. *)
Definition env_silent : Env :=
  mkEnv sample_clock sample_uuid (λ _, true) (λ _ _, Post_resolves None).

(** Connected; every batch request is answered by the batch endpoint,
    which has drawn [2 * n] identifiers before the [n]-th request. *)
Definition env_bundled : Env :=
  mkEnv sample_clock sample_uuid (λ _, true)
        (λ n, batch_response sample_uuid (2 * n)).

(** Connected at the first probe only. *)
Definition env_dropping : Env :=
  mkEnv sample_clock sample_uuid (λ n, bool_decide (n = 0%nat))
        (λ _ _, transport_failure).

(** The milk task rejected by the remote authority. *)
Definition rejected_milk : ProcessedItem :=
  mkProcessed (sample_uuid 0) None Rs_error None (Some "rejected").

(** Connected; every item is accepted, and the answer carries a
    [last_synced_at] of its own under [resolved_data]. *)
Definition stamped : PartialTask :=
  mkPartial None None None None None None None None None (Some 1800000000000).

Definition env_stamped : Env :=
  mkEnv sample_clock sample_uuid (λ _, true)
        (λ _, answer_all Rs_success (Some "srv-1") (Some stamped) None).

Definition padded_title : PartialTask := only_title "  Buy milk ".

Definition body_of (title : JsValue) : UpdateBody := mkBody title None Js_undefined.

(** * Properties *)

(** ** Unfolding the monad *)

Lemma bind_run {A B} (m : M A) (f : A → M B) (w : World) :
  (m ≫= f) w = f (m w).1 (m w).2.
Proof. unfold mbind, M_bind. by destruct (m w). Qed.

Lemma ret_run {A} (a : A) (w : World) : (mret a : M A) w = (a, w).
Proof. done. Qed.

Lemma db_get_task_run i w :
  db_get_task i w =
  (select_task i (db w),
   mkWorld (db w) (n_clock w) (n_uuid w) (n_health w) (n_post w)
           (trace w ++ [Ev_db (Select_task i)])).
Proof. done. Qed.

(** ** Reads of [TaskService] *)

Lemma toTask_is_deleted r : is_deleted (toTask r) = bool_decide (row_is_deleted r ≠ 0).
Proof. done. Qed.

Lemma getTask_run i w :
  (getTask i w).1 =
  match select_task i (db w) with
  | Some r => if is_deleted (toTask r) then None else Some (toTask r)
  | None => None
  end
  ∧ db (getTask i w).2 = db w.
Proof.
  unfold getTask. rewrite bind_run, db_get_task_run. cbn [fst snd].
  destruct (select_task i (db w)) as [r|]; [|done].
  by destruct (is_deleted (toTask r)).
Qed.

Lemma getAllTasks_run w :
  (getAllTasks w).1 = toTask <$> select_live_tasks (db w)
  ∧ db (getAllTasks w).2 = db w.
Proof. done. Qed.

Lemma elem_of_select_live_tasks r d :
  r ∈ select_live_tasks d ↔ r ∈ tasks d ∧ row_is_deleted r = 0.
Proof.
  unfold select_live_tasks. rewrite merge_sort_Permutation.
  by rewrite list_elem_of_filter, (comm and).
Qed.

(** C10. A record whose [is_deleted] column is set stays in the store but
    is hidden from both readers: [getTask] answers [null] when the lookup
    by id returns it, and no task returned by [getAllTasks] is
    soft-deleted, so this record is not among them. *)
Theorem soft_deleted_record_hidden w r :
  r ∈ tasks (db w) →
  row_is_deleted r ≠ 0 →
  (select_task (row_id r) (db w) = Some r →
     (getTask (row_id r) w).1 = None) ∧
  (∀ t, t ∈ (getAllTasks w).1 → is_deleted t = false) ∧
  (toTask r ∉ (getAllTasks w).1) ∧
  r ∈ tasks (db (getTask (row_id r) w).2) ∧
  r ∈ tasks (db (getAllTasks w).2).
Proof.
  intros Hin Hdel.
  assert (Hall : ∀ t, t ∈ (getAllTasks w).1 → is_deleted t = false).
  { intros t. rewrite (proj1 (getAllTasks_run w)), list_elem_of_fmap.
    intros (r' & -> & Hr'). apply elem_of_select_live_tasks in Hr' as [_ Hz].
    rewrite toTask_is_deleted. apply bool_decide_eq_false. by intros []. }
  split_and!.
  - intros Hsel. rewrite (proj1 (getTask_run _ w)), Hsel, toTask_is_deleted.
    by rewrite bool_decide_eq_true_2.
  - done.
  - intros Hmem. apply Hall in Hmem. rewrite toTask_is_deleted in Hmem.
    by apply bool_decide_eq_false in Hmem.
  - by rewrite (proj2 (getTask_run _ w)).
  - by rewrite (proj2 (getAllTasks_run w)).
Qed.

(** ** Mutations of a soft-deleted record *)

Lemma updateTask_gone env i updates w r :
  select_task i (db w) = Some r → row_is_deleted r ≠ 0 →
  (updateTask env i updates w).1 = None ∧ db (updateTask env i updates w).2 = db w.
Proof.
  intros Hsel Hdel. unfold updateTask.
  rewrite bind_run, db_get_task_run. cbn [fst snd]. rewrite Hsel.
  by rewrite toTask_is_deleted, bool_decide_eq_true_2.
Qed.

Lemma deleteTask_gone env i w r :
  select_task i (db w) = Some r → row_is_deleted r ≠ 0 →
  (deleteTask env i w).1 = false ∧ db (deleteTask env i w).2 = db w.
Proof.
  intros Hsel Hdel. unfold deleteTask.
  rewrite bind_run, db_get_task_run. cbn [fst snd]. rewrite Hsel.
  by rewrite toTask_is_deleted, bool_decide_eq_true_2.
Qed.

(** ** The offline run *)

(** C5. When the health probe fails, [sync] returns at once with
    [success = false], no synced and no failed item and the single error
    [{operation: "sync", error: "Offline"}]; both tables are unchanged
    and the probe is the only thing the run did: no statement was sent to
    the database and no batch was posted. *)
Theorem sync_offline env cfg w :
  health env (n_health w) = false →
  (sync env cfg w).1 =
    Some (mkResult false 0 0 [mkSyncError "" "sync" "Offline" (clock env (n_clock w))])
  ∧ db (sync env cfg w).2 = db w
  ∧ trace (sync env cfg w).2 = trace w ++ [Ev_health]
  ∧ length (sync_queue (db (sync env cfg w).2)) = length (sync_queue (db w)).
Proof.
  intros Hoff. unfold sync, mbind, M_bind, checkConnectivity.
  rewrite Hoff. by cbn.
Qed.

(** ** Applying a response item *)

Lemma updateSyncStatus_synced_db env taskId serverData w :
  db (updateSyncStatus env taskId St_synced serverData w).2 =
  exec (Delete_queue_of_task taskId)
    (exec (Update_task_sync St_synced
             (match serverData with
              | Some d => match p_server_id d with Some v => v | None => None end
              | None => None
              end)
             (clock env (n_clock w)) taskId)
          (db w)).
Proof. done. Qed.

Lemma server_data_server_id pi :
  match p_server_id (server_data pi) with Some v => v | None => None end =
  match resolved_data pi with
  | Some rd => match p_server_id rd with Some v => v | None => pi_server_id pi end
  | None => pi_server_id pi
  end.
Proof.
  unfold server_data. destruct (resolved_data pi) as [rd|]; [|done].
  cbn. by destruct (p_server_id rd).
Qed.

(** A [success] item and a [conflict] item go through the same call. *)
Lemma process_item_accepted env cfg batch result pi w :
  status pi = Rs_success ∨ status pi = Rs_conflict →
  process_item env cfg batch result pi w =
  (mkResult (success result) (S (synced_items result)) (failed_items result)
            (errors result),
   (updateSyncStatus env (client_id pi) St_synced (Some (server_data pi)) w).2).
Proof.
  intros [H|H]; unfold process_item; rewrite H, bind_run; done.
Qed.

Lemma elem_of_update_tasks r' i f d :
  r' ∈ tasks (update_tasks i f d) ↔
  ∃ r, r ∈ tasks d ∧ r' = if decide (row_id r = i) then f r else r.
Proof.
  unfold update_tasks. cbn. rewrite list_elem_of_fmap.
  split; intros (r & H1 & H2); exists r; done.
Qed.

(** Right after a response item with status [success] is handled, every
    record with the item's [client_id] is [synced] with the server id of
    the response and the time of the call as [last_synced_at], its other
    columns are as they were, no queue entry of that record id is left and
    one more synced item is counted. *)
Lemma success_item_effect env cfg batch result pi w :
  status pi = Rs_success →
  let out := process_item env cfg batch result pi w in
  let now := clock env (n_clock w) in
  let srv :=
    match resolved_data pi with
    | Some rd => match p_server_id rd with Some v => v | None => pi_server_id pi end
    | None => pi_server_id pi
    end in
  (∀ r, r ∈ tasks (db w) → row_id r = client_id pi →
        set_sync St_synced srv now r ∈ tasks (db out.2)) ∧
  (∀ r', r' ∈ tasks (db out.2) → row_id r' = client_id pi →
        row_sync_status r' = St_synced ∧ row_server_id r' = srv ∧
        row_last_synced_at r' = Some now) ∧
  (∀ q, q ∈ sync_queue (db out.2) → q_task_id q ≠ client_id pi) ∧
  synced_items out.1 = S (synced_items result).
Proof.
  intros Hst out now srv. subst out.
  rewrite process_item_accepted by auto. cbn [fst snd].
  rewrite updateSyncStatus_synced_db, server_data_server_id. fold srv now.
  split_and!.
  - intros r Hr Hid. cbn. apply list_elem_of_fmap. exists r. by rewrite decide_True.
  - intros r' Hr' Hid. cbn in Hr'. apply list_elem_of_fmap in Hr' as (r & -> & Hr).
    destruct (decide (row_id r = client_id pi)) as [_|Hne]; [done|].
    by destruct Hne.
  - intros q Hq. cbn in Hq. by apply list_elem_of_filter in Hq as [Hq _].
  - done.
Qed.

(** ** Retry bookkeeping *)

Lemma handleSyncError_db cfg item err w :
  db (handleSyncError cfg item err w).2 =
  let d := exec (Update_queue_retry (S (q_retry_count item)) (error_text err) (q_id item))
                (db w) in
  if decide (maxRetries cfg ≤ S (q_retry_count item))%nat
  then exec (Update_task_error (q_task_id item)) d else d.
Proof.
  unfold handleSyncError. rewrite bind_run. cbn [fst snd].
  by destruct (decide (maxRetries cfg ≤ S (q_retry_count item))%nat).
Qed.


(** ** Invariants through the monad *)

Section Inv.
Context (I : World → Prop).

Lemma inv_ret {A} (a : A) : inv I (mret a : M A).
Proof. by intros w. Qed.

Lemma inv_bind {A B} (m : M A) (f : A → M B) :
  inv I m → (∀ a, inv I (f a)) → inv I (m ≫= f).
Proof. intros Hm Hf w Hw. rewrite bind_run. by apply Hf, Hm. Qed.

Lemma inv_for_of {A S} (body : S → A → M S) (l : list A) (s : S) :
  (∀ s x, x ∈ l → inv I (body s x)) → inv I (for_of body l s).
Proof.
  revert s. induction l as [|x l IH]; intros s Hbody; cbn [for_of].
  - apply inv_ret.
  - apply inv_bind; [apply Hbody; left|].
    intros s'. apply IH. intros s'' y Hy. apply Hbody. by right.
Qed.
End Inv.

(** The two helpers of the run send statements and read the clock. *)
Section Steps.
Context (env : Env) (cfg : Config) (I : World → Prop).
Hypothesis Hclock : inv I (new_Date env).
Hypothesis Hdb : ∀ s, inv I (db_run s).

Lemma inv_updateSyncStatus i s sd : inv I (updateSyncStatus env i s sd).
Proof.
  unfold updateSyncStatus. apply inv_bind; [done|intros now].
  apply inv_bind; [done|intros _].
  destruct (decide (s = St_synced)); [done|apply inv_ret].
Qed.

Lemma inv_handleSyncError item err : inv I (handleSyncError cfg item err).
Proof.
  unfold handleSyncError. apply inv_bind; [done|intros _].
  destruct (decide _); [done|apply inv_ret].
Qed.
End Steps.

(** What holds across the two helpers holds across a whole run. *)
Section Loop.
Context (env : Env) (cfg : Config) (I : World → Prop).
Hypothesis Hclock : inv I (new_Date env).
Hypothesis Hhealth : inv I (checkConnectivity env).
Hypothesis Hpost : ∀ items, inv I (axios_post env items).
Hypothesis Hselect : inv I (db_run Select_queue).
Hypothesis Hsynced : ∀ i sd, inv I (updateSyncStatus env i St_synced sd).
Hypothesis Herror : ∀ item err, inv I (handleSyncError cfg item err).

Lemma inv_process_item batch result pi : inv I (process_item env cfg batch result pi).
Proof.
  unfold process_item. destruct (status pi).
  - apply inv_bind; [done|intros _; apply inv_ret].
  - apply inv_bind; [done|intros _; apply inv_ret].
  - apply inv_bind; [done|intros ts].
    destruct (find _ batch); [|apply inv_ret].
    apply inv_bind; [done|intros _; apply inv_ret].
Qed.

Lemma inv_fail_item err result item : inv I (fail_item env cfg err result item).
Proof.
  unfold fail_item. apply inv_bind; [done|intros _].
  apply inv_bind; [done|intros ts; apply inv_ret].
Qed.

Lemma inv_run_batch batch result : inv I (run_batch env cfg batch result).
Proof.
  unfold run_batch, processBatch.
  apply inv_bind; [apply inv_bind; [done|intros _; done]|].
  intros [err|[[[pis|]]|]]; try apply inv_ret.
  - apply inv_for_of. intros s x _. apply inv_fail_item.
  - apply inv_for_of. intros s x _. apply inv_process_item.
Qed.

Lemma inv_batch_loop fuel items i result :
  inv I (batch_loop env cfg fuel items i result).
Proof.
  revert i result. induction fuel as [|fuel IH]; intros i result; cbn [batch_loop].
  - destruct (decide _); apply inv_ret.
  - destruct (decide _); [|apply inv_ret].
    apply inv_bind; [apply inv_run_batch|intros r; apply IH].
Qed.

Lemma inv_sync : inv I (sync env cfg).
Proof.
  unfold sync. apply inv_bind; [done|intros [|]]; cbn [negb].
  - unfold fetchSyncQueueItems, db_all_queue.
    apply inv_bind; [apply inv_bind; [done|intros _; by intros w]|].
    intros [|x items]; [apply inv_ret|apply inv_batch_loop].
  - apply inv_bind; [done|intros ts; apply inv_ret].
Qed.
End Loop.

(** What holds across every statement and every oracle holds across every
    call. *)
Section Stable.
Context (env : Env) (cfg : Config) (I : World → Prop).
Hypothesis Hclock : inv I (new_Date env).
Hypothesis Huuid : inv I (uuidv4 env).
Hypothesis Hhealth : inv I (checkConnectivity env).
Hypothesis Hpost : ∀ items, inv I (axios_post env items).
Hypothesis Hdb : ∀ s, inv I (db_run s).

Lemma stable_db_get_task i : inv I (db_get_task i).
Proof. unfold db_get_task. apply inv_bind; [done|intros _; by intros w]. Qed.

Lemma stable_createTask taskData : inv I (createTask env taskData).
Proof.
  unfold createTask. apply inv_bind; [done|intros i].
  destruct (decide _); [apply inv_ret|].
  repeat (apply inv_bind; [done || apply stable_db_get_task|intros ?]).
  apply inv_ret.
Qed.

Lemma stable_updateTask i updates : inv I (updateTask env i updates).
Proof.
  unfold updateTask. apply inv_bind; [apply stable_db_get_task|intros [r|]];
    [|apply inv_ret].
  destruct (is_deleted _); [apply inv_ret|].
  repeat (apply inv_bind; [done || apply stable_db_get_task|intros ?]).
  apply inv_ret.
Qed.

Lemma stable_deleteTask i : inv I (deleteTask env i).
Proof.
  unfold deleteTask. apply inv_bind; [apply stable_db_get_task|intros [r|]];
    [|apply inv_ret].
  destruct (is_deleted _); [apply inv_ret|].
  repeat (apply inv_bind; [done|intros ?]).
  apply inv_ret.
Qed.

Lemma stable_sync : inv I (sync env cfg).
Proof.
  apply inv_sync; try done.
  - intros i sd. by apply inv_updateSyncStatus.
  - intros item err. by apply inv_handleSyncError.
Qed.

Lemma stable_call c : inv I (call env cfg c).
Proof.
  destruct c; cbn [call]; (apply inv_bind; [|intros _; apply inv_ret]).
  - apply stable_createTask.
  - apply stable_updateTask.
  - apply stable_deleteTask.
  - apply stable_sync.
Qed.

Lemma stable_calls cs : inv I (calls env cfg cs).
Proof. apply inv_for_of. intros _ c _. apply stable_call. Qed.
End Stable.

(** A property of the tables that every statement keeps holds across every
    call. *)
Lemma calls_keep env cfg (J : Database → Prop) cs :
  (∀ s d, J d → J (exec s d)) → inv (on_db J) (calls env cfg cs).
Proof.
  intros HJ. apply stable_calls; try by intros w.
  - by intros items w.
  - intros s w. apply HJ.
Qed.

(** ** What one run posts *)

Lemma posted_app t1 t2 : posted (t1 ++ t2) = posted t1 ++ posted t2.
Proof. apply omap_app. Qed.

Section Posted.
Context (env : Env) (cfg : Config) (ps : list (list SyncQueueItem)).

Lemma posted_db_run s : inv (posted_is ps) (db_run s).
Proof.
  intros w Hw. unfold posted_is in *. cbn. by rewrite posted_app, Hw, app_nil_r.
Qed.

Lemma posted_new_Date : inv (posted_is ps) (new_Date env).
Proof. by intros w Hw. Qed.

Lemma posted_process_item batch result pi :
  inv (posted_is ps) (process_item env cfg batch result pi).
Proof.
  apply inv_process_item; [apply posted_new_Date| |].
  - intros i sd. apply inv_updateSyncStatus; [apply posted_new_Date|apply posted_db_run].
  - intros item err. apply inv_handleSyncError, posted_db_run.
Qed.

Lemma posted_fail_item err result item :
  inv (posted_is ps) (fail_item env cfg err result item).
Proof.
  apply inv_fail_item; [apply posted_new_Date|].
  intros it e. apply inv_handleSyncError, posted_db_run.
Qed.
End Posted.

(** One turn of the loop posts its batch and nothing else. *)
Lemma run_batch_posted env cfg batch result w :
  posted (trace (run_batch env cfg batch result w).2) = posted (trace w) ++ [batch].
Proof.
  unfold run_batch. rewrite bind_run.
  set (w1 := (processBatch env batch w).2).
  assert (H1 : posted (trace w1) = posted (trace w) ++ [batch]).
  { subst w1. unfold processBatch. rewrite bind_run. cbn. by rewrite posted_app. }
  destruct (processBatch env batch w).1 as [err|[[[pis|]]|]]; try done.
  - by apply (inv_for_of _ _ _ _ (λ s x _, posted_fail_item env cfg _ err s x)).
  - by apply (inv_for_of _ _ _ _ (λ s x _, posted_process_item env cfg _ batch s x)).
Qed.

(** With a batch size of at least one, enough fuel ends the loop, and the
    batches posted are the consecutive slices of [items] from [i] on. *)
Lemma batch_loop_posted env cfg fuel items i result w :
  (1 ≤ batchSize cfg)%nat →
  (length items ≤ i + fuel)%nat →
  ∃ batches,
    is_Some (batch_loop env cfg fuel items i result w).1 ∧
    posted (trace (batch_loop env cfg fuel items i result w).2)
      = posted (trace w) ++ batches ∧
    concat batches = drop i items ∧
    ∀ k b, batches !! k = Some b →
           b = take (batchSize cfg) (drop (i + k * batchSize cfg) items).
Proof.
  intros Hbs. revert i result w.
  induction fuel as [|fuel IH]; intros i result w Hfuel.
  - exists []. cbn [batch_loop]. rewrite decide_False by lia. cbn.
    rewrite app_nil_r, drop_ge by lia. split_and!; [by eexists|done|done|].
    intros k b Hk. by rewrite lookup_nil in Hk.
  - cbn [batch_loop]. destruct (decide (i < length items)%nat) as [Hlt|Hge].
    + rewrite bind_run.
      set (batch := take (batchSize cfg) (drop i items)).
      set (w1 := (run_batch env cfg batch result w).2).
      set (r1 := (run_batch env cfg batch result w).1).
      destruct (IH (i + batchSize cfg)%nat r1 w1) as (bs & Hsome & Hp & Hc & Hk); [lia|].
      exists (batch :: bs). split_and!.
      * done.
      * rewrite Hp. subst w1. rewrite run_batch_posted. by rewrite <- app_assoc.
      * cbn. rewrite Hc. subst batch.
        rewrite <- (drop_drop items (batchSize cfg) i). apply take_drop.
      * intros [|k] b Hb; cbn in Hb.
        -- injection Hb as <-. subst batch. do 2 f_equal. lia.
        -- apply Hk in Hb. rewrite Hb. do 2 f_equal. lia.
    + exists []. cbn. rewrite app_nil_r, drop_ge by lia.
      split_and!; [by eexists|done|done|].
      intros k b Hk. by rewrite lookup_nil in Hk.
Qed.

(** ** A soft-deleted record stays soft-deleted *)

Lemma select_task_update i j f d :
  (∀ r, row_id (f r) = row_id r) →
  select_task i (update_tasks j f d) =
  (λ r, if decide (row_id r = j) then f r else r) <$> select_task i d.
Proof.
  intros Hid. unfold select_task, update_tasks. cbn [tasks].
  induction (tasks d) as [|r l IH]; [done|].
  rewrite fmap_cons, !filter_cons.
  assert (Hsame : row_id (if decide (row_id r = j) then f r else r) = row_id r).
  { destruct (decide (row_id r = j)); [apply Hid|done]. }
  rewrite Hsame. destruct (decide (row_id r = i)); [done|apply IH].
Qed.

Lemma select_task_insert i r0 d r :
  select_task i d = Some r →
  select_task i (mkDb (tasks d ++ [r0]) (sync_queue d)) = Some r.
Proof.
  unfold select_task. cbn [tasks]. rewrite filter_app.
  destruct (filter _ (tasks d)); [done|]. done.
Qed.

Lemma gone_update i j f d :
  (∀ r, row_id (f r) = row_id r) →
  (∀ r, row_is_deleted r ≠ 0 → row_is_deleted (f r) ≠ 0) →
  gone i d → gone i (update_tasks j f d).
Proof.
  intros Hid Hdel (r & Hsel & Hr). unfold gone.
  rewrite select_task_update, Hsel by done.
  eexists. split; [done|]. destruct (decide (row_id r = j)); auto.
Qed.

Lemma gone_exec i s d : gone i d → gone i (exec s d).
Proof.
  intros Hg. destruct s; cbn [exec]; try done.
  - destruct Hg as (r0 & Hsel & Hr). exists r0. split; [|done].
    by apply select_task_insert.
  - by apply gone_update.
  - by apply gone_update.
  - by apply gone_update.
  - by apply gone_update.
Qed.

(** C7. Once the lookup by id returns a soft-deleted record, it does so
    after any further sequence of calls, and there [updateTask] answers
    [null] and [deleteTask] answers [false], each leaving both tables as
    they were: no column of the record changes and no queue entry is
    appended.  These are the answers that an id which is not stored gets
    as well. *)
Theorem deleted_record_rejects_mutation env cfg w i r cs updates :
  select_task i (db w) = Some r →
  row_is_deleted r ≠ 0 →
  let w' := (calls env cfg cs w).2 in
  gone i (db w') ∧
  (updateTask env i updates w').1 = None ∧
  db (updateTask env i updates w').2 = db w' ∧
  (deleteTask env i w').1 = false ∧
  db (deleteTask env i w').2 = db w' ∧
  (∀ j, select_task j (db w') = None →
        (updateTask env j updates w').1 = None ∧ (deleteTask env j w').1 = false).
Proof.
  intros Hsel Hdel w'.
  assert (Hg : gone i (db w')).
  { apply (calls_keep env cfg (gone i) cs (gone_exec i) w). by exists r. }
  destruct Hg as (r' & Hsel' & Hdel').
  destruct (updateTask_gone env i updates w' r' Hsel' Hdel') as [Hu1 Hu2].
  destruct (deleteTask_gone env i w' r' Hsel' Hdel') as [Hd1 Hd2].
  split_and!; try done; [by exists r'|].
  intros j Hnone. unfold updateTask, deleteTask.
  rewrite !bind_run, db_get_task_run. cbn [fst snd]. by rewrite Hnone.
Qed.
(** ** The order of dispatch *)

Global Instance created_le_trans : Transitive created_le.
Proof. unfold created_le. intros a b c. lia. Qed.

Global Instance created_le_total : Total created_le.
Proof. unfold created_le. intros a b. lia. Qed.

(** The order of the texts is a total order of the instants, and within
    the four-digit years it is the order of the instants. *)
Lemma iso_key_instant t : (iso_key t).2 = t.
Proof. unfold iso_key. by repeat destruct (decide _). Qed.

Global Instance iso_le_trans : Transitive iso_le.
Proof. unfold iso_le. intros a b c. cbn zeta. lia. Qed.

Global Instance iso_le_total : Total iso_le.
Proof. unfold iso_le. intros a b. cbn zeta. lia. Qed.

Lemma iso_le_refl a : iso_le a a.
Proof. unfold iso_le. cbn zeta. lia. Qed.

Lemma iso_le_antisym a b : iso_le a b → iso_le b a → a = b.
Proof.
  unfold iso_le. cbn zeta. intros H1 H2.
  rewrite <- (iso_key_instant a), <- (iso_key_instant b). lia.
Qed.

Lemma iso_le_four_digit a b :
  four_digit_year a → four_digit_year b → iso_le a b ↔ a ≤ b.
Proof.
  unfold four_digit_year, iso_le, iso_key. intros Ha Hb.
  rewrite !(decide_False (P := iso_hi ≤ _)) by lia.
  rewrite !(decide_False (P := _ < iso_lo)) by lia.
  cbn. lia.
Qed.

(** From year 10000 on the text starts with a sign, and is read before
    the text of any four-digit year. *)
Lemma iso_le_late_years_first a b :
  iso_hi ≤ a → four_digit_year b → iso_le a b ∧ ¬ iso_le b a.
Proof.
  unfold four_digit_year, iso_le, iso_key. intros Ha Hb.
  rewrite (decide_True (P := iso_hi ≤ a)) by done.
  rewrite (decide_False (P := iso_hi ≤ b)) by lia.
  rewrite (decide_False (P := b < iso_lo)) by lia.
  cbn. lia.
Qed.

Global Instance created_text_le_trans : Transitive created_text_le.
Proof. intros a b c. unfold created_text_le. apply iso_le_trans. Qed.

Global Instance created_text_le_total : Total created_text_le.
Proof. intros a b. unfold created_text_le. apply iso_le_total. Qed.

(** The sorter returns the rows it was given, in order, and keeps the
    rows of equal key in the order of the table. *)
Section OrderByFacts.
Context {A : Type} (R : A → A → Prop) `{!∀ x y, Decision (R x y)}.

Lemma insert_by_perm x l : insert_by R x l ≡ₚ x :: l.
Proof.
  induction l as [|y l IH]; cbn [insert_by]; [done|].
  destruct (decide (R x y)); [done|]. rewrite IH. apply Permutation_swap.
Qed.

Lemma order_by_perm l : order_by R l ≡ₚ l.
Proof.
  induction l as [|x l IH]; [done|].
  change (order_by R (x :: l)) with (insert_by R x (order_by R l)).
  by rewrite insert_by_perm, IH.
Qed.

Lemma insert_by_sorted `{!Total R, !Transitive R} x l :
  StronglySorted R l → StronglySorted R (insert_by R x l).
Proof.
  induction 1 as [|y l Hs IH Hall]; cbn [insert_by].
  - by repeat constructor.
  - destruct (decide (R x y)) as [Hxy|Hxy].
    + constructor; [by constructor|]. constructor; [done|].
      eapply Forall_impl; [exact Hall|]. intros z Hz. by trans y.
    + constructor; [done|]. rewrite insert_by_perm. constructor; [|done].
      by destruct (total R x y).
Qed.

Lemma order_by_sorted `{!Total R, !Transitive R} l : StronglySorted R (order_by R l).
Proof.
  induction l as [|x l IH]; [constructor|].
  change (order_by R (x :: l)) with (insert_by R x (order_by R l)).
  by apply insert_by_sorted.
Qed.

Lemma insert_by_filter (P : A → Prop) `{!∀ x, Decision (P x)} x l :
  (∀ y, P x → P y → R x y) →
  filter P (insert_by R x l) = filter P (x :: l).
Proof.
  intros Htie. induction l as [|y l IH]; cbn [insert_by]; [done|].
  destruct (decide (R x y)) as [Hxy|Hxy]; [done|].
  rewrite filter_cons, IH, !filter_cons.
  destruct (decide (P x)) as [Hx|Hx], (decide (P y)) as [Hy|Hy]; try done.
  destruct Hxy. by apply Htie.
Qed.

Lemma order_by_stable (P : A → Prop) `{!∀ x, Decision (P x)} l :
  (∀ x y, P x → P y → R x y) →
  filter P (order_by R l) = filter P l.
Proof.
  intros Htie. induction l as [|x l IH]; [done|].
  change (order_by R (x :: l)) with (insert_by R x (order_by R l)).
  rewrite insert_by_filter by (intros y; apply Htie).
  by rewrite !filter_cons, IH.
Qed.
End OrderByFacts.

Lemma select_queue_perm d : select_queue d ≡ₚ sync_queue d.
Proof. apply order_by_perm. Qed.

Lemma select_queue_text_sorted d : StronglySorted created_text_le (select_queue d).
Proof. apply (order_by_sorted created_text_le). Qed.

(** Entries enqueued at the same instant are read in the order in which
    they were enqueued. *)
Lemma select_queue_ties d t :
  filter (λ q, q_created_at q = t) (select_queue d) =
  filter (λ q, q_created_at q = t) (sync_queue d).
Proof.
  apply order_by_stable. intros x y Hx Hy.
  unfold created_text_le. rewrite Hx, Hy. apply iso_le_refl.
Qed.

Lemma StronglySorted_within {A} (R R' : A → A → Prop) (P : A → Prop) l :
  (∀ x y, P x → P y → R x y → R' x y) →
  Forall P l → StronglySorted R l → StronglySorted R' l.
Proof.
  intros Himpl HP Hs. induction Hs as [|x l Hs IH Hall]; [constructor|].
  apply Forall_cons in HP as [Hx HP]. constructor; [by apply IH|].
  rewrite Forall_forall in Hall, HP. apply Forall_forall. intros y Hy.
  apply Himpl; [done|by apply HP|by apply Hall].
Qed.

(** Within the four-digit years the queue is read oldest first. *)
Lemma select_queue_sorted d :
  Forall (λ q, four_digit_year (q_created_at q)) (sync_queue d) →
  StronglySorted created_le (select_queue d).
Proof.
  intros Hrange.
  apply (StronglySorted_within created_text_le created_le
           (λ q, four_digit_year (q_created_at q))).
  - intros x y Hx Hy. unfold created_text_le, created_le. by apply iso_le_four_digit.
  - by rewrite select_queue_perm.
  - apply select_queue_text_sorted.
Qed.

(** In a list sorted by [created_at], a strictly older entry stands at a
    strictly smaller position. *)
Lemma sorted_older_first (l : list SyncQueueItem) p1 p2 e1 e2 :
  StronglySorted created_le l →
  l !! p1 = Some e1 → l !! p2 = Some e2 →
  q_created_at e1 < q_created_at e2 →
  (p1 < p2)%nat.
Proof.
  intros Hs. revert p1 p2. induction Hs as [|x l Hs IH Hall]; intros p1 p2 H1 H2 Hlt.
  - by rewrite lookup_nil in H1.
  - destruct p1 as [|p1], p2 as [|p2]; cbn in H1, H2.
    + injection H1 as <-. injection H2 as <-. lia.
    + lia.
    + injection H2 as Hx. subst x. rewrite Forall_forall in Hall.
      assert (created_le e2 e1) as Hle.
      { apply Hall. by eapply list_elem_of_lookup_2. }
      unfold created_le in Hle. lia.
    + apply -> Nat.succ_lt_mono. by apply IH.
Qed.

Lemma lookup_slice {A} (l : list A) bs k p x :
  take bs (drop (k * bs) l) !! p = Some x →
  (p < bs)%nat ∧ l !! (k * bs + p)%nat = Some x.
Proof.
  intros H. destruct (decide (p < bs)%nat) as [Hp|Hp].
  - rewrite lookup_take_lt, lookup_drop in H by done. done.
  - rewrite lookup_take_ge in H by lia. done.
Qed.

(** A run that finds the remote authority reads the queue and enters the
    batch loop. *)
Lemma sync_online env cfg w :
  health env (n_health w) = true →
  sync env cfg w =
  let w1 := mkWorld (db w) (n_clock w) (n_uuid w) (S (n_health w)) (n_post w)
                    ((trace w ++ [Ev_health]) ++ [Ev_db Select_queue]) in
  match select_queue (db w) with
  | [] => (Some (mkResult true 0 0 []), w1)
  | items => batch_loop env cfg (length items) items 0 (mkResult true 0 0 []) w1
  end.
Proof.
  intros Hon. unfold sync. rewrite bind_run. unfold checkConnectivity at 1 2.
  cbn [fst snd]. rewrite Hon. cbn [negb]. rewrite bind_run.
  unfold fetchSyncQueueItems, db_all_queue. rewrite !bind_run. cbn.
  by destruct (select_queue (db w)).
Qed.

(** C9. A run with connectivity and a batch size of at least one, on a
    queue whose [created_at] lie in the four-digit years, ends, and what
    it posts is the queue read in [created_at] ascending order, entries
    of one instant in the order in which they were enqueued, cut into
    consecutive slices of [batchSize] entries posted one after the other:
    every entry of the queue is posted, an entry enqueued strictly earlier
    than another is in the same batch at an earlier position or in an
    earlier batch, and never in a later one. *)
Theorem sync_dispatches_oldest_first env cfg w :
  health env (n_health w) = true →
  (1 ≤ batchSize cfg)%nat →
  Forall (λ q, four_digit_year (q_created_at q)) (sync_queue (db w)) →
  ∃ batches,
    is_Some (sync env cfg w).1 ∧
    posted (trace (sync env cfg w).2) = posted (trace w) ++ batches ∧
    concat batches = select_queue (db w) ∧
    concat batches ≡ₚ sync_queue (db w) ∧
    StronglySorted created_le (concat batches) ∧
    (∀ t, filter (λ q, q_created_at q = t) (concat batches) =
          filter (λ q, q_created_at q = t) (sync_queue (db w))) ∧
    (∀ k b, batches !! k = Some b →
       b = take (batchSize cfg) (drop (k * batchSize cfg) (select_queue (db w)))) ∧
    (∀ k1 k2 b1 b2 p1 p2 e1 e2,
       batches !! k1 = Some b1 → batches !! k2 = Some b2 →
       b1 !! p1 = Some e1 → b2 !! p2 = Some e2 →
       q_created_at e1 < q_created_at e2 →
       (k1 < k2)%nat ∨ (k1 = k2 ∧ (p1 < p2)%nat)).
Proof.
  intros Hon Hbs Hrange.
  set (items := select_queue (db w)).
  assert (Hrun : ∃ batches,
    is_Some (sync env cfg w).1 ∧
    posted (trace (sync env cfg w).2) = posted (trace w) ++ batches ∧
    concat batches = items ∧
    ∀ k b, batches !! k = Some b →
           b = take (batchSize cfg) (drop (k * batchSize cfg) items)).
  { rewrite (sync_online env cfg w Hon). fold items.
    set (w1 := mkWorld _ _ _ _ _ _).
    assert (Hp1 : posted (trace w1) = posted (trace w)).
    { subst w1. cbn. by rewrite !posted_app, !app_nil_r. }
    destruct items as [|x items'] eqn:Hitems.
    - exists []. cbn [fst snd]. rewrite Hp1, app_nil_r.
      split_and!; [by eexists|done|done|].
      intros k b Hk. by rewrite lookup_nil in Hk.
    - destruct (batch_loop_posted env cfg (length (x :: items')) (x :: items') 0
                  (mkResult true 0 0 []) w1 Hbs) as (bs & Hsome & Hp & Hc & Hk); [lia|].
      exists bs. rewrite Hp1 in Hp. split_and!; done. }
  destruct Hrun as (batches & Hsome & Hp & Hc & Hk).
  exists batches. split_and!; try done.
  - rewrite Hc. apply select_queue_perm.
  - rewrite Hc. by apply select_queue_sorted.
  - intros t. rewrite Hc. apply select_queue_ties.
  - intros k1 k2 b1 b2 p1 p2 e1 e2 Hb1 Hb2 He1 He2 Hlt.
    rewrite (Hk _ _ Hb1) in He1. rewrite (Hk _ _ Hb2) in He2.
    apply lookup_slice in He1 as [Hp1 He1]. apply lookup_slice in He2 as [Hp2 He2].
    pose proof (sorted_older_first items _ _ _ _
                  (select_queue_sorted (db w) Hrange) He1 He2 Hlt).
    destruct (decide (k1 < k2)%nat); [by left|right].
    destruct (decide (k1 = k2)) as [->|]; [split; [done|lia]|].
    exfalso. nia.
Qed.

(** ** What [updateTask] writes *)

Lemma updateTask_db env i updates w r :
  select_task i (db w) = Some r →
  row_is_deleted r = 0 →
  let t := match p_title updates with Some t => trim t | None => row_title r end in
  let de := match p_description updates with
            | Some d => d | None => row_description r end in
  let c := match p_completed updates with
           | Some c => flag c | None => flag (bool_decide (row_completed r ≠ 0)) end in
  let now := clock env (n_clock w) in
  db (updateTask env i updates w).2 =
  exec (Insert_queue
          (mkItem (uuid env (n_uuid w)) i Op_update
                  (mkSnapshot i t de (bool_decide (c ≠ 0)) (row_created_at r) now false)
                  now 0 None))
       (update_tasks i (set_fields t de c now St_pending) (db w)).
Proof.
  intros Hsel Hlive. unfold updateTask.
  rewrite bind_run, db_get_task_run. cbn [fst snd]. rewrite Hsel.
  rewrite toTask_is_deleted, bool_decide_eq_false_2 by (intros H; by apply H).
  done.
Qed.

Lemma deleteTask_db env i w r :
  select_task i (db w) = Some r →
  row_is_deleted r = 0 →
  let now := clock env (n_clock w) in
  db (deleteTask env i w).2 =
  exec (Insert_queue
          (mkItem (uuid env (n_uuid w)) i Op_delete
                  (mkSnapshot i (row_title r) (row_description r)
                              (bool_decide (row_completed r ≠ 0)) (row_created_at r)
                              now true)
                  now 0 None))
       (update_tasks i (set_deleted now St_pending) (db w)).
Proof.
  intros Hsel Hlive. unfold deleteTask.
  rewrite bind_run, db_get_task_run. cbn [fst snd]. rewrite Hsel.
  rewrite toTask_is_deleted, bool_decide_eq_false_2 by (intros H; by apply H).
  done.
Qed.

(** A valid create appends one pending record, under a fresh identifier,
    and one entry for it. *)
Lemma createTask_world env taskData w :
  trim (default "" (p_title taskData)) ≠ "" →
  ∃ row e,
    row_id row = uuid env (n_uuid w) ∧
    row_sync_status row = St_pending ∧
    q_task_id e = uuid env (n_uuid w) ∧
    db (createTask env taskData w).2 =
      mkDb (tasks (db w) ++ [row]) (sync_queue (db w) ++ [e]) ∧
    n_uuid (createTask env taskData w).2 = S (S (n_uuid w)).
Proof.
  intros Htitle. unfold createTask. rewrite bind_run. cbn [fst snd uuidv4].
  rewrite decide_False by done.
  rewrite !bind_run, db_get_task_run. cbn.
  eexists _, _. split_and!; [| | |reflexivity|reflexivity]; done.
Qed.

(** No title is refused: whatever is left of it after trimming is stored. *)
Lemma updateTask_stores_any_title env i t updates w r :
  select_task i (db w) = Some r →
  row_is_deleted r = 0 →
  p_title updates = Some t →
  row_title <$> select_task i (db (updateTask env i updates w).2) = Some (trim t).
Proof.
  intros Hsel Hlive Ht. rewrite (updateTask_db env i updates w r Hsel Hlive).
  rewrite Ht. cbn [exec]. set (d := update_tasks _ _ _).
  assert (Hd : row_title <$> select_task i d = Some (trim t)).
  { subst d. rewrite select_task_update, Hsel by done. cbn.
    rewrite decide_True; [done|].
    unfold select_task in Hsel. apply head_Some_elem_of in Hsel.
    by apply list_elem_of_filter in Hsel as [? _]. }
  destruct (select_task i d) as [r'|] eqn:Hr'; [|done].
  change (select_task i (mkDb (tasks d) (sync_queue d ++ [_]))) with (select_task i d).
  by rewrite Hr'.
Qed.

(** The sibling: [createTask] throws on a title that trims to nothing. *)
Lemma createTask_rejects_blank_title env taskData w :
  trim (default "" (p_title taskData)) = "" →
  (createTask env taskData w).1 = Throws (new_Error "Title is required") ∧
  db (createTask env taskData w).2 = db w.
Proof.
  intros Hblank. unfold createTask. rewrite bind_run. cbn [fst snd].
  by rewrite decide_True.
Qed.

(** The PUT route answers 400 to such a title before it calls
    [updateTask]. *)
Lemma put_task_rejects_blank_title env i body s w :
  body_title body = Js_string s →
  trim s = "" →
  put_task env i body w =
  (Res_error 400 "If provided, title must be a non-empty string", w).
Proof.
  intros Hs Hblank. unfold put_task, title_guard. rewrite Hs.
  by rewrite decide_True.
Qed.

(** ** What an accepted item leaves alone *)

Lemma accepted_item_keeps_content env cfg batch result pi w :
  status pi = Rs_success ∨ status pi = Rs_conflict →
  let w' := (process_item env cfg batch result pi w).2 in
  row_title <$> tasks (db w') = row_title <$> tasks (db w) ∧
  row_description <$> tasks (db w') = row_description <$> tasks (db w) ∧
  row_completed <$> tasks (db w') = row_completed <$> tasks (db w) ∧
  row_updated_at <$> tasks (db w') = row_updated_at <$> tasks (db w) ∧
  row_is_deleted <$> tasks (db w') = row_is_deleted <$> tasks (db w).
Proof.
  intros Hst w'. subst w'. rewrite process_item_accepted by done. cbn [snd].
  rewrite updateSyncStatus_synced_db. cbn [exec update_tasks tasks].
  split_and!; rewrite <- list_fmap_compose; apply list_fmap_ext;
    intros _ r _; cbn; by destruct (decide (row_id r = client_id pi)).
Qed.

(** ** The invariant between record status and queue *)

Lemma queued_insert i q d :
  queued i (exec (Insert_queue q) d) ↔ queued i d ∨ q_task_id q = i.
Proof.
  unfold queued. cbn. split.
  - intros (q' & Hq' & Hi). apply elem_of_app in Hq' as [Hq'|Hq'].
    + left. by exists q'.
    + apply list_elem_of_singleton in Hq' as ->. by right.
  - intros [(q' & Hq' & Hi)|Hi].
    + exists q'. split; [|done]. apply elem_of_app. by left.
    + exists q. split; [|done]. apply elem_of_app. right. by apply list_elem_of_singleton.
Qed.

Lemma queued_delete i j d :
  queued i (exec (Delete_queue_of_task j) d) ↔ queued i d ∧ i ≠ j.
Proof.
  unfold queued. cbn. split.
  - intros (q & Hq & Hi). apply list_elem_of_filter in Hq as [Hne Hq].
    split; [by exists q|congruence].
  - intros [(q & Hq & Hi) Hne]. exists q. split; [|done].
    apply list_elem_of_filter. split; [congruence|done].
Qed.

Lemma queued_retry i n msg j d :
  queued i (exec (Update_queue_retry n msg j) d) ↔ queued i d.
Proof.
  unfold queued. cbn. split.
  - intros (q & Hq & Hi). apply list_elem_of_fmap in Hq as (q0 & -> & Hq0).
    exists q0. split; [done|]. by destruct (decide (q_id q0 = j)).
  - intros (q & Hq & Hi).
    exists (if decide (q_id q = j) then set_retry n msg q else q). split.
    + apply list_elem_of_fmap. by exists q.
    + by destruct (decide (q_id q = j)).
Qed.

Lemma queued_update_tasks i j f d : queued i (update_tasks j f d) ↔ queued i d.
Proof. done. Qed.

(** A mutation of record [i]: its rows turn pending, an entry for [i] is
    appended. *)
Lemma pending_synced_mutation i f e d :
  (∀ r, row_id (f r) = row_id r) →
  (∀ r, row_sync_status (f r) = St_pending) →
  q_task_id e = i →
  pending_synced_invariant d →
  pending_synced_invariant (exec (Insert_queue e) (update_tasks i f d)).
Proof.
  intros Hid Hst He Hinv r' Hr'.
  change (tasks (exec (Insert_queue e) (update_tasks i f d)))
    with (tasks (update_tasks i f d)) in Hr'.
  apply elem_of_update_tasks in Hr' as (r & Hr & ->).
  rewrite queued_insert, queued_update_tasks.
  destruct (Hinv r Hr) as [Hp Hs].
  destruct (decide (row_id r = i)) as [Hi|Hi].
  - rewrite Hid, Hst. split; [intros _; right; congruence|done].
  - split; [intros H; left; auto|].
    intros H [Hq|Hq]; [by apply Hs|congruence].
Qed.

Section QueueInvariant.
Context (env : Env) (cfg : Config).
Hypothesis uuid_fresh : ∀ a b, uuid env a = uuid env b → a = b.


Lemma wf_same (w w' : World) :
  db w' = db w → (n_uuid w ≤ n_uuid w')%nat → queue_wf env w → queue_wf env w'.
Proof.
  intros Hdb Hn [Hinv Hids]. split; [by rewrite Hdb|].
  intros r Hr. rewrite Hdb in Hr. destruct (Hids r Hr) as (k & Hk & Hid).
  exists k. split; [lia|done].
Qed.

Lemma wf_ids (w w' : World) :
  row_id <$> tasks (db w') = row_id <$> tasks (db w) →
  (n_uuid w ≤ n_uuid w')%nat → ids_drawn env w → ids_drawn env w'.
Proof.
  intros Hids Hn Hw r Hr.
  assert (row_id r ∈ row_id <$> tasks (db w)) as Hin.
  { rewrite <- Hids. apply list_elem_of_fmap. by exists r. }
  apply list_elem_of_fmap in Hin as (r0 & Hr0 & Hin).
  destruct (Hw r0 Hin) as (k & Hk & Hid). exists k. split; [lia|congruence].
Qed.

Lemma update_tasks_ids i f d :
  (∀ r, row_id (f r) = row_id r) →
  row_id <$> tasks (update_tasks i f d) = row_id <$> tasks d.
Proof.
  intros Hid. cbn. rewrite <- list_fmap_compose. apply list_fmap_ext.
  intros _ r _. cbn. destruct (decide (row_id r = i)); [apply Hid|done].
Qed.

Lemma wf_new_Date : inv (queue_wf env) (new_Date env).
Proof. intros w. by apply wf_same. Qed.

Lemma wf_uuidv4 : inv (queue_wf env) (uuidv4 env).
Proof. intros w. apply wf_same; [done|cbn; lia]. Qed.

Lemma wf_checkConnectivity : inv (queue_wf env) (checkConnectivity env).
Proof. intros w. by apply wf_same. Qed.

Lemma wf_axios_post items : inv (queue_wf env) (axios_post env items).
Proof. intros w. by apply wf_same. Qed.

Lemma wf_select_queue : inv (queue_wf env) (db_run Select_queue).
Proof. intros w. by apply wf_same. Qed.

Lemma wf_db_get_task i : inv (queue_wf env) (db_get_task i).
Proof. intros w. by apply wf_same. Qed.

Lemma wf_updateSyncStatus i sd : inv (queue_wf env) (updateSyncStatus env i St_synced sd).
Proof.
  intros w [Hinv Hids].
  assert (Hdb := updateSyncStatus_synced_db env i sd w).
  set (w' := (updateSyncStatus env i St_synced sd w).2) in *.
  set (srv := match sd with Some _ => _ | None => _ end) in Hdb.
  split.
  - rewrite Hdb. intros r' Hr'.
    change (tasks (exec _ (exec ?s (db w)))) with (tasks (exec s (db w))) in Hr'.
    apply elem_of_update_tasks in Hr' as (r & Hr & ->).
    rewrite queued_delete. cbn [exec]. rewrite queued_update_tasks.
    destruct (Hinv r Hr) as [Hp Hs].
    destruct (decide (row_id r = i)) as [Hi|Hi]; cbn.
    + split; [done|]. intros _ [_ Hne]. by apply Hne.
    + split; [intros H; split; auto|]. intros H [Hq _]. by apply Hs.
  - apply (wf_ids w w'); [|done|done]. rewrite Hdb.
    change (tasks (exec _ (exec ?s (db w)))) with (tasks (exec s (db w))).
    by apply update_tasks_ids.
Qed.

Lemma handleSyncError_n_uuid item err w :
  n_uuid (handleSyncError cfg item err w).2 = n_uuid w.
Proof.
  unfold handleSyncError. rewrite bind_run. cbn [fst snd].
  by destruct (decide _).
Qed.

Lemma wf_handleSyncError item err : inv (queue_wf env) (handleSyncError cfg item err).
Proof.
  intros w [Hinv Hids].
  assert (Hdb := handleSyncError_db cfg item err w). cbn zeta in Hdb.
  assert (Hn := handleSyncError_n_uuid item err w).
  set (w' := (handleSyncError cfg item err w).2) in *.
  set (d := exec (Update_queue_retry _ _ _) (db w)) in Hdb.
  assert (Hd : pending_synced_invariant d).
  { intros r Hr. subst d. rewrite queued_retry. by apply Hinv. }
  split.
  - rewrite Hdb. destruct (decide _); [|done].
    intros r' Hr'. apply elem_of_update_tasks in Hr' as (r & Hr & ->).
    change (queued ?i (exec (Update_task_error _) d)) with (queued i d).
    destruct (Hd r Hr) as [Hp Hs].
    destruct (decide (row_id r = q_task_id item)); [done|by split].
  - apply (wf_ids w w'); [|lia|done]. rewrite Hdb.
    destruct (decide _); [|done].
    cbn [exec]. by rewrite update_tasks_ids.
Qed.

Lemma wf_sync : inv (queue_wf env) (sync env cfg).
Proof.
  apply inv_sync.
  - apply wf_new_Date.
  - apply wf_checkConnectivity.
  - apply wf_axios_post.
  - apply wf_select_queue.
  - apply wf_updateSyncStatus.
  - apply wf_handleSyncError.
Qed.

Lemma wf_createTask taskData : inv (queue_wf env) (createTask env taskData).
Proof.
  intros w [Hinv Hids].
  destruct (decide (trim (default "" (p_title taskData)) = "")) as [Hblank|Htitle].
  { apply (wf_same w); [| |done].
    - apply (createTask_rejects_blank_title env taskData w Hblank).
    - unfold createTask. rewrite bind_run. cbn [fst snd].
      rewrite decide_True by done. cbn. lia. }
  destruct (createTask_world env taskData w Htitle)
    as (row & e & Hrow & Hst & He & Hdb & Hn).
  split.
  - rewrite Hdb. intros r Hr. cbn [tasks] in Hr.
    change (mkDb (tasks (db w) ++ [row]) (sync_queue (db w) ++ [e]))
      with (exec (Insert_queue e) (mkDb (tasks (db w) ++ [row]) (sync_queue (db w)))).
    rewrite queued_insert.
    change (queued ?i (mkDb _ (sync_queue (db w)))) with (queued i (db w)).
    apply elem_of_app in Hr as [Hr|Hr].
    + destruct (Hinv r Hr) as [Hp Hs]. split; [intros H; left; auto|].
      intros H [Hq|Hq]; [by apply Hs|].
      destruct (Hids r Hr) as (k & Hk & Hid).
      rewrite He, Hid in Hq. apply uuid_fresh in Hq. lia.
    + apply list_elem_of_singleton in Hr as ->.
      split; [intros _; right; congruence|congruence].
  - intros r Hr. rewrite Hdb in Hr. cbn [tasks] in Hr. rewrite Hn.
    apply elem_of_app in Hr as [Hr|Hr].
    + destruct (Hids r Hr) as (k & Hk & Hid). exists k. split; [lia|done].
    + apply list_elem_of_singleton in Hr as ->. exists (n_uuid w). split; [lia|done].
Qed.

Lemma wf_mutation (w w' : World) i f e :
  (∀ r, row_id (f r) = row_id r) →
  (∀ r, row_sync_status (f r) = St_pending) →
  q_task_id e = i →
  db w' = exec (Insert_queue e) (update_tasks i f (db w)) →
  (n_uuid w ≤ n_uuid w')%nat →
  queue_wf env w → queue_wf env w'.
Proof.
  intros Hid Hst He Hdb Hn [Hinv Hids]. split.
  - rewrite Hdb. by apply pending_synced_mutation.
  - apply (wf_ids w w'); [|done|done]. rewrite Hdb.
    change (tasks (exec (Insert_queue e) ?d)) with (tasks d).
    by apply update_tasks_ids.
Qed.

Lemma wf_updateTask i updates : inv (queue_wf env) (updateTask env i updates).
Proof.
  intros w HK.
  destruct (select_task i (db w)) as [r|] eqn:Hsel; cycle 1.
  { assert (Hw : updateTask env i updates w =
      (None, (db_get_task i w).2)).
    { unfold updateTask. rewrite bind_run, db_get_task_run. cbn [fst snd].
      by rewrite Hsel. }
    rewrite Hw. by apply (wf_same w). }
  destruct (decide (row_is_deleted r = 0)) as [Hlive|Hdel]; cycle 1.
  { assert (Hw : updateTask env i updates w =
      (None, (db_get_task i w).2)).
    { unfold updateTask. rewrite bind_run, db_get_task_run. cbn [fst snd].
      by rewrite Hsel, toTask_is_deleted, bool_decide_eq_true_2. }
    rewrite Hw. by apply (wf_same w). }
  eapply (wf_mutation w); [| | |apply (updateTask_db env i updates w r Hsel Hlive)| |done];
    try done.
  unfold updateTask. rewrite bind_run, db_get_task_run. cbn [fst snd].
  rewrite Hsel, toTask_is_deleted, bool_decide_eq_false_2 by (intros H; by apply H).
  rewrite !bind_run, db_get_task_run. cbn. lia.
Qed.

Lemma wf_deleteTask i : inv (queue_wf env) (deleteTask env i).
Proof.
  intros w HK.
  destruct (select_task i (db w)) as [r|] eqn:Hsel; cycle 1.
  { assert (Hw : deleteTask env i w = (false, (db_get_task i w).2)).
    { unfold deleteTask. rewrite bind_run, db_get_task_run. cbn [fst snd].
      by rewrite Hsel. }
    rewrite Hw. by apply (wf_same w). }
  destruct (decide (row_is_deleted r = 0)) as [Hlive|Hdel]; cycle 1.
  { assert (Hw : deleteTask env i w = (false, (db_get_task i w).2)).
    { unfold deleteTask. rewrite bind_run, db_get_task_run. cbn [fst snd].
      by rewrite Hsel, toTask_is_deleted, bool_decide_eq_true_2. }
    rewrite Hw. by apply (wf_same w). }
  eapply (wf_mutation w); [| | |apply (deleteTask_db env i w r Hsel Hlive)| |done];
    try done.
  unfold deleteTask. rewrite bind_run, db_get_task_run. cbn [fst snd].
  rewrite Hsel, toTask_is_deleted, bool_decide_eq_false_2 by (intros H; by apply H).
  rewrite !bind_run. cbn. lia.
Qed.

Lemma wf_calls cs : inv (queue_wf env) (calls env cfg cs).
Proof.
  apply inv_for_of. intros _ c _.
  destruct c; cbn [call]; (apply inv_bind; [|intros _; apply inv_ret]).
  - apply wf_createTask.
  - apply wf_updateTask.
  - apply wf_deleteTask.
  - apply wf_sync.
Qed.

(** With identifiers that never repeat, every state reached from the
    empty store keeps the two clauses that do not speak of [error]: a
    pending record has a queue entry and a synced record has none. *)
Lemma reachable_pending_synced w :
  reachable env cfg w → pending_synced_invariant (db w).
Proof.
  intros (cs & ->). apply wf_calls. split; intros r Hr; cbn in Hr; by inversion Hr.
Qed.
End QueueInvariant.

(** ** Runs on the sample worlds *)

(** C1. Scenario C on the code: the edited task is posted, the remote
    authority answers [conflict] with [resolved_data = {title: "Server
    title", ...}], and the run marks the record [synced] with the server
    id and empties the queue, as for a [success]; but the record's title is
    still the local one, not "Server title": [updateSyncStatus] reads
    nothing but [server_id] from the data it is given. *)
Theorem conflict_leaves_local_title :
  let out := sync env_conflict default_config local_edit in
  row_title <$> tasks (db local_edit) = ["Local edit"] ∧
  length (sync_queue (db local_edit)) = 1%nat ∧
  post env_conflict (n_post local_edit) (sync_queue (db local_edit)) =
    answer_all Rs_conflict (Some "srv-1") (Some server_title) None
               (sync_queue (db local_edit)) ∧
  p_title server_title = Some "Server title" ∧
  out.1 = Some (mkResult true 1 0 []) ∧
  row_title <$> tasks (db out.2) = ["Local edit"] ∧
  row_sync_status <$> tasks (db out.2) = [St_synced] ∧
  row_server_id <$> tasks (db out.2) = [Some "srv-1"] ∧
  sync_queue (db out.2) = [].
Proof. vm_compute. by repeat split. Qed.

(** C4. Scenario D on the code: after three runs that failed in transport
    the entry has [retry_count = 3] and its record is in [error]; a fourth
    run with connectivity reads the whole queue, posts that entry again and,
    failing again, raises its [retry_count] to 4. *)
Theorem exhausted_entry_is_posted_again :
  let out := sync env_timeout default_config three_failures in
  maxRetries default_config = 3%nat ∧
  q_retry_count <$> sync_queue (db three_failures) = [3%nat] ∧
  row_sync_status <$> tasks (db three_failures) = [St_error] ∧
  posted (trace out.2) =
    posted (trace three_failures) ++ [sync_queue (db three_failures)] ∧
  q_retry_count <$> sync_queue (db out.2) = [4%nat].
Proof. vm_compute. by repeat split. Qed.

(** The method [updateTask] on its own has no check of the title: called
    with a title of three spaces on an existing record that is not
    deleted, it stores the empty string and queues an [update] entry.
    Its one caller, the PUT handler, never hands it such a title. *)
Lemma updateTask_stores_blank_title :
  let w := buy_milk env_offline in
  let out := updateTask env_offline (sample_uuid 0) (only_title "   ") w in
  row_is_deleted <$> tasks (db w) = [0] ∧
  trim "   " = "" ∧
  title <$> out.1 = Some "" ∧
  row_title <$> tasks (db out.2) = [""] ∧
  q_operation <$> sync_queue (db out.2) = [Op_create; Op_update] ∧
  s_title ∘ q_data <$> sync_queue (db out.2) = ["Buy milk"; ""].
Proof. vm_compute. by repeat split. Qed.

Lemma error_without_entry_breaks d :
  St_error ∈ row_sync_status <$> tasks d → sync_queue d = [] → ¬ queue_invariant d.
Proof.
  intros Hin Hempty Hinv. apply list_elem_of_fmap in Hin as (r & Hst & Hr).
  destruct (Hinv r Hr) as [Hq _].
  destruct Hq as (q & Hq & _); [by right|].
  rewrite Hempty in Hq. by apply not_elem_of_nil in Hq.
Qed.

(** C8. A state reached by create, update and three runs in which the
    only record has [sync_status = 'error'] and the queue is empty, so the
    invariant fails there: the run that was answered item by item pruned
    both entries of the record on the accepted item and then ran retry
    bookkeeping, for the rejected item, on its own copy of the first
    entry. *)
Theorem error_status_without_queue_entry :
  let w := (calls env_flaky default_config flaky_calls empty_world).2 in
  reachable env_flaky default_config w ∧
  row_id <$> tasks (db w) = [sample_uuid 0] ∧
  row_sync_status <$> tasks (db w) = [St_error] ∧
  sync_queue (db w) = [] ∧
  ¬ queue_invariant (db w).
Proof.
  intros w.
  assert (Hst : row_sync_status <$> tasks (db w) = [St_error])
    by (vm_compute; reflexivity).
  assert (Hq : sync_queue (db w) = []) by (vm_compute; reflexivity).
  split_and!; [by exists flaky_calls|vm_compute; reflexivity|done|done|].
  apply error_without_entry_breaks; [|done]. rewrite Hst. by left.
Qed.

(** The sample identifiers never repeat, so the sample worlds keep the
    two other clauses. *)
Lemma sample_uuid_fresh a b : sample_uuid a = sample_uuid b → a = b.
Proof.
  unfold sample_uuid. intros H. apply (inj (String.app "uuid-")) in H.
  revert b H. induction a as [|a IH]; intros [|b] H; cbn in H; try done.
  injection H as H. f_equal. by apply IH.
Qed.

Lemma flaky_world_pending_synced :
  pending_synced_invariant
    (db (calls env_flaky default_config flaky_calls empty_world).2).
Proof.
  apply (reachable_pending_synced env_flaky default_config sample_uuid_fresh).
  by exists flaky_calls.
Qed.

(** * Further properties of [TaskService] *)

Lemma flag_nonzero b : bool_decide (flag b ≠ 0) = b.
Proof. by destruct b. Qed.

Lemma select_task_elem i d r : select_task i d = Some r → r ∈ tasks d ∧ row_id r = i.
Proof.
  unfold select_task. intros H. apply head_Some_elem_of in H.
  by apply list_elem_of_filter in H as [? ?].
Qed.

Lemma select_task_fresh_insert i r0 d :
  select_task i d = None → row_id r0 = i →
  select_task i (mkDb (tasks d ++ [r0]) (sync_queue d)) = Some r0.
Proof.
  unfold select_task. cbn [tasks]. intros Hnone Hid. rewrite filter_app.
  destruct (filter _ (tasks d)); [|done].
  rewrite app_nil_l, (filter_cons _ r0 []), decide_True by done. done.
Qed.

Lemma createTask_run env taskData w :
  let t := trim (default "" (p_title taskData)) in
  t ≠ "" →
  let i := uuid env (n_uuid w) in
  let now := clock env (n_clock w) in
  let de := match p_description taskData with
            | Some (Some d) => if decide (d = "") then None else Some d
            | _ => None
            end in
  let c := flag (default false (p_completed taskData)) in
  let row := mkTaskRow i t de c now now 0 St_pending None None in
  let e := mkItem (uuid env (S (n_uuid w))) i Op_create
                  (mkSnapshot i t de (bool_decide (c ≠ 0)) now now false) now 0 None in
  let d' := mkDb (tasks (db w) ++ [row]) (sync_queue (db w) ++ [e]) in
  createTask env taskData w =
  (Returns (rowToTask (select_task i d')),
   mkWorld d' (S (n_clock w)) (S (S (n_uuid w))) (n_health w) (n_post w)
           (((trace w ++ [Ev_db (Insert_task row)]) ++ [Ev_db (Insert_queue e)])
              ++ [Ev_db (Select_task i)])).
Proof.
  intros t Htitle i now de c row e d'. unfold createTask.
  rewrite bind_run. cbn [fst snd uuidv4]. fold t. rewrite decide_False by done.
  rewrite !bind_run, db_get_task_run. done.
Qed.

(** X1. A create with a title that is not blank appends one record and one
    queue entry and touches nothing else: the record carries the trimmed
    title, both timestamps equal to the time of the call, [is_deleted = 0]
    and [sync_status = 'pending']; the entry is a [create] for that record
    with [retry_count = 0] whose payload is the snapshot of the record as
    stored.  Under an identifier not yet in the table the call returns that
    record. *)
Theorem createTask_appends_record_and_entry env taskData w :
  trim (default "" (p_title taskData)) ≠ "" →
  let i := uuid env (n_uuid w) in
  let now := clock env (n_clock w) in
  let out := createTask env taskData w in
  ∃ row e,
    tasks (db out.2) = tasks (db w) ++ [row] ∧
    sync_queue (db out.2) = sync_queue (db w) ++ [e] ∧
    row_id row = i ∧
    row_title row = trim (default "" (p_title taskData)) ∧
    row_completed row = flag (default false (p_completed taskData)) ∧
    row_created_at row = now ∧ row_updated_at row = now ∧
    row_is_deleted row = 0 ∧ row_sync_status row = St_pending ∧
    row_server_id row = None ∧ row_last_synced_at row = None ∧
    q_id e = uuid env (S (n_uuid w)) ∧ q_task_id e = i ∧
    q_operation e = Op_create ∧ q_created_at e = now ∧
    q_retry_count e = 0%nat ∧ q_error_message e = None ∧
    q_data e = snapshot_of row ∧
    (select_task i (db w) = None → out.1 = Returns (Some (toTask row))).
Proof.
  intros Htitle i now out. subst out.
  rewrite (createTask_run env taskData w Htitle). cbn [fst snd db tasks sync_queue].
  eexists (mkTaskRow _ _ _ _ _ _ _ _ _ _), (mkItem _ _ _ _ _ _ _).
  split_and!; try reflexivity.
  intros Hfresh. unfold rowToTask.
  match goal with
  | |- context [toTask ?r] =>
      pose proof (select_task_fresh_insert i r (db w) Hfresh eq_refl) as H
  end.
  exact (f_equal (λ o, Returns (toTask <$> o)) H).
Qed.

(** X2. A create whose title is missing or blank after trimming throws
    [Error('Title is required')] before any statement is sent: both tables
    and the trace are as before. *)
Theorem createTask_blank_title_throws env taskData w :
  trim (default "" (p_title taskData)) = "" →
  (createTask env taskData w).1 = Throws (new_Error "Title is required") ∧
  db (createTask env taskData w).2 = db w ∧
  trace (createTask env taskData w).2 = trace w.
Proof.
  intros Hblank. unfold createTask. rewrite bind_run. cbn [fst snd].
  by rewrite decide_True.
Qed.

Lemma select_task_set i f d r :
  (∀ r0, row_id (f r0) = row_id r0) →
  select_task i d = Some r →
  select_task i (update_tasks i f d) = Some (f r).
Proof.
  intros Hf Hsel. rewrite select_task_update, Hsel by done. cbn.
  apply select_task_elem in Hsel as [_ Hid]. by rewrite decide_True.
Qed.

Lemma updateTask_run env i updates w r :
  select_task i (db w) = Some r →
  row_is_deleted r = 0 →
  let t := match p_title updates with Some t => trim t | None => row_title r end in
  let de := match p_description updates with
            | Some d => d | None => row_description r end in
  let c := match p_completed updates with
           | Some c => flag c | None => flag (bool_decide (row_completed r ≠ 0)) end in
  let now := clock env (n_clock w) in
  let e := mkItem (uuid env (n_uuid w)) i Op_update
             (mkSnapshot i t de (bool_decide (c ≠ 0)) (row_created_at r) now false)
             now 0 None in
  let d' := exec (Insert_queue e) (update_tasks i (set_fields t de c now St_pending) (db w)) in
  (updateTask env i updates w).1 = Some (toTask (set_fields t de c now St_pending r)) ∧
  db (updateTask env i updates w).2 = d' ∧
  select_task i d' = Some (set_fields t de c now St_pending r).
Proof.
  intros Hsel Hlive t de c now e d'.
  assert (Hsel' : select_task i d' = Some (set_fields t de c now St_pending r)).
  { by apply (select_task_set i (set_fields t de c now St_pending) (db w) r). }
  split_and!; [|by apply updateTask_db|done].
  unfold updateTask. rewrite bind_run, db_get_task_run. cbn [fst snd]. rewrite Hsel.
  rewrite toTask_is_deleted, bool_decide_eq_false_2 by (intros H; by apply H).
  rewrite !bind_run, db_get_task_run. cbn [fst snd].
  change (select_task i _) with (select_task i d'). by rewrite Hsel'.
Qed.

(** X3. An update of a record that exists and is not deleted writes only
    the keys present in the partial: an absent title, description or
    completed flag keeps the stored value, a present title is trimmed.  It
    always sets [updated_at] to the time of the call and [sync_status] to
    ['pending'], keeps [created_at], [server_id] and [last_synced_at],
    leaves the records of other ids alone, appends one [update] entry with
    [retry_count = 0] whose payload is the snapshot of the record as now
    stored, and returns that record. *)
Theorem updateTask_applies_present_keys env i updates w r :
  select_task i (db w) = Some r →
  row_is_deleted r = 0 →
  let now := clock env (n_clock w) in
  let out := updateTask env i updates w in
  ∃ r' e,
    out.1 = Some (toTask r') ∧
    select_task i (db out.2) = Some r' ∧
    row_id r' = i ∧
    row_title r' = match p_title updates with Some t => trim t | None => row_title r end ∧
    row_description r' =
      match p_description updates with Some d => d | None => row_description r end ∧
    row_completed r' =
      match p_completed updates with
      | Some c => flag c
      | None => flag (bool_decide (row_completed r ≠ 0))
      end ∧
    row_updated_at r' = now ∧ row_sync_status r' = St_pending ∧
    row_created_at r' = row_created_at r ∧ row_is_deleted r' = 0 ∧
    row_server_id r' = row_server_id r ∧
    row_last_synced_at r' = row_last_synced_at r ∧
    (∀ r0, r0 ∈ tasks (db w) → row_id r0 ≠ i → r0 ∈ tasks (db out.2)) ∧
    length (tasks (db out.2)) = length (tasks (db w)) ∧
    sync_queue (db out.2) = sync_queue (db w) ++ [e] ∧
    q_id e = uuid env (n_uuid w) ∧ q_task_id e = i ∧ q_operation e = Op_update ∧
    q_created_at e = now ∧ q_retry_count e = 0%nat ∧ q_error_message e = None ∧
    q_data e = snapshot_of r'.
Proof.
  intros Hsel Hlive now out. subst out.
  destruct (updateTask_run env i updates w r Hsel Hlive) as (Hres & Hdb & Hsel').
  destruct (select_task_elem i (db w) r Hsel) as [_ Hid].
  rewrite Hres, Hdb.
  eexists _, (mkItem _ _ _ _ _ _ _).
  split_and!; try reflexivity; try done.
  - intros r0 Hr0 Hne. cbn. apply list_elem_of_fmap. exists r0. by rewrite decide_False.
  - cbn. by rewrite length_fmap.
  - unfold snapshot_of. cbn. rewrite Hid, Hlive. reflexivity.
Qed.

Lemma mutation_of_missing_id_run env i updates w :
  select_task i (db w) = None →
  updateTask env i updates w = (None, (db_get_task i w).2) ∧
  deleteTask env i w = (false, (db_get_task i w).2).
Proof.
  intros Hnone. unfold updateTask, deleteTask.
  rewrite !bind_run, db_get_task_run. cbn [fst snd]. by rewrite Hnone.
Qed.

(** X4. An update or a delete of an id that is not in the table answers
    [null], respectively [false], after the one lookup: no statement that
    writes is sent and both tables are as before. *)
Theorem mutation_of_missing_id env i updates w :
  select_task i (db w) = None →
  updateTask env i updates w =
    (None, mkWorld (db w) (n_clock w) (n_uuid w) (n_health w) (n_post w)
                   (trace w ++ [Ev_db (Select_task i)])) ∧
  deleteTask env i w =
    (false, mkWorld (db w) (n_clock w) (n_uuid w) (n_health w) (n_post w)
                    (trace w ++ [Ev_db (Select_task i)])).
Proof.
  intros Hnone. unfold updateTask, deleteTask.
  rewrite !bind_run, db_get_task_run. cbn [fst snd]. by rewrite Hnone.
Qed.

Lemma deleteTask_run env i w r :
  select_task i (db w) = Some r →
  row_is_deleted r = 0 →
  let now := clock env (n_clock w) in
  let e := mkItem (uuid env (n_uuid w)) i Op_delete
             (mkSnapshot i (row_title r) (row_description r)
                         (bool_decide (row_completed r ≠ 0)) (row_created_at r) now true)
             now 0 None in
  let d' := exec (Insert_queue e) (update_tasks i (set_deleted now St_pending) (db w)) in
  (deleteTask env i w).1 = true ∧
  db (deleteTask env i w).2 = d' ∧
  select_task i d' = Some (set_deleted now St_pending r).
Proof.
  intros Hsel Hlive now e d'. split_and!.
  - unfold deleteTask. rewrite bind_run, db_get_task_run. cbn [fst snd]. rewrite Hsel.
    rewrite toTask_is_deleted, bool_decide_eq_false_2 by (intros H; by apply H).
    by rewrite !bind_run.
  - by apply deleteTask_db.
  - by apply (select_task_set i (set_deleted now St_pending) (db w) r).
Qed.

(** X5. A delete of a record that exists and is not deleted is a soft
    delete: the row stays, with [is_deleted = 1], [updated_at] the time of
    the call and [sync_status = 'pending'] and its other columns as they
    were; one [delete] entry is appended whose payload is the snapshot of
    the row as now stored; the call answers [true].  From then on
    [getTask] answers [null] for the id, a second delete answers [false]
    and an update answers [null]. *)
Theorem deleteTask_soft_deletes env i w r updates :
  select_task i (db w) = Some r →
  row_is_deleted r = 0 →
  let now := clock env (n_clock w) in
  let out := deleteTask env i w in
  ∃ r' e,
    out.1 = true ∧
    select_task i (db out.2) = Some r' ∧
    row_is_deleted r' = 1 ∧ row_updated_at r' = now ∧
    row_sync_status r' = St_pending ∧
    row_id r' = i ∧ row_title r' = row_title r ∧
    row_description r' = row_description r ∧ row_completed r' = row_completed r ∧
    row_created_at r' = row_created_at r ∧ row_server_id r' = row_server_id r ∧
    row_last_synced_at r' = row_last_synced_at r ∧
    length (tasks (db out.2)) = length (tasks (db w)) ∧
    sync_queue (db out.2) = sync_queue (db w) ++ [e] ∧
    q_id e = uuid env (n_uuid w) ∧ q_task_id e = i ∧ q_operation e = Op_delete ∧
    q_created_at e = now ∧ q_retry_count e = 0%nat ∧ q_error_message e = None ∧
    q_data e = snapshot_of r' ∧
    (getTask i out.2).1 = None ∧
    (deleteTask env i out.2).1 = false ∧
    db (deleteTask env i out.2).2 = db out.2 ∧
    (updateTask env i updates out.2).1 = None ∧
    db (updateTask env i updates out.2).2 = db out.2.
Proof.
  intros Hsel Hlive now out.
  destruct (deleteTask_run env i w r Hsel Hlive) as (Hres & Hdb & Hsel').
  destruct (select_task_elem i (db w) r Hsel) as [_ Hid].
  fold out in Hres, Hdb. rewrite <- Hdb in Hsel'.
  assert (Hdel : row_is_deleted (set_deleted now St_pending r) ≠ 0) by done.
  destruct (updateTask_gone env i updates out.2 _ Hsel' Hdel) as [Hu1 Hu2].
  destruct (deleteTask_gone env i out.2 _ Hsel' Hdel) as [Hd1 Hd2].
  exists (set_deleted now St_pending r), (mkItem (uuid env (n_uuid w)) i Op_delete
             (mkSnapshot i (row_title r) (row_description r)
                         (bool_decide (row_completed r ≠ 0)) (row_created_at r) now true)
             now 0 None).
  split_and!; try done.
  - rewrite Hdb. cbn. by rewrite length_fmap.
  - by rewrite Hdb.
  - unfold snapshot_of. cbn. by rewrite Hid.
  - rewrite (proj1 (getTask_run i out.2)), Hsel'. done.
Qed.

(** X6. Round trip: after a create with a title that is not blank, under
    an identifier not yet in the table, [getTask] of the new id returns
    the task the create returned, with the trimmed title, not deleted and
    pending, and [getAllTasks] lists it. *)
Theorem created_task_is_readable env taskData w :
  trim (default "" (p_title taskData)) ≠ "" →
  select_task (uuid env (n_uuid w)) (db w) = None →
  let out := createTask env taskData w in
  ∃ t,
    out.1 = Returns (Some t) ∧
    (getTask (uuid env (n_uuid w)) out.2).1 = Some t ∧
    t ∈ (getAllTasks out.2).1 ∧
    id t = uuid env (n_uuid w) ∧
    title t = trim (default "" (p_title taskData)) ∧
    completed t = default false (p_completed taskData) ∧
    is_deleted t = false ∧ sync_status t = St_pending ∧
    server_id t = None ∧ last_synced_at t = None.
Proof.
  intros Htitle Hfresh out. subst out.
  rewrite (createTask_run env taskData w Htitle).
  set (row := mkTaskRow _ _ _ _ _ _ _ _ _ _). set (e := mkItem _ _ _ _ _ _ _).
  set (d' := mkDb _ _). cbn [fst snd].
  assert (Hsel : select_task (uuid env (n_uuid w)) d' = Some row).
  { exact (select_task_fresh_insert _ row (db w) Hfresh eq_refl). }
  exists (toTask row). rewrite Hsel. split_and!; try done.
  - rewrite (proj1 (getTask_run _ _)). cbn [db]. by rewrite Hsel.
  - rewrite (proj1 (getAllTasks_run _)). apply list_elem_of_fmap. exists row.
    split; [done|]. apply elem_of_select_live_tasks. split; [|done].
    apply elem_of_app. right. by apply list_elem_of_singleton.
  - cbn. apply flag_nonzero.
Qed.

Global Instance updated_ge_trans : Transitive updated_ge.
Proof. unfold updated_ge. intros a b c. lia. Qed.
Global Instance updated_ge_total : Total updated_ge.
Proof. unfold updated_ge. intros a b. lia. Qed.
Global Instance updated_le_trans : Transitive updated_le.
Proof. unfold updated_le. intros a b c. lia. Qed.
Global Instance updated_le_total : Total updated_le.
Proof. unfold updated_le. intros a b. lia. Qed.

(** X7. [getAllTasks] returns the records with [is_deleted = 0], each
    exactly as often as it is stored, newest [updated_at] first, and
    changes neither table. *)
Theorem getAllTasks_live_newest_first w :
  (getAllTasks w).1 ≡ₚ toTask <$> filter (λ r, row_is_deleted r = 0) (tasks (db w)) ∧
  StronglySorted (λ a b, updated_at b ≤ updated_at a) (getAllTasks w).1 ∧
  db (getAllTasks w).2 = db w.
Proof.
  destruct (getAllTasks_run w) as [-> Hdb]. split_and!; [| |done].
  - unfold select_live_tasks. by rewrite merge_sort_Permutation.
  - apply (StronglySorted_fmap toTask updated_ge); [by intros a b|].
    apply (StronglySorted_merge_sort updated_ge).
Qed.

(** X8. [getTasksNeedingSync] returns the records whose [sync_status] is
    ['pending'] or ['error'], oldest [updated_at] first, soft-deleted ones
    included: a record deleted locally is still reported until its delete
    is synced. *)
Theorem getTasksNeedingSync_pending_and_failed w :
  (getTasksNeedingSync w).1 ≡ₚ
    toTask <$> filter (λ r, row_sync_status r = St_pending ∨ row_sync_status r = St_error)
                      (tasks (db w)) ∧
  StronglySorted (λ a b, updated_at a ≤ updated_at b) (getTasksNeedingSync w).1 ∧
  (∀ r, r ∈ tasks (db w) →
        row_sync_status r = St_pending ∨ row_sync_status r = St_error →
        toTask r ∈ (getTasksNeedingSync w).1) ∧
  (∀ t, t ∈ (getTasksNeedingSync w).1 → sync_status t ≠ St_synced) ∧
  db (getTasksNeedingSync w).2 = db w.
Proof.
  assert (Hrun : (getTasksNeedingSync w).1 =
                 toTask <$> select_tasks_needing_sync (db w)) by done.
  assert (Hperm : (getTasksNeedingSync w).1 ≡ₚ
    toTask <$> filter (λ r, row_sync_status r = St_pending ∨ row_sync_status r = St_error)
                      (tasks (db w))).
  { rewrite Hrun. unfold select_tasks_needing_sync. by rewrite merge_sort_Permutation. }
  split_and!; [done| | | |done].
  - rewrite Hrun. apply (StronglySorted_fmap toTask updated_le); [by intros a b|].
    apply (StronglySorted_merge_sort updated_le).
  - intros r Hr Hst. rewrite Hperm. apply list_elem_of_fmap. exists r.
    split; [done|]. by apply list_elem_of_filter.
  - intros t Ht. rewrite Hperm in Ht. apply list_elem_of_fmap in Ht as (r & -> & Hr).
    apply list_elem_of_filter in Hr as [[Hs|Hs] _]; cbn; by rewrite Hs.
Qed.

(** * Further properties of [SyncService] *)

(** X9. A run with connectivity on an empty queue reads the queue and
    returns at once with [success = true] and nothing counted: no batch is
    posted and no table changes, whatever the batch size. *)
Theorem sync_empty_queue env cfg w :
  health env (n_health w) = true →
  sync_queue (db w) = [] →
  sync env cfg w =
  (Some (mkResult true 0 0 []),
   mkWorld (db w) (n_clock w) (n_uuid w) (S (n_health w)) (n_post w)
           ((trace w ++ [Ev_health]) ++ [Ev_db Select_queue])).
Proof.
  intros Hon Hempty. rewrite (sync_online env cfg w Hon).
  unfold select_queue. by rewrite Hempty.
Qed.

(** The effect of the two helpers on the tables. *)
Lemma updateSyncStatus_tables env i sd w :
  ∃ srv now,
    tasks (db (updateSyncStatus env i St_synced sd w).2) =
      (λ r, if decide (row_id r = i) then set_sync St_synced srv now r else r)
        <$> tasks (db w) ∧
    sync_queue (db (updateSyncStatus env i St_synced sd w).2) =
      filter (λ q, q_task_id q ≠ i) (sync_queue (db w)).
Proof. rewrite updateSyncStatus_synced_db. by eexists _, _. Qed.

Lemma handleSyncError_tables cfg item err w :
  sync_queue (db (handleSyncError cfg item err w).2) =
    (λ q, if decide (q_id q = q_id item)
          then set_retry (S (q_retry_count item)) (error_text err) q else q)
      <$> sync_queue (db w) ∧
  tasks (db (handleSyncError cfg item err w).2) =
    if decide (maxRetries cfg ≤ S (q_retry_count item))%nat
    then (λ r, if decide (row_id r = q_task_id item) then set_status St_error r else r)
           <$> tasks (db w)
    else tasks (db w).
Proof.
  rewrite handleSyncError_db. cbn zeta. by destruct (decide _).
Qed.

(** What holds of the tables across the two helpers holds across a run. *)
Lemma sync_keeps env cfg (J : Database → Prop) :
  (∀ i sd w, J (db w) → J (db (updateSyncStatus env i St_synced sd w).2)) →
  (∀ item err w, J (db w) → J (db (handleSyncError cfg item err w).2)) →
  ∀ w, J (db w) → J (db (sync env cfg w).2).
Proof.
  intros Hs He. apply (inv_sync env cfg (on_db J)); try by intros w.
  - by intros items w.
  - intros i sd w. apply Hs.
  - intros item err w. apply He.
Qed.

(** X10. No run of [sync], whatever the remote authority answers, creates
    or removes a record or changes its id, title, description, completed
    flag, [created_at], [updated_at] or [is_deleted]: a run writes nothing
    but [sync_status], [server_id] and [last_synced_at]. *)
Theorem sync_keeps_record_content env cfg w :
  content <$> tasks (db (sync env cfg w).2) = content <$> tasks (db w).
Proof.
  apply (sync_keeps env cfg (λ d, content <$> tasks d = content <$> tasks (db w)));
    [| |done].
  - intros i sd w' <-. destruct (updateSyncStatus_tables env i sd w') as (srv & now & -> & _).
    rewrite <- list_fmap_compose. apply list_fmap_ext. intros _ r _. cbn.
    by destruct (decide (row_id r = i)).
  - intros item err w' <-. destruct (handleSyncError_tables cfg item err w') as [_ ->].
    destruct (decide _); [|done].
    rewrite <- list_fmap_compose. apply list_fmap_ext. intros _ r _. cbn.
    by destruct (decide (row_id r = q_task_id item)).
Qed.

(** X11. No run of [sync] adds a queue entry, reorders the table or
    rewrites an entry's id, task id, operation, payload or [created_at]:
    what is left of the queue after a run is a sublist of what was there,
    up to [retry_count] and [error_message]. *)
Theorem sync_only_prunes_and_annotates env cfg w :
  entry_core <$> sync_queue (db (sync env cfg w).2)
    `sublist_of` entry_core <$> sync_queue (db w).
Proof.
  apply (sync_keeps env cfg
           (λ d, entry_core <$> sync_queue d `sublist_of` entry_core <$> sync_queue (db w)));
    [| |done].
  - intros i sd w' Hw'. destruct (updateSyncStatus_tables env i sd w') as (srv & now & _ & ->).
    etrans; [|exact Hw']. apply fmap_sublist, sublist_filter.
  - intros item err w' Hw'. destruct (handleSyncError_tables cfg item err w') as [-> _].
    rewrite <- list_fmap_compose.
    rewrite (list_fmap_ext _ entry_core (sync_queue (db w'))); [done|].
    intros _ q _. cbn. by destruct (decide (q_id q = q_id item)).
Qed.

(** ** Pruning lasts until the end of the run *)

Section Pruned.
Context (env : Env) (cfg : Config) (c : string).

Lemma pruned_same (w w' : World) : db w' = db w → pruned c w → pruned c w'.
Proof. unfold pruned. by intros ->. Qed.

Lemma pruned_updateSyncStatus i sd : inv (pruned c) (updateSyncStatus env i St_synced sd).
Proof.
  intros w Hw q Hq.
  destruct (updateSyncStatus_tables env i sd w) as (srv & now & _ & Hqueue).
  rewrite Hqueue in Hq. apply list_elem_of_filter in Hq as [_ Hq]. by apply Hw.
Qed.

Lemma pruned_handleSyncError item err : inv (pruned c) (handleSyncError cfg item err).
Proof.
  intros w Hw q Hq. destruct (handleSyncError_tables cfg item err w) as [Hqueue _].
  rewrite Hqueue in Hq. apply list_elem_of_fmap in Hq as (q0 & -> & Hq0).
  specialize (Hw q0 Hq0). by destruct (decide (q_id q0 = q_id item)).
Qed.

Lemma pruned_process_item batch result pi :
  inv (pruned c) (process_item env cfg batch result pi).
Proof.
  apply inv_process_item.
  - intros w. by apply pruned_same.
  - apply pruned_updateSyncStatus.
  - apply pruned_handleSyncError.
Qed.

Lemma pruned_batch_loop fuel items i result :
  inv (pruned c) (batch_loop env cfg fuel items i result).
Proof.
  apply inv_batch_loop.
  - intros w. by apply pruned_same.
  - intros its w. by apply pruned_same.
  - apply pruned_updateSyncStatus.
  - apply pruned_handleSyncError.
Qed.
End Pruned.

Lemma process_item_prunes env cfg batch result pi w :
  status pi = Rs_success ∨ status pi = Rs_conflict →
  pruned (client_id pi) (process_item env cfg batch result pi w).2.
Proof.
  intros Hst q Hq. rewrite process_item_accepted in Hq by done. cbn [snd] in Hq.
  destruct (updateSyncStatus_tables env (client_id pi) (Some (server_data pi)) w)
    as (srv & now & _ & Hqueue).
  rewrite Hqueue in Hq. by apply list_elem_of_filter in Hq as [Hq _].
Qed.

Lemma for_of_process_item_prunes env cfg batch pis pi result w :
  pi ∈ pis →
  status pi = Rs_success ∨ status pi = Rs_conflict →
  pruned (client_id pi) (for_of (process_item env cfg batch) pis result w).2.
Proof.
  intros Hin Hst. revert result w.
  induction pis as [|p pis IH]; intros result w; [by apply not_elem_of_nil in Hin|].
  cbn [for_of]. rewrite bind_run.
  apply elem_of_cons in Hin as [<-|Hin]; [|by apply IH].
  apply (inv_for_of (pruned (client_id pi))).
  - intros s x _. apply pruned_process_item.
  - by apply process_item_prunes.
Qed.

(** Posting is all that moves the counter of requests. *)
Lemma run_batch_n_post env cfg batch result w :
  n_post (run_batch env cfg batch result w).2 = S (n_post w).
Proof.
  unfold run_batch. rewrite bind_run.
  set (w1 := (processBatch env batch w).2).
  assert (H1 : n_post w1 = S (n_post w)) by done.
  assert (Hdb : ∀ n s, inv (λ w, n_post w = n) (db_run s)) by (by intros n s w0).
  assert (Hclock : ∀ n, inv (λ w, n_post w = n) (new_Date env)) by (by intros n w0).
  destruct (processBatch env batch w).1 as [err|[[[pis|]]|]]; try done.
  - apply (inv_for_of (λ w0, n_post w0 = S (n_post w))); [|done].
    intros s x _. apply inv_fail_item; [done|].
    intros it e. by apply inv_handleSyncError.
  - apply (inv_for_of (λ w0, n_post w0 = S (n_post w))); [|done].
    intros s x _. apply inv_process_item; [done| |].
    + intros i sd. by apply inv_updateSyncStatus.
    + intros it e. by apply inv_handleSyncError.
Qed.

Lemma processBatch_run env batch w :
  (processBatch env batch w).1 = post env (n_post w) batch ∧
  db (processBatch env batch w).2 = db w.
Proof. done. Qed.

Lemma batch_loop_prunes env cfg fuel items i result w k pis pi :
  (1 ≤ batchSize cfg)%nat →
  (length items ≤ i + fuel)%nat →
  (i + k * batchSize cfg < length items)%nat →
  post env (n_post w + k)
       (take (batchSize cfg) (drop (i + k * batchSize cfg) items))
    = Post_resolves (Some (mkResponse (Some pis))) →
  pi ∈ pis →
  status pi = Rs_success ∨ status pi = Rs_conflict →
  pruned (client_id pi) (batch_loop env cfg fuel items i result w).2.
Proof.
  intros Hbs. revert i result w k.
  induction fuel as [|fuel IH]; intros i result w k Hfuel Hk Hpost Hin Hst; [lia|].
  cbn [batch_loop]. rewrite decide_True by lia. rewrite bind_run.
  set (batch := take (batchSize cfg) (drop i items)).
  destruct k as [|k].
  - apply pruned_batch_loop.
    rewrite Nat.add_0_r in Hpost. cbn [Nat.mul] in Hpost. rewrite Nat.add_0_r in Hpost.
    fold batch in Hpost. unfold run_batch. rewrite bind_run.
    rewrite (proj1 (processBatch_run env batch w)), Hpost. cbn [processed_items].
    by apply for_of_process_item_prunes.
  - apply (IH _ _ _ k); [lia|lia| |done|done].
    rewrite run_batch_n_post.
    replace (S (n_post w) + k)%nat with (n_post w + S k)%nat by lia.
    replace (i + batchSize cfg + k * batchSize cfg)%nat
      with (i + S k * batchSize cfg)%nat by lia.
    done.
Qed.

(** X12. In a run with connectivity, once the remote authority has
    answered an item of some batch with [success] or [conflict], no queue
    entry of that item's [client_id] is left when the run ends, whatever
    the other items and the later batches bring. *)
Theorem accepted_item_stays_pruned env cfg w k pis pi :
  health env (n_health w) = true →
  (1 ≤ batchSize cfg)%nat →
  (k * batchSize cfg < length (sync_queue (db w)))%nat →
  post env (n_post w + k)
       (take (batchSize cfg) (drop (k * batchSize cfg) (select_queue (db w))))
    = Post_resolves (Some (mkResponse (Some pis))) →
  pi ∈ pis →
  status pi = Rs_success ∨ status pi = Rs_conflict →
  ∀ q, q ∈ sync_queue (db (sync env cfg w).2) → q_task_id q ≠ client_id pi.
Proof.
  intros Hon Hbs Hk Hpost Hin Hst.
  rewrite (sync_online env cfg w Hon). cbn zeta.
  assert (Hlen : length (select_queue (db w)) = length (sync_queue (db w))).
  { by rewrite select_queue_perm. }
  destruct (select_queue (db w)) as [|x items] eqn:Hitems; [cbn in Hlen; lia|].
  apply (batch_loop_prunes env cfg _ (x :: items) 0 _ _ k pis pi); try done; try lia.
Qed.

(** ** The result of a run *)

Lemma for_of_value {A S} (P : S → Prop) (body : S → A → M S) l s w :
  (∀ s x w, P s → P (body s x w).1) → P s → P (for_of body l s w).1.
Proof.
  intros Hbody. revert s w. induction l as [|x l IH]; intros s w Hs; [done|].
  cbn [for_of]. rewrite bind_run. exact (IH _ _ (Hbody _ _ _ Hs)).
Qed.

Lemma run_batch_value env cfg (P : SyncResult → Prop) batch result w :
  (∀ b s x w, P s → P (process_item env cfg b s x w).1) →
  (∀ e s x w, P s → P (fail_item env cfg e s x w).1) →
  P result → P (run_batch env cfg batch result w).1.
Proof.
  intros Hp Hf Hr. unfold run_batch. rewrite bind_run.
  destruct (processBatch env batch w).1 as [err|[[[pis|]]|]]; try done.
  - exact (for_of_value P _ _ _ _ (Hf err) Hr).
  - exact (for_of_value P _ _ _ _ (Hp batch) Hr).
Qed.

Lemma batch_loop_value env cfg (P : SyncResult → Prop) fuel items i result w r :
  (∀ b s x w, P s → P (process_item env cfg b s x w).1) →
  (∀ e s x w, P s → P (fail_item env cfg e s x w).1) →
  P result →
  (batch_loop env cfg fuel items i result w).1 = Some r → P r.
Proof.
  intros Hp Hf. revert i result w.
  induction fuel as [|fuel IH]; intros i result w Hr; cbn [batch_loop];
    destruct (decide _); try (by intros [= <-]).
  rewrite bind_run. apply IH. by apply (run_batch_value env cfg P).
Qed.

Lemma process_item_result env cfg batch result pi w :
  (process_item env cfg batch result pi w).1 =
  match status pi with
  | Rs_error =>
      mkResult false (synced_items result) (S (failed_items result))
        (errors result ++
         [mkSyncError (client_id pi) "sync" (or_else (pi_error pi) "unknown")
                      (clock env (n_clock w))])
  | _ => mkResult (success result) (S (synced_items result)) (failed_items result)
                  (errors result)
  end.
Proof.
  unfold process_item. destruct (status pi); rewrite bind_run; try done.
  cbn [fst snd new_Date]. destruct (find _ batch); [by rewrite bind_run|done].
Qed.

Lemma fail_item_result env cfg err result item w :
  ∃ ts, (fail_item env cfg err result item w).1 =
    mkResult false (synced_items result) (S (failed_items result))
      (errors result ++
       [mkSyncError (q_task_id item) (operation_name (q_operation item))
                    (error_text err) ts]).
Proof. unfold fail_item. rewrite !bind_run. by eexists. Qed.

(** X13. Whatever a run meets, the result it returns is consistent:
    [success] is true exactly when [errors] is empty, a successful result
    counts no failed item, and in a run with connectivity [failed_items] is
    the number of entries of [errors]. *)
Theorem sync_result_consistent env cfg w r :
  (sync env cfg w).1 = Some r →
  (success r = true ↔ errors r = []) ∧
  (success r = true → failed_items r = 0%nat) ∧
  (health env (n_health w) = true → failed_items r = length (errors r)).
Proof.
  intros Hr. destruct (health env (n_health w)) eqn:Hon.
  - set (P := λ r : SyncResult,
        (success r = true ↔ errors r = []) ∧ failed_items r = length (errors r)).
    assert (HP : P r).
    { rewrite (sync_online env cfg w Hon) in Hr. cbn zeta in Hr.
      destruct (select_queue (db w)) as [|x items].
      { injection Hr as <-. by split. }
      apply (batch_loop_value env cfg P _ _ _ _ _ r) in Hr; [done| | |by split].
      - intros b s x0 w0 [Hs Hf]. rewrite process_item_result.
        destruct (status x0); unfold P; cbn [success errors failed_items];
          try by split.
        rewrite length_app. cbn [length]. split; [|lia].
        split; [done|]. intros H. by apply app_eq_nil in H as [_ ?].
      - intros e s x0 w0 [Hs Hf]. destruct (fail_item_result env cfg e s x0 w0) as [ts ->].
        unfold P; cbn [success errors failed_items].
        rewrite length_app. cbn [length]. split; [|lia].
        split; [done|]. intros H. by apply app_eq_nil in H as [_ ?]. }
    destruct HP as [Hs Hf]. split_and!; [done| |done].
    intros Hok. apply Hs in Hok. by rewrite Hf, Hok.
  - unfold sync in Hr. rewrite bind_run in Hr. unfold checkConnectivity in Hr.
    cbn [fst snd] in Hr. rewrite Hon in Hr. cbn in Hr.
    injection Hr as <-. by split_and!.
Qed.

(** ** A rule for the batch loop *)

(** With a batch size of at least one and enough fuel the loop ends; what
    one turn carries from index [i] to [i + batchSize] holds, at an index
    past the end of the queue, when it ends. *)
Lemma batch_loop_rule env cfg (Q : nat → SyncResult → World → Prop) items :
  (1 ≤ batchSize cfg)%nat →
  (∀ i result w, (i < length items)%nat → Q i result w →
     Q (i + batchSize cfg)%nat
       (run_batch env cfg (take (batchSize cfg) (drop i items)) result w).1
       (run_batch env cfg (take (batchSize cfg) (drop i items)) result w).2) →
  ∀ fuel i result w, (length items ≤ i + fuel)%nat → Q i result w →
  ∃ j r, (length items ≤ j)%nat ∧
    (batch_loop env cfg fuel items i result w).1 = Some r ∧
    Q j r (batch_loop env cfg fuel items i result w).2.
Proof.
  intros Hbs Hstep. induction fuel as [|fuel IH]; intros i result w Hfuel HQ.
  - cbn [batch_loop]. rewrite decide_False by lia. exists i, result. by split_and!; [lia| |].
  - cbn [batch_loop]. destruct (decide (i < length items)%nat) as [Hlt|Hge].
    + rewrite bind_run. apply IH; [lia|]. by apply Hstep.
    + exists i, result. by split_and!; [lia| |].
Qed.

(** The same for a whole run with connectivity: [Q] is to hold when the
    queue has been read, and to be carried by each turn. *)
Lemma sync_rule env cfg (Q : nat → SyncResult → World → Prop) w :
  health env (n_health w) = true →
  (1 ≤ batchSize cfg)%nat →
  (∀ i result w', (i < length (select_queue (db w)))%nat → Q i result w' →
     Q (i + batchSize cfg)%nat
       (run_batch env cfg (take (batchSize cfg) (drop i (select_queue (db w)))) result w').1
       (run_batch env cfg (take (batchSize cfg) (drop i (select_queue (db w)))) result w').2) →
  Q 0%nat (mkResult true 0 0 [])
    (mkWorld (db w) (n_clock w) (n_uuid w) (S (n_health w)) (n_post w)
             ((trace w ++ [Ev_health]) ++ [Ev_db Select_queue])) →
  ∃ j r, (length (select_queue (db w)) ≤ j)%nat ∧
    (sync env cfg w).1 = Some r ∧ Q j r (sync env cfg w).2.
Proof.
  intros Hon Hbs Hstep H0. rewrite (sync_online env cfg w Hon). cbn zeta.
  destruct (select_queue (db w)) as [|x items] eqn:Hitems.
  - exists 0%nat, (mkResult true 0 0 []). by split_and!; [cbn; lia| |].
  - apply (batch_loop_rule env cfg Q (x :: items)); [done|done|lia|done].
Qed.

(** ** A response that brings no items *)

(** X14. A run with connectivity in which every batch request resolves
    with no body, no [processed_items] or an empty list of them ends with
    [success = true] and nothing counted, although no entry was synced:
    both tables are exactly as before, so every entry is still queued and
    no retry is charged. *)
Theorem sync_ignores_empty_responses env cfg w :
  health env (n_health w) = true →
  (1 ≤ batchSize cfg)%nat →
  (∀ n items, post env n items = Post_resolves None ∨
              post env n items = Post_resolves (Some (mkResponse None)) ∨
              post env n items = Post_resolves (Some (mkResponse (Some [])))) →
  (sync env cfg w).1 = Some (mkResult true 0 0 []) ∧
  db (sync env cfg w).2 = db w.
Proof.
  intros Hon Hbs Hempty.
  destruct (sync_rule env cfg (λ _ r w', r = mkResult true 0 0 [] ∧ db w' = db w) w)
    as (j & r & _ & Hr & -> & Hdb); try done.
  intros i result w' _ [-> Hdb]. unfold run_batch. rewrite bind_run.
  rewrite (proj1 (processBatch_run env _ w')).
  destruct (Hempty (n_post w') (take (batchSize cfg) (drop i (select_queue (db w)))))
    as [-> | [-> | ->]]; done.
Qed.

(** ** A run in which every request fails in transport *)

Lemma fail_items_db env cfg err batch result w :
  db (for_of (fail_item env cfg err) batch result w).2 =
  foldl (charge cfg (error_text err)) (db w) batch.
Proof.
  revert result w. induction batch as [|it batch IH]; intros result w; [done|].
  cbn [for_of foldl]. rewrite bind_run, IH. f_equal.
  unfold fail_item. rewrite !bind_run. cbn [fst snd new_Date db].
  by rewrite handleSyncError_db.
Qed.

Lemma fail_items_result env cfg err batch result w :
  let r := (for_of (fail_item env cfg err) batch result w).1 in
  synced_items r = synced_items result ∧
  failed_items r = (failed_items result + length batch)%nat ∧
  error_key <$> errors r =
    (error_key <$> errors result) ++
    ((λ q, (q_task_id q, operation_name (q_operation q), error_text err)) <$> batch) ∧
  success r = (success result && bool_decide (batch = [])).
Proof.
  revert result w. induction batch as [|it batch IH]; intros result w.
  - cbn. rewrite app_nil_r, andb_true_r. by split_and!.
  - cbn [for_of]. cbn zeta. rewrite bind_run.
    destruct (fail_item_result env cfg err result it w) as [ts Hr].
    destruct (IH (fail_item env cfg err result it w).1
                 (fail_item env cfg err result it w).2) as (H1 & H2 & H3 & H4).
    rewrite H1, H2, H3, H4, Hr. cbn [synced_items failed_items errors success length].
    split_and!.
    + done.
    + lia.
    + by rewrite fmap_app, <- app_assoc.
    + rewrite (bool_decide_eq_false_2 (it :: batch = [])) by done.
      by rewrite andb_false_r.
Qed.

Lemma charge_tables cfg msg d it :
  sync_queue (charge cfg msg d it) =
    (λ q, if decide (q_id q = q_id it)
          then set_retry (S (q_retry_count it)) msg q else q) <$> sync_queue d ∧
  tasks (charge cfg msg d it) =
    (λ r, if decide (exhausts cfg r it) then set_status St_error r else r) <$> tasks d.
Proof.
  unfold charge, exhausts. cbn zeta.
  destruct (decide (maxRetries cfg ≤ S (q_retry_count it))%nat) as [Hmax|Hlow].
  - split; [done|]. cbn. apply list_fmap_ext. intros _ r _.
    destruct (decide (row_id r = q_task_id it)).
    + by rewrite decide_True.
    + rewrite decide_False; [done|]. by intros [? _].
  - split; [done|]. cbn. rewrite <- (list_fmap_id (tasks d)) at 1.
    apply list_fmap_ext. intros _ r _. rewrite decide_False; [done|]. by intros [_ ?].
Qed.

Lemma foldl_charge_tables cfg msg its d :
  sync_queue (foldl (charge cfg msg) d its) =
    (λ q, foldl (λ q it, if decide (q_id q = q_id it)
                         then set_retry (S (q_retry_count it)) msg q else q) q its)
      <$> sync_queue d ∧
  tasks (foldl (charge cfg msg) d its) =
    (λ r, foldl (λ r it, if decide (exhausts cfg r it) then set_status St_error r else r)
                r its) <$> tasks d.
Proof.
  revert d. induction its as [|it its IH]; intros d.
  - cbn. by rewrite !list_fmap_id.
  - cbn [foldl]. destruct (IH (charge cfg msg d it)) as [-> ->].
    destruct (charge_tables cfg msg d it) as [-> ->].
    by rewrite <- !list_fmap_compose.
Qed.

(** Folding the marks of a list of snapshots over one record. *)
Lemma foldl_mark cfg its r :
  foldl (λ r it, if decide (exhausts cfg r it) then set_status St_error r else r) r its =
  if decide (Exists (exhausts cfg r) its) then set_status St_error r else r.
Proof.
  revert r. induction its as [|it its IH]; intros r.
  - cbn. rewrite decide_False; [done|]. by intros H%Exists_nil.
  - cbn [foldl]. rewrite IH.
    destruct (decide (exhausts cfg r it)) as [Hit|Hit].
    + rewrite (decide_True (P := Exists (exhausts cfg r) (it :: its)))
        by (by apply Exists_cons_hd).
      by destruct (decide _).
    + destruct (decide (Exists (exhausts cfg r) its)) as [Hex|Hex].
      * by rewrite decide_True by (by apply Exists_cons_tl).
      * rewrite decide_False; [done|].
        intros H. apply Exists_cons in H as [?|?]; done.
Qed.

(** Folding the charges of a list of snapshots over an entry: none of
    them applies when its id is not among theirs; with distinct ids, the
    entry's own snapshot is the one that applies. *)
Lemma foldl_bump_other msg (its : list SyncQueueItem) q :
  q_id q ∉ q_id <$> its →
  foldl (λ q it, if decide (q_id q = q_id it)
                 then set_retry (S (q_retry_count it)) msg q else q) q its = q.
Proof.
  induction its as [|it its IH]; intros Hout; [done|].
  cbn [foldl]. rewrite fmap_cons in Hout. apply not_elem_of_cons in Hout as [Hne Hout].
  rewrite decide_False by done. by apply IH.
Qed.

Lemma foldl_bump msg (its : list SyncQueueItem) q :
  NoDup (q_id <$> its) →
  q ∈ its →
  foldl (λ q it, if decide (q_id q = q_id it)
                 then set_retry (S (q_retry_count it)) msg q else q) q its =
  set_retry (S (q_retry_count q)) msg q.
Proof.
  induction its as [|it its IH]; intros Hnd Hin; [by apply not_elem_of_nil in Hin|].
  rewrite fmap_cons in Hnd. apply NoDup_cons in Hnd as [Hfresh Hnd].
  cbn [foldl]. apply elem_of_cons in Hin as [->|Hin].
  - rewrite decide_True by done. by apply foldl_bump_other.
  - rewrite decide_False; [by apply IH|].
    intros Heq. apply Hfresh. rewrite <- Heq. apply list_elem_of_fmap. by exists q.
Qed.

(** X15. A run with connectivity in which every batch request fails in
    transport with the same error charges every entry once.  It ends with
    no synced item, one failed item and one error per entry, under the
    entry's task id and operation and in the order in which the queue was
    read, and [success] false unless the queue was empty.  A record is
    set to ['error'] exactly when one of its entries has reached
    [maxRetries], and is otherwise untouched.  When the entry ids are
    distinct, every entry is still queued, in place, with its
    [retry_count] one higher and the error text as [error_message]. *)
Theorem sync_all_transport_failures env cfg w err :
  health env (n_health w) = true →
  (1 ≤ batchSize cfg)%nat →
  (∀ n items, post env n items = Post_throws err) →
  ∃ r,
    (sync env cfg w).1 = Some r ∧
    synced_items r = 0%nat ∧
    failed_items r = length (sync_queue (db w)) ∧
    success r = bool_decide (sync_queue (db w) = []) ∧
    error_key <$> errors r =
      (λ q, (q_task_id q, operation_name (q_operation q), error_text err))
        <$> select_queue (db w) ∧
    tasks (db (sync env cfg w).2) =
      (λ r, if decide (Exists (exhausts cfg r) (sync_queue (db w)))
            then set_status St_error r else r) <$> tasks (db w) ∧
    (NoDup (q_id <$> sync_queue (db w)) →
     sync_queue (db (sync env cfg w).2) =
       (λ q, set_retry (S (q_retry_count q)) (error_text err) q) <$> sync_queue (db w)).
Proof.
  intros Hon Hbs Hthrow.
  set (items := select_queue (db w)).
  assert (Hperm : items ≡ₚ sync_queue (db w)) by apply select_queue_perm.
  set (Q := λ (i : nat) (r : SyncResult) (w' : World),
    db w' = foldl (charge cfg (error_text err)) (db w) (take i items) ∧
    synced_items r = 0%nat ∧
    failed_items r = length (take i items) ∧
    success r = bool_decide (take i items = []) ∧
    error_key <$> errors r =
      (λ q, (q_task_id q, operation_name (q_operation q), error_text err))
        <$> take i items).
  destruct (sync_rule env cfg Q w Hon Hbs) as (j & r & Hj & Hr & HQ).
  - intros i result w' Hi (Hdb & Hs & Hf & Hok & Hkeys).
    unfold run_batch. rewrite bind_run, (proj1 (processBatch_run env _ w')), Hthrow.
    fold items.
    set (batch := take (batchSize cfg) (drop i items)).
    set (w1 := (processBatch env batch w').2).
    destruct (fail_items_result env cfg err batch result w1) as (H1 & H2 & H3 & H4).
    unfold Q. rewrite fail_items_db, H1, H2, H3, H4.
    rewrite <- (take_take_drop items i (batchSize cfg)). fold batch.
    rewrite foldl_app, length_app, fmap_app, Hf, Hkeys, Hok.
    change (db w1) with (db w'). rewrite Hdb. split_and!; try done.
    destruct (take i items), batch; done.
  - unfold Q. by rewrite take_0.
  - destruct HQ as (Hdb & Hs & Hf & Hok & Hkeys).
    rewrite take_ge in Hdb, Hf, Hok, Hkeys by done.
    destruct (foldl_charge_tables cfg (error_text err) items (db w)) as [Hq Ht].
    exists r. rewrite Hdb, Hq, Ht. split_and!; try done.
    + by rewrite Hf, Hperm.
    + rewrite Hok. apply bool_decide_ext. split; intros H.
      * rewrite H in Hperm. by apply Permutation_nil_l in Hperm.
      * rewrite H in Hperm. by apply Permutation_nil_r in Hperm.
    + apply list_fmap_ext. intros _ r0 _. rewrite foldl_mark.
      destruct (decide (Exists (exhausts cfg r0) items)) as [H|H];
        rewrite Hperm in H; [by rewrite decide_True|by rewrite decide_False].
    + intros Hnd. apply list_fmap_ext. intros _ q Hq'%list_elem_of_lookup_2.
      apply foldl_bump; by rewrite Hperm.
Qed.

(** ** A run against a remote authority that accepts everything *)

Lemma accepted_status pi :
  status pi ≠ Rs_error → status pi = Rs_success ∨ status pi = Rs_conflict.
Proof. destruct (status pi); auto. by intros []. Qed.

Lemma settled_accept_keeps env cfg c batch result pi :
  status pi ≠ Rs_error → inv (settled c) (process_item env cfg batch result pi).
Proof.
  intros Hst%accepted_status w [Hp Hs]. split.
  - by apply pruned_process_item.
  - intros r' Hr' Hid. rewrite process_item_accepted in Hr' by done. cbn [snd] in Hr'.
    destruct (updateSyncStatus_tables env (client_id pi) (Some (server_data pi)) w)
      as (srv & now & Htasks & _).
    rewrite Htasks in Hr'. apply list_elem_of_fmap in Hr' as (r & -> & Hr).
    destruct (decide (row_id r = client_id pi)); [done|by apply Hs].
Qed.

Lemma settled_accept_makes env cfg batch result pi w :
  status pi ≠ Rs_error →
  settled (client_id pi) (process_item env cfg batch result pi w).2.
Proof.
  intros Hst%accepted_status. split; [by apply process_item_prunes|].
  intros r' Hr' Hid. rewrite process_item_accepted in Hr' by done. cbn [snd] in Hr'.
  destruct (updateSyncStatus_tables env (client_id pi) (Some (server_data pi)) w)
    as (srv & now & Htasks & _).
  rewrite Htasks in Hr'. apply list_elem_of_fmap in Hr' as (r & -> & Hr).
  destruct (decide (row_id r = client_id pi)) as [|Hne]; [done|]. by destruct Hne.
Qed.

Lemma untouched_accept env cfg batch result pi w r0 :
  status pi ≠ Rs_error → row_id r0 ≠ client_id pi →
  r0 ∈ tasks (db w) → r0 ∈ tasks (db (process_item env cfg batch result pi w).2).
Proof.
  intros Hst%accepted_status Hne Hr0. rewrite process_item_accepted by done. cbn [snd].
  destruct (updateSyncStatus_tables env (client_id pi) (Some (server_data pi)) w)
    as (srv & now & -> & _).
  apply list_elem_of_fmap. exists r0. by rewrite decide_False.
Qed.

Lemma accept_items env cfg batch pis result w :
  Forall (λ pi, status pi ≠ Rs_error) pis →
  let out := for_of (process_item env cfg batch) pis result w in
  out.1 = mkResult (success result) (synced_items result + length pis)
                   (failed_items result) (errors result) ∧
  (∀ c, settled c w → settled c out.2) ∧
  (∀ pi, pi ∈ pis → settled (client_id pi) out.2) ∧
  (∀ r0, r0 ∈ tasks (db w) → row_id r0 ∉ client_id <$> pis → r0 ∈ tasks (db out.2)).
Proof.
  intros Hall. revert result w.
  induction Hall as [|pi pis Hpi Hall IH]; intros result w; cbn zeta.
  - cbn. rewrite Nat.add_0_r. split_and!; try done; [by destruct result|].
    intros pi Hpi. by apply not_elem_of_nil in Hpi.
  - cbn [for_of]. rewrite bind_run.
    set (w1 := (process_item env cfg batch result pi w).2).
    destruct (IH (process_item env cfg batch result pi w).1 w1) as (Hr & Hkeep & Hmake & Hun).
    split_and!.
    + rewrite Hr, process_item_result.
      destruct (accepted_status pi Hpi) as [-> | ->]; cbn; f_equal; lia.
    + intros c Hc. apply Hkeep. by apply settled_accept_keeps.
    + intros p [->|Hp]%elem_of_cons; [|by apply Hmake].
      apply Hkeep. by apply settled_accept_makes.
    + intros r0 Hr0 Hout. rewrite fmap_cons in Hout.
      apply not_elem_of_cons in Hout as [Hne Hout].
      apply Hun; [|done]. by apply untouched_accept.
Qed.

(** The run, under a remote authority that accepts every batch of queued
    entries. *)
Lemma accepting_run env cfg w :
  health env (n_health w) = true →
  (1 ≤ batchSize cfg)%nat →
  (∀ n items, items ⊆ sync_queue (db w) → accepts (post env n items) items) →
  (sync env cfg w).1 = Some (mkResult true (length (sync_queue (db w))) 0 []) ∧
  sync_queue (db (sync env cfg w).2) = [] ∧
  (∀ r, r ∈ tasks (db (sync env cfg w).2) → queued (row_id r) (db w) →
        row_sync_status r = St_synced) ∧
  (∀ r, r ∈ tasks (db w) → ¬ queued (row_id r) (db w) →
        r ∈ tasks (db (sync env cfg w).2)).
Proof.
  intros Hon Hbs Hacc.
  set (items := select_queue (db w)).
  assert (Hperm : items ≡ₚ sync_queue (db w)) by apply select_queue_perm.
  set (Q := λ (i : nat) (r : SyncResult) (w' : World),
    r = mkResult true (length (take i items)) 0 [] ∧
    (∀ q, q ∈ take i items → settled (q_task_id q) w') ∧
    (∀ r0, r0 ∈ tasks (db w) → ¬ queued (row_id r0) (db w) → r0 ∈ tasks (db w'))).
  destruct (sync_rule env cfg Q w Hon Hbs) as (j & r & Hj & Hr & HQ).
  - intros i result w' Hi (-> & Hset & Hun).
    unfold run_batch. rewrite bind_run, (proj1 (processBatch_run env _ w')). fold items.
    set (batch := take (batchSize cfg) (drop i items)).
    assert (Hsub : batch ⊆ sync_queue (db w)).
    { intros q Hq. rewrite <- Hperm. subst batch.
      by apply subseteq_take, subseteq_drop in Hq. }
    destruct (Hacc (n_post w') batch Hsub) as (pis & -> & Hids & Hall).
    cbn [processed_items].
    destruct (accept_items env cfg batch pis (mkResult true (length (take i items)) 0 [])
                (processBatch env batch w').2 Hall) as (Hres & Hkeep & Hmake & Hun').
    unfold Q. rewrite Hres. cbn [success synced_items failed_items errors].
    rewrite <- (take_take_drop items i (batchSize cfg)). fold batch.
    split_and!.
    + rewrite length_app. do 2 f_equal.
      by rewrite <- (length_fmap client_id), Hids, length_fmap.
    + intros q [Hq|Hq]%elem_of_app.
      * apply Hkeep. destruct (Hset q Hq) as [Hp Hs]. by split.
      * assert (q_task_id q ∈ client_id <$> pis) as Hc.
        { rewrite Hids. apply list_elem_of_fmap. by exists q. }
        apply list_elem_of_fmap in Hc as (pi & -> & Hpi). by apply Hmake.
    + intros r0 Hr0 Hnq. apply Hun'; [by apply Hun|].
      rewrite Hids. intros (q & Hid & Hq)%list_elem_of_fmap.
      apply Hnq. exists q. split; [|done]. by apply Hsub.
  - unfold Q. rewrite take_0. split_and!; try done.
    intros q Hq. by apply not_elem_of_nil in Hq.
  - destruct HQ as (-> & Hset & Hun). rewrite take_ge in Hset, Hr by done.
    assert (Hids : ∀ q, q ∈ sync_queue (db (sync env cfg w).2) →
                        queued (q_task_id q) (db w)).
    { apply (sync_keeps env cfg (λ d, ∀ q, q ∈ sync_queue d → queued (q_task_id q) (db w))).
      - intros i sd w' Hw' q Hq.
        destruct (updateSyncStatus_tables env i sd w') as (srv & now & _ & Hqueue).
        rewrite Hqueue in Hq. apply list_elem_of_filter in Hq as [_ Hq]. by apply Hw'.
      - intros item err w' Hw' q Hq.
        destruct (handleSyncError_tables cfg item err w') as [Hqueue _].
        rewrite Hqueue in Hq. apply list_elem_of_fmap in Hq as (q0 & -> & Hq0).
        specialize (Hw' q0 Hq0). by destruct (decide (q_id q0 = q_id item)).
      - intros q Hq. by exists q. }
    split_and!.
    + by rewrite Hr, Hperm.
    + destruct (sync_queue (db (sync env cfg w).2)) as [|q l] eqn:Hq; [done|].
      exfalso. destruct (Hids q) as (q0 & Hq0 & Hid); [left|].
      rewrite <- Hperm in Hq0. destruct (Hset q0 Hq0) as [Hp _].
      apply (Hp q); [|done]. rewrite Hq. left.
    + intros r0 Hr0 (q0 & Hq0 & Hid). rewrite <- Hperm in Hq0.
      destruct (Hset q0 Hq0) as [_ Hs]. by apply Hs.
    + done.
Qed.

(** X16. A run with connectivity against a remote authority that accepts
    every batch (one [success] or [conflict] item per entry, echoing the
    task id) syncs everything: it returns [success = true] with as many
    synced items as there were entries and no error, the queue is empty
    afterwards, every record that had an entry is ['synced'], and the
    records without entry are untouched.  A second run with connectivity
    then finds nothing to do and posts nothing. *)
Theorem sync_against_accepting_remote env cfg w :
  health env (n_health w) = true →
  (1 ≤ batchSize cfg)%nat →
  (∀ n items, items ⊆ sync_queue (db w) → accepts (post env n items) items) →
  let w' := (sync env cfg w).2 in
  (sync env cfg w).1 = Some (mkResult true (length (sync_queue (db w))) 0 []) ∧
  sync_queue (db w') = [] ∧
  (∀ r, r ∈ tasks (db w') → queued (row_id r) (db w) → row_sync_status r = St_synced) ∧
  (∀ r, r ∈ tasks (db w) → ¬ queued (row_id r) (db w) → r ∈ tasks (db w')) ∧
  (∀ env' cfg', health env' (n_health w') = true →
     (sync env' cfg' w').1 = Some (mkResult true 0 0 []) ∧
     posted (trace (sync env' cfg' w').2) = posted (trace w') ∧
     db (sync env' cfg' w').2 = db w').
Proof.
  intros Hon Hbs Hacc w'.
  destruct (accepting_run env cfg w Hon Hbs Hacc) as (Hr & Hq & Hs & Hu).
  split_and!; try done.
  intros env' cfg' Hon'. rewrite (sync_online env' cfg' w' Hon').
  unfold select_queue. fold w' in Hq. rewrite Hq. cbn.
  by rewrite !posted_app, !app_nil_r.
Qed.

(** ** The bundled batch endpoint *)

Lemma batch_endpoint_shape uuids n items :
  length (batch_endpoint uuids n items) = length items ∧
  ∀ pi, pi ∈ batch_endpoint uuids n items →
    status pi = Rs_success ∧ pi_error pi = None ∧
    ∃ k, (n ≤ k)%nat ∧
      pi_server_id pi = Some ("srv-" +:+ uuids k) ∧
      (p_server_id <$> resolved_data pi) = Some (Some (Some ("srv-" +:+ uuids k))).
Proof.
  revert n. induction items as [|it items IH]; intros n.
  - split; [done|]. intros pi Hpi. by apply not_elem_of_nil in Hpi.
  - cbn [batch_endpoint]. cbn zeta. set (drawn := if decide _ then _ else _).
    assert (Hn : (n ≤ drawn.2)%nat).
    { subst drawn. repeat destruct (decide _); cbn; lia. }
    destruct (IH (S drawn.2)) as [Hlen Hall]. split; [cbn; by rewrite Hlen|].
    intros pi [->|Hpi]%elem_of_cons.
    + cbn. split_and!; try done. by exists drawn.2.
    + destruct (Hall pi Hpi) as (H1 & H2 & k & Hk & H3 & H4).
      split_and!; try done. exists k. split_and!; [lia|done|done].
Qed.

Lemma batch_endpoint_clients uuids n items :
  (∀ q, q ∈ items → q_task_id q ≠ "") →
  client_id <$> batch_endpoint uuids n items = q_task_id <$> items.
Proof.
  revert n. induction items as [|it items IH]; intros n Hids; [done|].
  cbn [batch_endpoint]. cbn zeta. rewrite !fmap_cons. cbn [client_id].
  rewrite (decide_False (P := q_task_id it = "")) by (apply Hids; left).
  cbn [fst snd]. f_equal. apply IH. intros q Hq. apply Hids. by right.
Qed.

Lemma batch_endpoint_server_ids uuids n items :
  (∀ a b, uuids a = uuids b → a = b) →
  NoDup (pi_server_id <$> batch_endpoint uuids n items).
Proof.
  intros Hinj. revert n. induction items as [|it items IH]; intros n; [constructor|].
  cbn [batch_endpoint]. cbn zeta. set (drawn := if decide _ then _ else _).
  rewrite fmap_cons. cbn [pi_server_id]. apply NoDup_cons. split; [|apply IH].
  intros (pi & Hid & Hpi)%list_elem_of_fmap.
  destruct (batch_endpoint_shape uuids (S drawn.2) items) as [_ Hall].
  destruct (Hall pi Hpi) as (_ & _ & k & Hk & Hsrv & _).
  rewrite Hsrv in Hid. injection Hid as Hid.
  change (uuids drawn.2 = uuids k) in Hid. apply Hinj in Hid. lia.
Qed.

(** X17. The batch endpoint of the sync router answers one item per entry
    of the request, in order, each with status [success], no error, a
    server id ["srv-..."] drawn from its own identifiers and the same id
    under [resolved_data.server_id]; for entries with a task id the
    [client_id] is that task id; and when its identifiers never repeat, no
    two items of an answer share a server id. *)
Theorem batch_endpoint_accepts_all uuids n items :
  length (batch_endpoint uuids n items) = length items ∧
  (∀ pi, pi ∈ batch_endpoint uuids n items →
     status pi = Rs_success ∧ pi_error pi = None ∧
     ∃ k, pi_server_id pi = Some ("srv-" +:+ uuids k) ∧
          (p_server_id <$> resolved_data pi) = Some (Some (Some ("srv-" +:+ uuids k)))) ∧
  ((∀ q, q ∈ items → q_task_id q ≠ "") →
     client_id <$> batch_endpoint uuids n items = q_task_id <$> items) ∧
  ((∀ a b, uuids a = uuids b → a = b) →
     NoDup (pi_server_id <$> batch_endpoint uuids n items)).
Proof.
  destruct (batch_endpoint_shape uuids n items) as [Hlen Hall].
  split_and!; [done| | |].
  - intros pi Hpi. destruct (Hall pi Hpi) as (H1 & H2 & k & _ & H3 & H4).
    split_and!; try done. by exists k.
  - apply batch_endpoint_clients.
  - apply batch_endpoint_server_ids.
Qed.

(** X18. The offline-to-online flow against the bundled endpoint: when
    every batch request is answered by the batch endpoint and every
    queued entry has a task id, one run with connectivity returns
    [success = true] with every entry counted as synced, empties the
    queue, leaves every record that had an entry ['synced'] and the other
    records untouched. *)
Theorem sync_against_batch_endpoint env cfg w uuids :
  health env (n_health w) = true →
  (1 ≤ batchSize cfg)%nat →
  (∀ n items, ∃ m, post env n items = batch_response uuids m items) →
  (∀ q, q ∈ sync_queue (db w) → q_task_id q ≠ "") →
  (sync env cfg w).1 = Some (mkResult true (length (sync_queue (db w))) 0 []) ∧
  sync_queue (db (sync env cfg w).2) = [] ∧
  (∀ r, r ∈ tasks (db (sync env cfg w).2) → queued (row_id r) (db w) →
        row_sync_status r = St_synced) ∧
  (∀ r, r ∈ tasks (db w) → ¬ queued (row_id r) (db w) →
        r ∈ tasks (db (sync env cfg w).2)).
Proof.
  intros Hon Hbs Hpost Hids. apply accepting_run; [done|done|].
  intros n items Hsub. destruct (Hpost n items) as [m ->].
  exists (batch_endpoint uuids m items). split_and!; [done| |].
  - apply batch_endpoint_clients. intros q Hq. by apply Hids, Hsub.
  - apply Forall_forall. intros pi Hpi.
    destruct (batch_endpoint_shape uuids m items) as [_ Hall].
    destruct (Hall pi Hpi) as (-> & _). done.
Qed.

(** ** An item the remote authority rejects *)

Lemma or_else_nonempty s d : d ≠ "" → or_else s d ≠ "".
Proof. intros Hd. unfold or_else. destruct s as [x|]; [|done]. by destruct (decide _). Qed.

Lemma error_text_new_Error m : m ≠ "" → error_text (new_Error m) = m.
Proof. intros Hm. unfold error_text. cbn. by rewrite decide_False. Qed.

Lemma find_first {A} (P : A → Prop) `{∀ x, Decision (P x)} (l1 l2 : list A) x :
  P x → (∀ y, y ∈ l1 → ¬ P y) → find P (l1 ++ x :: l2) = Some x.
Proof.
  intros Hx Hl1. unfold find. rewrite filter_app, filter_cons, decide_True by done.
  induction l1 as [|y l1 IH]; [done|].
  rewrite filter_cons, decide_False by (apply Hl1; left).
  apply IH. intros z Hz. apply Hl1. by right.
Qed.

Lemma find_none {A} (P : A → Prop) `{∀ x, Decision (P x)} (l : list A) :
  (∀ y, y ∈ l → ¬ P y) → find P l = None.
Proof.
  intros Hl. unfold find. induction l as [|y l IH]; [done|].
  rewrite filter_cons, decide_False by (apply Hl; left).
  apply IH. intros z Hz. apply Hl. by right.
Qed.

(** X19. An item with status [error] makes the run unsuccessful and is
    reported under operation ["sync"] with the remote authority's message,
    or ["unknown"] when there is none.  Retry bookkeeping is charged to
    the first entry of the batch that has the item's [client_id], with
    the message (or ["sync error"]) as error text; when no entry of the
    batch has that id, no table changes. *)
Theorem error_item_charges_first_entry env cfg batch result pi w :
  status pi = Rs_error →
  let out := process_item env cfg batch result pi w in
  out.1 = mkResult false (synced_items result) (S (failed_items result))
            (errors result ++
             [mkSyncError (client_id pi) "sync" (or_else (pi_error pi) "unknown")
                          (clock env (n_clock w))]) ∧
  ((∀ q, q ∈ batch → q_task_id q ≠ client_id pi) → db out.2 = db w) ∧
  (∀ l1 q l2, batch = l1 ++ q :: l2 →
     q_task_id q = client_id pi →
     (∀ q', q' ∈ l1 → q_task_id q' ≠ client_id pi) →
     db out.2 = charge cfg (or_else (pi_error pi) "sync error") (db w) q).
Proof.
  intros Hst out. subst out. split_and!.
  - by rewrite process_item_result, Hst.
  - intros Hnone. unfold process_item. rewrite Hst, bind_run. cbn [fst snd new_Date].
    by rewrite (find_none _ batch Hnone).
  - intros l1 q l2 -> Hq Hl1. unfold process_item. rewrite Hst, bind_run.
    cbn [fst snd new_Date]. rewrite (find_first _ l1 l2 q Hq Hl1), bind_run.
    unfold mret, M_ret. cbn [fst snd]. rewrite handleSyncError_db.
    by rewrite error_text_new_Error by (by apply or_else_nonempty).
Qed.

(** * Properties of the routers *)

(** ** [trim] *)

Lemma to_list_rev_app s1 s2 :
  String.list_ascii_of_string (String.rev_app s1 s2) =
  rev (String.list_ascii_of_string s1) ++ String.list_ascii_of_string s2.
Proof.
  revert s2. induction s1 as [|a s1 IH]; intros s2; [done|].
  cbn. rewrite IH. cbn. by rewrite <- app_assoc.
Qed.

Lemma to_list_rev s :
  String.list_ascii_of_string (String.rev s) = rev (String.list_ascii_of_string s).
Proof. unfold String.rev. by rewrite to_list_rev_app, app_nil_r. Qed.

Lemma to_list_trimStart s :
  String.list_ascii_of_string (trimStart s) = skip_spaces (String.list_ascii_of_string s).
Proof. induction s as [|a s IH]; [done|]. cbn. by destruct (is_space a). Qed.

Lemma to_list_trim s :
  String.list_ascii_of_string (trim s) =
  rev (skip_spaces (rev (skip_spaces (String.list_ascii_of_string s)))).
Proof. unfold trim. by rewrite to_list_rev, to_list_trimStart, to_list_rev, to_list_trimStart. Qed.

Lemma to_list_inj s1 s2 :
  String.list_ascii_of_string s1 = String.list_ascii_of_string s2 → s1 = s2.
Proof.
  intros H. rewrite <- (String.string_of_list_ascii_of_string s1), H.
  apply String.string_of_list_ascii_of_string.
Qed.

Lemma skip_spaces_suffix l : ∃ p, l = p ++ skip_spaces l.
Proof.
  induction l as [|c l [p Hp]]; [by exists []|]. cbn. destruct (is_space c).
  - exists (c :: p). cbn. by rewrite <- Hp.
  - by exists [].
Qed.

Lemma skip_spaces_head l c t : skip_spaces l = c :: t → is_space c = false.
Proof.
  induction l as [|a l IH]; [done|]. cbn. destruct (is_space a) eqn:Ha; [done|].
  intros [= -> _]. done.
Qed.

Lemma skip_spaces_clean l :
  (∀ c t, l = c :: t → is_space c = false) → skip_spaces l = l.
Proof. destruct l as [|c t]; [done|]. intros H. cbn. by rewrite (H c t). Qed.

Lemma skip_spaces_idemp l : skip_spaces (skip_spaces l) = skip_spaces l.
Proof. apply skip_spaces_clean. intros c t. apply skip_spaces_head. Qed.

(** [trim] strips once and for all. *)
Lemma trim_idemp s : trim (trim s) = trim s.
Proof.
  apply to_list_inj. rewrite (to_list_trim (trim s)), (to_list_trim s).
  set (a := skip_spaces (String.list_ascii_of_string s)).
  set (b := skip_spaces (rev a)).
  assert (Hclean : skip_spaces (rev b) = rev b).
  { apply skip_spaces_clean. intros c t Hb.
    destruct (skip_spaces_suffix (rev a)) as [p Hp]. fold b in Hp.
    assert (Ha : a = rev b ++ rev p).
    { rewrite <- (rev_involutive a), Hp. by rewrite rev_app_distr. }
    rewrite Hb in Ha. cbn in Ha. by apply (skip_spaces_head _ _ _ Ha). }
  rewrite Hclean, rev_involutive. subst b. by rewrite skip_spaces_idemp.
Qed.

Lemma trim_empty : trim "" = "".
Proof. done. Qed.

(** ** The handlers of [routes/tasks.ts] *)

Lemma select_task_is_Some i d r : r ∈ tasks d → row_id r = i → is_Some (select_task i d).
Proof.
  intros Hr Hid. unfold select_task.
  destruct (filter (λ r, row_id r = i) (tasks d)) as [|x l] eqn:Hf; [|by eexists].
  assert (r ∈ filter (λ r, row_id r = i) (tasks d)) as Hin
    by (by apply list_elem_of_filter).
  rewrite Hf in Hin. by apply not_elem_of_nil in Hin.
Qed.

Lemma trim_nonblank s : trim s ≠ "" → s ≠ "" ∧ trim (default "" (Some (trim s))) ≠ "".
Proof.
  intros H. split; [by intros ->|].
  change (trim (trim s) ≠ ""). by rewrite trim_idemp.
Qed.

Lemma post_task_rejects env body w :
  (∀ s, body_title body = Js_string s → trim s = "") →
  post_task env body w = (Create_error 400 "Title is required", w).
Proof.
  intros Hblank. unfold post_task. destruct (body_title body) as [| | | |s]; try done.
  rewrite decide_True; [done|]. right. by apply Hblank.
Qed.

Lemma post_task_run env body s w :
  body_title body = Js_string s →
  trim s ≠ "" →
  post_task env body w =
  let taskData :=
    mkPartial None (Some (trim s))
              (match body_description body with
               | Some (Some d) => Some (Some d)
               | _ => None
               end)
              (Some (truthy (body_completed body))) None None None None None None in
  let out := createTask env taskData w in
  (match out.1 with
   | Returns task => Create_ok 201 task
   | Throws e => Create_error 500 (if decide (err_message e = "")
                                   then "Failed to create task" else err_message e)
   end, out.2).
Proof.
  intros Hs Hok. unfold post_task. rewrite Hs.
  destruct (trim_nonblank s Hok) as [Hne _].
  rewrite decide_False by (by intros [?|?]).
  rewrite bind_run. cbn zeta. by destruct (createTask env _ w).1.
Qed.

(** X20. The POST handler answers 400 ['Title is required'] and writes
    nothing when the title is missing, not a string or blank after
    trimming.  Otherwise it answers 201 with a task: the guard makes the
    service's own rejection unreachable, so it never answers 500.  The
    record it appends carries the trimmed title and the truthiness of
    [completed], with one [create] entry queued for it. *)
Theorem post_task_creates_or_rejects env body w :
  ((∀ s, body_title body = Js_string s → trim s = "") →
     post_task env body w = (Create_error 400 "Title is required", w)) ∧
  (∀ s, body_title body = Js_string s → trim s ≠ "" →
     ∃ t row e,
       (post_task env body w).1 = Create_ok 201 (Some t) ∧
       tasks (db (post_task env body w).2) = tasks (db w) ++ [row] ∧
       sync_queue (db (post_task env body w).2) = sync_queue (db w) ++ [e] ∧
       row_title row = trim s ∧
       row_completed row = flag (truthy (body_completed body)) ∧
       row_is_deleted row = 0 ∧ row_sync_status row = St_pending ∧
       q_task_id e = row_id row ∧ q_operation e = Op_create ∧
       q_data e = snapshot_of row ∧
       (select_task (uuid env (n_uuid w)) (db w) = None → t = toTask row)).
Proof.
  split; [apply post_task_rejects|].
  intros s Hs Hok. rewrite (post_task_run env body s w Hs Hok). cbn zeta.
  destruct (trim_nonblank s Hok) as [_ Htitle].
  set (taskData := mkPartial _ _ _ _ _ _ _ _ _ _) in *.
  rewrite (createTask_run env taskData w Htitle). cbn zeta. cbn [fst snd db tasks sync_queue].
  set (row := mkTaskRow _ _ _ _ _ _ _ _ _ _). set (e := mkItem _ _ _ _ _ _ _).
  set (d' := mkDb _ _).
  destruct (select_task_is_Some (uuid env (n_uuid w)) d' row) as [r0 Hr0]; [|done|].
  { apply elem_of_app. right. by apply list_elem_of_singleton. }
  exists (toTask r0), row, e. rewrite Hr0. split_and!; try done.
  - change (trim (trim s) = trim s). apply trim_idemp.
  - intros Hfresh.
    assert (Hsel : select_task (uuid env (n_uuid w)) d' = Some row).
    { exact (select_task_fresh_insert _ row (db w) Hfresh eq_refl). }
    rewrite Hsel in Hr0. by injection Hr0 as <-.
Qed.

Lemma put_task_run env i body title w :
  title_guard (body_title body) = inr title →
  put_task env i body w =
  let updates :=
    mkPartial None title (body_description body)
              (match body_completed body with
               | Js_undefined => None
               | v => Some (truthy v)
               end) None None None None None None in
  let out := updateTask env i updates w in
  (match out.1 with
   | None => Res_error 404 "Task not found"
   | Some task => Res_task 200 task
   end, out.2).
Proof.
  intros Hg. unfold put_task. rewrite Hg, bind_run. cbn zeta.
  by destruct (updateTask env i _ w).1.
Qed.

Lemma title_guard_ok v title :
  title_guard v = inr title →
  (v = Js_undefined ∧ title = None) ∨
  (∃ s, v = Js_string s ∧ trim s ≠ "" ∧ title = Some (trim s)).
Proof.
  unfold title_guard. destruct v as [| | | |s]; try done.
  - intros [= <-]. by left.
  - destruct (decide (trim s = "")); [done|]. intros [= <-]. right. by exists s.
Qed.

Lemma title_guard_rejects v :
  v ≠ Js_undefined → (∀ s, v = Js_string s → trim s = "") →
  title_guard v = inl (Res_error 400 "If provided, title must be a non-empty string").
Proof.
  intros Hv Hblank. unfold title_guard. destruct v as [| | | |s]; try done.
  by rewrite decide_True by (by apply Hblank).
Qed.

(** X21. The PUT handler answers 400 and does nothing, not even the
    lookup, when a title is given that is not a string or is blank after
    trimming.  Past the guard it answers 404 ['Task not found'] with both
    tables unchanged when the id is missing or soft-deleted, and otherwise
    200 with the record as stored, whose title is the trimmed title of the
    body, or the stored one when the body has none. *)
Theorem put_task_answers env i body w :
  (body_title body ≠ Js_undefined →
   (∀ s, body_title body = Js_string s → trim s = "") →
   put_task env i body w =
     (Res_error 400 "If provided, title must be a non-empty string", w)) ∧
  (∀ title, title_guard (body_title body) = inr title →
     (select_task i (db w) = None ∨
      (∃ r, select_task i (db w) = Some r ∧ row_is_deleted r ≠ 0) →
      (put_task env i body w).1 = Res_error 404 "Task not found" ∧
      db (put_task env i body w).2 = db w) ∧
     (∀ r, select_task i (db w) = Some r → row_is_deleted r = 0 →
        ∃ r', (put_task env i body w).1 = Res_task 200 (toTask r') ∧
              select_task i (db (put_task env i body w).2) = Some r' ∧
              row_title r' =
                match body_title body with
                | Js_string s => trim s
                | _ => row_title r
                end)).
Proof.
  split.
  - intros Hv Hblank. unfold put_task. by rewrite title_guard_rejects.
  - intros title Hg. rewrite (put_task_run env i body title w Hg). cbn zeta.
    set (updates := mkPartial _ _ _ _ _ _ _ _ _ _). cbn [fst snd]. split.
    + intros [Hnone|(r & Hsel & Hdel)].
      * destruct (mutation_of_missing_id_run env i updates w Hnone) as [-> _]. done.
      * destruct (updateTask_gone env i updates w r Hsel Hdel) as [-> ->]. done.
    + intros r Hsel Hlive.
      destruct (updateTask_run env i updates w r Hsel Hlive) as (Hres & Hdb & Hsel').
      rewrite Hres, Hdb. eexists. split_and!; [done|exact Hsel'|].
      destruct (title_guard_ok _ _ Hg) as [[Hv Ht]|(s & Hv & _ & Ht)];
        subst updates; rewrite Hv, Ht; [done|].
      change (trim (trim s) = trim s). apply trim_idemp.
Qed.

Lemma get_task_run i w :
  (get_task i w).1 =
    match (getTask i w).1 with
    | None => Res_error 404 "Task not found"
    | Some t => Res_task 200 t
    end ∧
  db (get_task i w).2 = db w.
Proof.
  unfold get_task. rewrite bind_run. destruct (getTask_run i w) as [_ Hdb].
  by destruct (getTask i w).1.
Qed.

Lemma delete_task_run env i w :
  (delete_task env i w).1 =
    (if (deleteTask env i w).1 then Delete_ok
     else Delete_error 404 "Task not found or already deleted") ∧
  (delete_task env i w).2 = (deleteTask env i w).2.
Proof. unfold delete_task. rewrite bind_run. by destruct (deleteTask env i w).1. Qed.

Lemma title_guard_inl v rej :
  title_guard v = inl rej →
  rej = Res_error 400 "If provided, title must be a non-empty string".
Proof.
  unfold title_guard. destruct v as [| | | |s]; try (by intros [= <-]); try done.
  destruct (decide _); [by intros [= <-]|done].
Qed.

(** X22. Soft delete as the HTTP handlers show it: DELETE of a record that
    exists and is not deleted answers success; afterwards GET of the id
    answers 404 ['Task not found'], the record is no longer listed by GET
    of the collection although its row is still stored, a second DELETE
    answers 404 ['Task not found or already deleted'] and a PUT answers
    404 or 400, none of them changing a table. *)
Theorem delete_task_then_not_found env i w r body :
  select_task i (db w) = Some r →
  row_is_deleted r = 0 →
  let w' := (delete_task env i w).2 in
  (delete_task env i w).1 = Delete_ok ∧
  (∃ r', select_task i (db w') = Some r' ∧ row_is_deleted r' = 1) ∧
  (get_task i w').1 = Res_error 404 "Task not found" ∧
  (∀ t, t ∈ (get_tasks w').1 → is_deleted t = false) ∧
  (delete_task env i w').1 = Delete_error 404 "Task not found or already deleted" ∧
  db (delete_task env i w').2 = db w' ∧
  ((put_task env i body w').1 = Res_error 404 "Task not found" ∨
   (put_task env i body w').1 =
     Res_error 400 "If provided, title must be a non-empty string") ∧
  db (put_task env i body w').2 = db w'.
Proof.
  intros Hsel Hlive w'.
  destruct (delete_task_run env i w) as [Hres Hw]. fold w' in Hw.
  destruct (deleteTask_run env i w r Hsel Hlive) as (Hok & Hdb & Hsel').
  rewrite <- Hdb, <- Hw in Hsel'. rewrite Hok in Hres.
  set (r' := set_deleted (clock env (n_clock w)) St_pending r) in *.
  assert (Hdel : row_is_deleted r' ≠ 0) by done.
  destruct (delete_task_run env i w') as [Hres2 Hw2].
  destruct (deleteTask_gone env i w' r' Hsel' Hdel) as [Hd1 Hd2].
  split_and!; try done.
  - by exists r'.
  - rewrite (proj1 (get_task_run i w')), (proj1 (getTask_run i w')), Hsel'. done.
  - intros t Ht. unfold get_tasks in Ht. rewrite (proj1 (getAllTasks_run w')) in Ht.
    apply list_elem_of_fmap in Ht as (r0 & -> & Hr0).
    apply elem_of_select_live_tasks in Hr0 as [_ Hz].
    rewrite toTask_is_deleted. apply bool_decide_eq_false. by intros [].
  - by rewrite Hres2, Hd1.
  - by rewrite Hw2.
  - destruct (title_guard (body_title body)) as [rej|title] eqn:Hg.
    + right. unfold put_task. rewrite Hg. by rewrite (title_guard_inl _ _ Hg).
    + left. rewrite (put_task_run env i body title w' Hg). cbn zeta. cbn [fst].
      by rewrite (proj1 (updateTask_gone env i _ w' r' Hsel' Hdel)).
  - destruct (title_guard (body_title body)) as [rej|title] eqn:Hg.
    + unfold put_task. by rewrite Hg.
    + rewrite (put_task_run env i body title w' Hg). cbn zeta. cbn [snd].
      by rewrite (proj2 (updateTask_gone env i _ w' r' Hsel' Hdel)).
Qed.

(** ** Titles behind the routers *)

Lemma titles_valid_update i f d :
  (∀ r, r ∈ tasks d → row_title (f r) ≠ "" ∧ trim (row_title (f r)) = row_title (f r)) →
  titles_valid d → titles_valid (update_tasks i f d).
Proof.
  intros Hf Hd r' Hr'. apply elem_of_update_tasks in Hr' as (r & Hr & ->).
  destruct (decide (row_id r = i)); [by apply Hf|by apply Hd].
Qed.

Lemma titles_valid_sync env cfg w :
  titles_valid (db w) → titles_valid (db (sync env cfg w).2).
Proof.
  apply (sync_keeps env cfg titles_valid).
  - intros i sd w' Hw' r' Hr'.
    destruct (updateSyncStatus_tables env i sd w') as (srv & now & Ht & _).
    rewrite Ht in Hr'. apply list_elem_of_fmap in Hr' as (r & -> & Hr).
    destruct (decide (row_id r = i)); exact (Hw' r Hr).
  - intros item err w' Hw' r' Hr'.
    destruct (handleSyncError_tables cfg item err w') as [_ Ht].
    rewrite Ht in Hr'. destruct (decide _); [|by apply Hw'].
    apply list_elem_of_fmap in Hr' as (r & -> & Hr).
    destruct (decide (row_id r = q_task_id item)); exact (Hw' r Hr).
Qed.

Lemma titles_valid_post env body :
  inv (on_db titles_valid) (post_task env body).
Proof.
  intros w Hw. unfold on_db in *.
  destruct (body_title body) as [| | | |s] eqn:Hs;
    try (rewrite post_task_rejects; [done|by intros s; rewrite Hs]).
  destruct (decide (trim s = "")) as [Hblank|Hok].
  { rewrite post_task_rejects; [done|]. intros s'. rewrite Hs. by intros [= <-]. }
  rewrite (post_task_run env body s w Hs Hok). cbn zeta. cbn [snd].
  destruct (trim_nonblank s Hok) as [_ Htitle].
  set (taskData := mkPartial _ _ _ _ _ _ _ _ _ _).
  rewrite (createTask_run env taskData w Htitle). cbn zeta. cbn [snd db].
  intros r Hr. cbn [tasks] in Hr. apply elem_of_app in Hr as [Hr|Hr]; [by apply Hw|].
  apply list_elem_of_singleton in Hr as ->. cbn [row_title].
  change (trim (trim s) ≠ "" ∧ trim (trim (trim s)) = trim (trim s)).
  by rewrite !trim_idemp.
Qed.

Lemma titles_valid_put env i body :
  inv (on_db titles_valid) (put_task env i body).
Proof.
  intros w Hw. unfold on_db in *.
  destruct (title_guard (body_title body)) as [rej|title] eqn:Hg.
  { unfold put_task. by rewrite Hg. }
  rewrite (put_task_run env i body title w Hg). cbn zeta. cbn [snd].
  set (updates := mkPartial _ _ _ _ _ _ _ _ _ _).
  destruct (select_task i (db w)) as [r|] eqn:Hsel; cycle 1.
  { by destruct (mutation_of_missing_id_run env i updates w Hsel) as [-> _]. }
  destruct (decide (row_is_deleted r = 0)) as [Hlive|Hdel]; cycle 1.
  { by rewrite (proj2 (updateTask_gone env i updates w r Hsel Hdel)). }
  rewrite (updateTask_db env i updates w r Hsel Hlive). cbn zeta.
  intros r' Hr'.
  change (tasks (exec (Insert_queue ?e) ?d)) with (tasks d) in Hr'.
  revert r' Hr'. apply titles_valid_update; [|done].
  intros r0 _. cbn [set_fields row_title].
  destruct (title_guard_ok _ _ Hg) as [[_ Ht]|(s & _ & Hok & Ht)];
    subst updates; cbn [p_title]; rewrite Ht.
  - apply Hw. by apply (select_task_elem i).
  - change (trim (trim s) ≠ "" ∧ trim (trim (trim s)) = trim (trim s)).
    by rewrite !trim_idemp.
Qed.

Lemma titles_valid_delete env i :
  inv (on_db titles_valid) (delete_task env i).
Proof.
  intros w Hw. unfold on_db in *. rewrite (proj2 (delete_task_run env i w)).
  destruct (select_task i (db w)) as [r|] eqn:Hsel; cycle 1.
  { by destruct (mutation_of_missing_id_run env i no_updates w Hsel) as [_ ->]. }
  destruct (decide (row_is_deleted r = 0)) as [Hlive|Hdel]; cycle 1.
  { by rewrite (proj2 (deleteTask_gone env i w r Hsel Hdel)). }
  rewrite (deleteTask_db env i w r Hsel Hlive). cbn zeta. intros r' Hr'.
  change (tasks (exec (Insert_queue ?e) ?d)) with (tasks d) in Hr'.
  revert r' Hr'. apply titles_valid_update; [|done].
  intros r0 Hr0. exact (Hw r0 Hr0).
Qed.

Lemma titles_valid_post_sync env cfg :
  inv (on_db titles_valid) (post_sync env cfg).
Proof.
  intros w Hw. unfold on_db in *. unfold post_sync.
  rewrite bind_run. cbn [fst snd checkConnectivity].
  destruct (health env (n_health w)); cbn [negb]; [|done].
  rewrite bind_run.
  set (w1 := mkWorld _ _ _ _ _ _).
  assert (H1 : titles_valid (db (sync env cfg w1).2)) by (by apply titles_valid_sync).
  by destruct (sync env cfg w1).1.
Qed.

(** X23. Behind the routers every stored title is trimmed and not blank:
    if that holds of the table, it holds after any sequence of requests
    to the handlers (list, get, post, put, delete, sync), whatever their
    bodies and whatever the remote authority answers. *)
Theorem routers_keep_titles_valid env cfg rqs w :
  titles_valid (db w) → titles_valid (db (serve env cfg rqs w).2).
Proof.
  apply (inv_for_of (on_db titles_valid)). intros _ rq _.
  destruct rq; cbn [handle]; (apply inv_bind; [|intros _; apply inv_ret]).
  - by intros w0.
  - intros w0 Hw0. unfold on_db. by rewrite (proj2 (get_task_run _ w0)).
  - apply titles_valid_post.
  - apply titles_valid_put.
  - apply titles_valid_delete.
  - apply titles_valid_post_sync.
Qed.

(** ** The trigger of the sync router *)

(** X24. The sync trigger probes the remote authority itself before it
    calls [sync], which probes again.  It answers 503 after one probe,
    with nothing else done, when the first probe fails; when the first
    succeeds and the second fails it answers with the result of an offline
    run ([success = false], one ['Offline'] error), again with both tables
    unchanged and nothing posted. *)
Theorem post_sync_probes_twice env cfg w :
  (health env (n_health w) = false →
     post_sync env cfg w =
       (Sync_error 503 "Cannot reach server - offline",
        mkWorld (db w) (n_clock w) (n_uuid w) (S (n_health w)) (n_post w)
                (trace w ++ [Ev_health]))) ∧
  (health env (n_health w) = true →
   health env (S (n_health w)) = false →
     post_sync env cfg w =
       (Sync_done (mkResult false 0 0
                     [mkSyncError "" "sync" "Offline" (clock env (n_clock w))]),
        mkWorld (db w) (S (n_clock w)) (n_uuid w) (S (S (n_health w))) (n_post w)
                ((trace w ++ [Ev_health]) ++ [Ev_health]))).
Proof.
  split.
  - intros Hoff. unfold post_sync. rewrite bind_run. cbn [fst snd checkConnectivity].
    by rewrite Hoff.
  - intros Hon Hoff. unfold post_sync. rewrite bind_run. cbn [fst snd checkConnectivity].
    rewrite Hon. cbn [negb]. rewrite bind_run.
    unfold sync. rewrite bind_run. cbn [fst snd checkConnectivity n_health].
    rewrite Hoff. done.
Qed.

(** ** A batch size of zero *)

Lemma batch_loop_zero env cfg fuel items i result w :
  batchSize cfg = 0%nat →
  (i < length items)%nat →
  (batch_loop env cfg fuel items i result w).1 = None ∧
  posted (trace (batch_loop env cfg fuel items i result w).2) =
    posted (trace w) ++ replicate fuel [].
Proof.
  intros Hbs Hi. revert result w. induction fuel as [|fuel IH]; intros result w;
    cbn [batch_loop]; rewrite decide_True by done.
  - cbn. by rewrite app_nil_r.
  - rewrite bind_run, Hbs, Nat.add_0_r, take_0.
    destruct (IH (run_batch env cfg [] result w).1 (run_batch env cfg [] result w).2)
      as [-> ->].
    split; [done|]. rewrite run_batch_posted. cbn [replicate]. by rewrite <- app_assoc.
Qed.

(** X25. With [batchSize = 0] and a queue that is not empty, a run with
    connectivity never reaches the end of the batch loop: the index does
    not advance, so however many turns the loop is given it has not
    returned, each turn posting an empty batch; the run as modelled has no
    result. *)
Theorem sync_batch_size_zero_never_ends env cfg w :
  health env (n_health w) = true →
  batchSize cfg = 0%nat →
  sync_queue (db w) ≠ [] →
  (sync env cfg w).1 = None ∧
  ∀ fuel result w',
    (batch_loop env cfg fuel (select_queue (db w)) 0 result w').1 = None ∧
    posted (trace (batch_loop env cfg fuel (select_queue (db w)) 0 result w').2) =
      posted (trace w') ++ replicate fuel [].
Proof.
  intros Hon Hbs Hne.
  assert (Hlen : (0 < length (select_queue (db w)))%nat).
  { rewrite select_queue_perm. destruct (sync_queue (db w)); [done|cbn; lia]. }
  split.
  - rewrite (sync_online env cfg w Hon). cbn zeta.
    destruct (select_queue (db w)) as [|x items] eqn:Hitems; [cbn in Hlen; lia|].
    by apply batch_loop_zero.
  - intros fuel result w'. by apply batch_loop_zero.
Qed.

(** ** [addToSyncQueue] *)

(** X26. [addToSyncQueue] appends one entry with a fresh id, the time of
    the call, [retry_count = 0] and no error message, and writes no
    record: unlike the mutators of the task service it does not set the
    record's [sync_status] to ['pending'], so called for a record that is
    ['synced'] it leaves a synced record with a queue entry. *)
Theorem addToSyncQueue_only_enqueues env taskId operation data w :
  let w' := (addToSyncQueue env taskId operation data w).2 in
  tasks (db w') = tasks (db w) ∧
  sync_queue (db w') =
    sync_queue (db w) ++
    [mkItem (uuid env (n_uuid w)) taskId operation data (clock env (n_clock w)) 0 None] ∧
  (∀ r, r ∈ tasks (db w) → row_id r = taskId → row_sync_status r = St_synced →
        ¬ pending_synced_invariant (db w')).
Proof.
  intros w'. subst w'. unfold addToSyncQueue. rewrite !bind_run.
  cbn [fst snd uuidv4 new_Date db_run db exec tasks sync_queue n_uuid n_clock].
  split_and!; [done|done|].
  intros r Hr <- Hst Hinv. destruct (Hinv r Hr) as [_ Hs].
  apply Hs; [done|].
  exists (mkItem (uuid env (n_uuid w)) (row_id r) operation data
                 (clock env (n_clock w)) 0 None).
  split; [|done]. cbn. apply elem_of_app. right. by apply list_elem_of_singleton.
Qed.
(** ** An update through the PUT handler never blanks a title *)

(** C6. Updating an existing record that is not deleted with a body whose
    title is present: when the title is not a string or is empty after
    trimming, the update fails with the answer 400 before anything is
    looked up or written, so neither the record nor the queue changes;
    when the title is not empty after trimming, the update goes through
    and the stored title is the trimmed one.  Either way no empty title is
    stored: a record whose title is empty after the call was not
    written. *)
Theorem update_rejects_blank_title env i body w r :
  select_task i (db w) = Some r →
  row_is_deleted r = 0 →
  body_title body ≠ Js_undefined →
  let out := put_task env i body w in
  ((∀ s, body_title body = Js_string s → trim s = "") →
     out.1 = Res_error 400 "If provided, title must be a non-empty string" ∧
     out.2 = w) ∧
  (∀ s, body_title body = Js_string s → trim s ≠ "" →
     ∃ r', out.1 = Res_task 200 (toTask r') ∧
           select_task i (db out.2) = Some r' ∧
           row_title r' = trim s ∧
           length (sync_queue (db out.2)) = S (length (sync_queue (db w)))) ∧
  (∀ r', select_task i (db out.2) = Some r' → row_title r' = "" → out.2 = w).
Proof.
  intros Hsel Hlive Hv out.
  assert (Hpast : ∀ title, title_guard (body_title body) = inr title →
    ∃ s r', body_title body = Js_string s ∧ trim s ≠ "" ∧
            out.1 = Res_task 200 (toTask r') ∧
            select_task i (db out.2) = Some r' ∧
            row_title r' = trim s ∧
            length (sync_queue (db out.2)) = S (length (sync_queue (db w)))).
  { intros title Hg.
    destruct (title_guard_ok _ _ Hg) as [[Hu _]|(s & Hs & Hok & Ht)]; [done|].
    subst out. rewrite (put_task_run env i body title w Hg). cbn zeta.
    set (updates := mkPartial _ _ _ _ _ _ _ _ _ _). cbn [fst snd].
    destruct (updateTask_run env i updates w r Hsel Hlive) as (Hres & Hdb & Hsel').
    rewrite Hres, Hdb, Hsel'. eexists s, _. split_and!; try done.
    - subst updates. rewrite Ht. cbn. apply trim_idemp.
    - cbn. rewrite length_app. cbn. lia. }
  split_and!.
  - intros Hblank. subst out. unfold put_task.
    by rewrite title_guard_rejects.
  - intros s Hs Hok.
    destruct (title_guard (body_title body)) as [rej|title] eqn:Hg.
    { unfold title_guard in Hg. rewrite Hs in Hg. by rewrite decide_False in Hg. }
    destruct (Hpast title eq_refl) as (s' & r' & Hs' & _ & Hres & Hr' & Ht & Hlen).
    rewrite Hs in Hs'. injection Hs' as <-. by exists r'.
  - intros r' Hr' Hblank.
    destruct (title_guard (body_title body)) as [rej|title] eqn:Hg.
    { subst out. unfold put_task. by rewrite Hg. }
    destruct (Hpast title eq_refl) as (s & r'' & _ & Hok & _ & Hr'' & Ht & _).
    rewrite Hr' in Hr''. injection Hr'' as <-. congruence.
Qed.

(** ** A soft-deleted record is answered like a missing one *)

(** C7, as stated, fails: a call on a soft-deleted record does not fail
    in a way of its own.  After a task was created and deleted,
    [updateTask] and [deleteTask] answer for its id exactly what they
    answer for an id that was never stored, [null] and [false], and the
    PUT and DELETE handlers answer both with 404 and the same text. *)
Lemma soft_deleted_answers_as_missing :
  let w := deleted_milk in
  let stored := sample_uuid 0 in
  let missing := sample_uuid 7 in
  let tea := body_of (Js_string "Buy tea") in
  gone stored (db w) ∧
  select_task missing (db w) = None ∧
  (updateTask env_success stored (only_title "Buy tea") w).1 = None ∧
  (updateTask env_success missing (only_title "Buy tea") w).1 = None ∧
  (deleteTask env_success stored w).1 = false ∧
  (deleteTask env_success missing w).1 = false ∧
  (put_task env_success stored tea w).1 = Res_error 404 "Task not found" ∧
  (put_task env_success missing tea w).1 = Res_error 404 "Task not found" ∧
  (delete_task env_success stored w).1 =
    Delete_error 404 "Task not found or already deleted" ∧
  (delete_task env_success missing w).1 =
    Delete_error 404 "Task not found or already deleted".
Proof.
  split_and!; try (vm_compute; reflexivity).
  eexists. split; [vm_compute; reflexivity|]. vm_compute. discriminate.
Qed.

(** ** The order in which the queue is read *)

(** X27. [fetchSyncQueueItems] changes no table and returns every entry
    of the queue once, in ascending order of the stored text of
    [created_at], the entries of one instant in the order in which they
    were enqueued; when all instants lie in the four-digit years that is
    the order of the instants, oldest first. *)
Theorem fetchSyncQueueItems_order w :
  let out := fetchSyncQueueItems w in
  db out.2 = db w ∧
  out.1 ≡ₚ sync_queue (db w) ∧
  StronglySorted created_text_le out.1 ∧
  (∀ t, filter (λ q, q_created_at q = t) out.1 =
        filter (λ q, q_created_at q = t) (sync_queue (db w))) ∧
  (Forall (λ q, four_digit_year (q_created_at q)) (sync_queue (db w)) →
   StronglySorted created_le out.1).
Proof.
  assert (Hrun : fetchSyncQueueItems w =
    (select_queue (db w),
     mkWorld (db w) (n_clock w) (n_uuid w) (n_health w) (n_post w)
             (trace w ++ [Ev_db Select_queue]))) by done.
  cbn zeta. rewrite Hrun. cbn [fst snd db]. split_and!.
  - done.
  - apply select_queue_perm.
  - apply select_queue_text_sorted.
  - apply select_queue_ties.
  - apply select_queue_sorted.
Qed.
(** ** A success item in a whole run *)

Lemma for_of_app {A S} (body : S → A → M S) l1 l2 s w :
  for_of body (l1 ++ l2) s w =
  for_of body l2 (for_of body l1 s w).1 (for_of body l1 s w).2.
Proof.
  revert s w. induction l1 as [|x l1 IH]; intros s w; [done|].
  cbn [for_of app]. rewrite !bind_run. apply IH.
Qed.

Lemma set_sync_content s v t r0 r :
  content r0 = content r → set_sync s v t r0 = set_sync s v t r.
Proof. unfold content, set_sync. intros H. injection H as -> -> -> -> -> -> ->. done. Qed.

Lemma updateSyncStatus_n_clock env i sd w :
  n_clock (updateSyncStatus env i St_synced sd w).2 = S (n_clock w).
Proof. done. Qed.

Lemma handleSyncError_n_clock cfg item err w :
  n_clock (handleSyncError cfg item err w).2 = n_clock w.
Proof. unfold handleSyncError. rewrite bind_run. by destruct (decide _). Qed.

Section Kept.
Context (env : Env) (cfg : Config) (w0 : World).

Lemma kept_refl n_h n_p tr :
  kept w0 (mkWorld (db w0) (n_clock w0) (n_uuid w0) n_h n_p tr).
Proof.
  split; [|done]. exists (λ r, r). by rewrite list_fmap_id.
Qed.

Lemma kept_new_Date : inv (kept w0) (new_Date env).
Proof. intros w [Hg Hn]. split; [done|cbn; lia]. Qed.

Lemma kept_axios_post items : inv (kept w0) (axios_post env items).
Proof. by intros w [Hg Hn]. Qed.

Lemma kept_updateSyncStatus i sd : inv (kept w0) (updateSyncStatus env i St_synced sd).
Proof.
  intros w [(g & Hg & Hc) Hn]. split; [|rewrite updateSyncStatus_n_clock; lia].
  destruct (updateSyncStatus_tables env i sd w) as (srv & now & -> & _).
  eexists. rewrite Hg, <- list_fmap_compose. split; [done|].
  intros r. cbn. rewrite <- (Hc r). by destruct (decide (row_id (g r) = i)).
Qed.

Lemma kept_handleSyncError item err : inv (kept w0) (handleSyncError cfg item err).
Proof.
  intros w [(g & Hg & Hc) Hn]. split; [|rewrite handleSyncError_n_clock; lia].
  destruct (handleSyncError_tables cfg item err w) as [_ ->].
  destruct (decide _); [|by exists g].
  eexists. rewrite Hg, <- list_fmap_compose. split; [done|].
  intros r. cbn. rewrite <- (Hc r). by destruct (decide (row_id (g r) = q_task_id item)).
Qed.

Lemma kept_process_item batch result pi :
  inv (kept w0) (process_item env cfg batch result pi).
Proof.
  apply inv_process_item;
    [apply kept_new_Date|apply kept_updateSyncStatus|apply kept_handleSyncError].
Qed.

Lemma kept_run_batch batch result : inv (kept w0) (run_batch env cfg batch result).
Proof.
  apply inv_run_batch;
    [apply kept_new_Date|apply kept_axios_post|apply kept_updateSyncStatus
    |apply kept_handleSyncError].
Qed.
End Kept.

Section SyncedAt.
Context (env : Env) (cfg : Config) (w0 : World) (c : string) (srv : option string)
        (n : nat).

Lemma synced_at_same (w w' : World) :
  db w' = db w → (n_clock w ≤ n_clock w')%nat →
  synced_at env c srv n w0 w → synced_at env c srv n w0 w'.
Proof.
  intros Hdb Hn (Hg & Hp & Hlo). unfold synced_at, pruned.
  rewrite Hdb. split_and!; [done|done|lia|lia].
Qed.

Lemma synced_at_new_Date : inv (synced_at env c srv n w0) (new_Date env).
Proof. intros w. apply synced_at_same; [done|cbn; lia]. Qed.

Lemma synced_at_updateSyncStatus i sd :
  i ≠ c → inv (synced_at env c srv n w0) (updateSyncStatus env i St_synced sd).
Proof.
  intros Hi w ((g & Hg & Hc) & Hp & Hlo). split_and!.
  - destruct (updateSyncStatus_tables env i sd w) as (srv' & now & -> & _).
    eexists. rewrite Hg, <- list_fmap_compose. split; [done|].
    intros r. destruct (Hc r) as [Hcont Hset]. cbn. split.
    + rewrite <- Hcont. by destruct (decide (row_id (g r) = i)).
    + intros Hr. rewrite decide_False; [by apply Hset|].
      rewrite (Hset Hr). cbn. by rewrite Hr.
  - by apply pruned_updateSyncStatus.
  - lia.
  - rewrite updateSyncStatus_n_clock. lia.
Qed.

Lemma synced_at_handleSyncError item err :
  q_task_id item ≠ c →
  inv (synced_at env c srv n w0) (handleSyncError cfg item err).
Proof.
  intros Hi w ((g & Hg & Hc) & Hp & Hlo). split_and!.
  - destruct (handleSyncError_tables cfg item err w) as [_ ->].
    destruct (decide _); [|by exists g].
    eexists. rewrite Hg, <- list_fmap_compose. split; [done|].
    intros r. destruct (Hc r) as [Hcont Hset]. cbn. split.
    + rewrite <- Hcont. by destruct (decide (row_id (g r) = q_task_id item)).
    + intros Hr. rewrite decide_False; [by apply Hset|].
      rewrite (Hset Hr). cbn. by rewrite Hr.
  - by apply pruned_handleSyncError.
  - lia.
  - rewrite handleSyncError_n_clock. lia.
Qed.

(** An item for another record, and a failed entry of another record,
    leave the records of [c] as they are. *)
Lemma synced_at_process_item batch result pi :
  client_id pi ≠ c →
  inv (synced_at env c srv n w0) (process_item env cfg batch result pi).
Proof.
  intros Hpi. unfold process_item. destruct (status pi).
  - apply inv_bind; [by apply synced_at_updateSyncStatus|intros _; apply inv_ret].
  - apply inv_bind; [by apply synced_at_updateSyncStatus|intros _; apply inv_ret].
  - apply inv_bind; [apply synced_at_new_Date|intros ts].
    destruct (find _ batch) as [queueItem|] eqn:Hfind; [|apply inv_ret].
    apply inv_bind; [|intros _; apply inv_ret].
    apply synced_at_handleSyncError.
    unfold find in Hfind. apply head_Some_elem_of, list_elem_of_filter in Hfind as [Hid _].
    by rewrite Hid.
Qed.

Lemma synced_at_fail_item err result item :
  q_task_id item ≠ c →
  inv (synced_at env c srv n w0) (fail_item env cfg err result item).
Proof.
  intros Hitem. unfold fail_item.
  apply inv_bind; [by apply synced_at_handleSyncError|intros _].
  apply inv_bind; [apply synced_at_new_Date|intros ts; apply inv_ret].
Qed.

(** A turn of the loop that has nothing to do with [c]. *)
Lemma synced_at_run_batch batch result w :
  ¬ touches c batch (post env (n_post w) batch) →
  synced_at env c srv n w0 w →
  synced_at env c srv n w0 (run_batch env cfg batch result w).2.
Proof.
  intros Hfree Hw. unfold run_batch. rewrite bind_run.
  rewrite (proj1 (processBatch_run env batch w)).
  assert (Hw1 : synced_at env c srv n w0 (processBatch env batch w).2).
  { revert Hw. apply synced_at_same; [done|].
    change (n_clock w ≤ S (n_clock w))%nat. lia. }
  destruct (post env (n_post w) batch) as [err|[[[pis|]]|]]; cbn in Hfree; try done.
  - apply (inv_for_of (synced_at env c srv n w0)); [|done].
    intros s x Hx. apply synced_at_fail_item. intros Hc. apply Hfree. by exists x.
  - apply (inv_for_of (synced_at env c srv n w0)); [|done].
    intros s x Hx. apply synced_at_process_item. intros Hc. apply Hfree. by exists x.
Qed.
End SyncedAt.

(** Handling a [success] item marks the records of its [client_id]. *)
Lemma process_item_syncs env cfg w0 batch result pi w :
  status pi = Rs_success →
  kept w0 w →
  synced_at env (client_id pi) (response_server_id pi) (n_clock w) w0
            (process_item env cfg batch result pi w).2.
Proof.
  intros Hst [(g & Hg & Hc) Hn].
  rewrite process_item_accepted by auto. cbn [snd]. split_and!.
  - rewrite updateSyncStatus_synced_db. fold (response_server_id pi).
    cbn [exec update_tasks tasks].
    eexists. rewrite Hg, <- list_fmap_compose. split; [done|].
    intros r. cbn. split.
    + rewrite <- (Hc r). by destruct (decide (row_id (g r) = client_id pi)).
    + intros Hr. rewrite decide_True.
      * by apply set_sync_content.
      * specialize (Hc r). unfold content in Hc. injection Hc as -> _. done.
  - intros q Hq.
    destruct (updateSyncStatus_tables env (client_id pi) (Some (server_data pi)) w)
      as (srv & now & _ & Hqueue).
    rewrite Hqueue in Hq. by apply list_elem_of_filter in Hq as [Hq _].
  - done.
  - rewrite updateSyncStatus_n_clock. lia.
Qed.

Lemma process_item_counts env cfg m batch result pi w :
  (m ≤ synced_items result)%nat →
  (m ≤ synced_items (process_item env cfg batch result pi w).1)%nat.
Proof. rewrite process_item_result. destruct (status pi); cbn; lia. Qed.

Lemma fail_item_counts env cfg m err result item w :
  (m ≤ synced_items result)%nat →
  (m ≤ synced_items (fail_item env cfg err result item w).1)%nat.
Proof. destruct (fail_item_result env cfg err result item w) as [ts ->]. done. Qed.

(** The turn in which the item arrives. *)
Lemma run_batch_syncs env cfg w0 batch result w before pi after :
  post env (n_post w) batch =
    Post_resolves (Some (mkResponse (Some (before ++ pi :: after)))) →
  status pi = Rs_success →
  (∀ p, p ∈ after → client_id p ≠ client_id pi) →
  kept w0 w →
  (1 ≤ synced_items (run_batch env cfg batch result w).1)%nat ∧
  ∃ n, synced_at env (client_id pi) (response_server_id pi) n w0
                 (run_batch env cfg batch result w).2.
Proof.
  intros Hpost Hst Hafter Hw. unfold run_batch. rewrite bind_run.
  rewrite (proj1 (processBatch_run env batch w)), Hpost. cbn [processed_items].
  assert (Hw1 : kept w0 (processBatch env batch w).2).
  { destruct Hw as [Hg Hn]. split; [done|].
    change (n_clock w0 ≤ S (n_clock w))%nat. lia. }
  set (w1 := (processBatch env batch w).2) in *.
  rewrite for_of_app. cbn [for_of]. rewrite bind_run.
  set (w2 := (for_of (process_item env cfg batch) before result w1).2).
  set (r2 := (for_of (process_item env cfg batch) before result w1).1).
  assert (Hw2 : kept w0 w2).
  { apply (inv_for_of (kept w0)); [|done]. intros s x _. apply kept_process_item. }
  pose proof (process_item_syncs env cfg w0 batch r2 pi w2 Hst Hw2) as Hw3.
  split.
  - apply (for_of_value (λ s, (1 ≤ synced_items s)%nat)).
    + intros s x w'. apply process_item_counts.
    + rewrite process_item_result, Hst. cbn. lia.
  - exists (n_clock w2).
    apply (inv_for_of (synced_at env (client_id pi) (response_server_id pi) (n_clock w2) w0));
      [|done].
    intros s x Hx. apply synced_at_process_item. by apply Hafter.
Qed.

(** C2. A run with connectivity in which the response to the [k]-th
    batch carries an item with status [success], after which the run has
    nothing more to do with that record: no later item of that response
    and no later response names it, and no later batch that holds one of
    its entries fails in transport.  The run ends and counts at least one
    synced item; every record with the item's [client_id] is left as it
    was but for [sync_status = 'synced'], the server id of the response
    (the one of [resolved_data] when it carries the key, else the item's
    own) and, as [last_synced_at], a reading of the local clock taken
    during the run; and no queue entry of that record id is left. *)
Theorem success_item_syncs_record env cfg w k before pi after :
  health env (n_health w) = true →
  (1 ≤ batchSize cfg)%nat →
  (k * batchSize cfg < length (sync_queue (db w)))%nat →
  let batch := λ j, take (batchSize cfg) (drop (j * batchSize cfg) (select_queue (db w))) in
  post env (n_post w + k) (batch k) =
    Post_resolves (Some (mkResponse (Some (before ++ pi :: after)))) →
  status pi = Rs_success →
  (∀ p, p ∈ after → client_id p ≠ client_id pi) →
  (∀ j, (k < j)%nat → (j * batchSize cfg < length (sync_queue (db w)))%nat →
        ¬ touches (client_id pi) (batch j) (post env (n_post w + j) (batch j))) →
  let out := sync env cfg w in
  let srv :=
    match resolved_data pi with
    | Some rd => match p_server_id rd with Some v => v | None => pi_server_id pi end
    | None => pi_server_id pi
    end in
  ∃ r n,
    out.1 = Some r ∧
    (1 ≤ synced_items r)%nat ∧
    (n_clock w ≤ n < n_clock out.2)%nat ∧
    (∀ row, row ∈ tasks (db w) → row_id row = client_id pi →
       set_sync St_synced srv (clock env n) row ∈ tasks (db out.2)) ∧
    (∀ row', row' ∈ tasks (db out.2) → row_id row' = client_id pi →
       row_sync_status row' = St_synced ∧
       row_server_id row' = srv ∧
       row_last_synced_at row' = Some (clock env n)) ∧
    (∀ q, q ∈ sync_queue (db out.2) → q_task_id q ≠ client_id pi).
Proof.
  intros Hon Hbs Hk batch Hpost Hst Hafter Hlater out srv.
  assert (Hsrv : srv = response_server_id pi).
  { subst srv. unfold response_server_id. by rewrite server_data_server_id. }
  set (c := client_id pi) in *.
  set (Q := λ (i : nat) (result : SyncResult) (w' : World),
    ∃ t, i = (t * batchSize cfg)%nat ∧ n_post w' = (n_post w + t)%nat ∧
         kept w w' ∧
         ((k < t)%nat → (1 ≤ synced_items result)%nat ∧
                        ∃ n, synced_at env c (response_server_id pi) n w w')).
  destruct (sync_rule env cfg Q w Hon Hbs) as (j & r & Hj & Hr & t & -> & _ & _ & Hend).
  - intros i result w' Hi (t & -> & Hn & Hkept & Hdone).
    exists (S t). split_and!.
    + cbn [Nat.mul]. lia.
    + rewrite run_batch_n_post, Hn. lia.
    + by apply kept_run_batch.
    + intros Hkt. fold (batch t).
      destruct (decide (k = t)) as [<-|Hne].
      * apply (run_batch_syncs env cfg w (batch k) result w' before pi after); try done.
        by rewrite Hn.
      * destruct Hdone as [Hcount (n & Hsynced)]; [lia|]. split.
        -- apply (run_batch_value env cfg (λ s, (1 ≤ synced_items s)%nat)); [| |done].
           ++ intros b s x w1. apply process_item_counts.
           ++ intros e s x w1. apply fail_item_counts.
        -- exists n. apply synced_at_run_batch; [|done].
           rewrite Hn. apply Hlater; [lia|]. by rewrite <- select_queue_perm.
  - exists 0%nat. split_and!; [done|cbn; lia|apply kept_refl|lia].
  - rewrite select_queue_perm in Hj.
    destruct Hend as [Hcount (n & (g & Hg & Hc) & Hp & Hlo)]; [nia|].
    exists r, n. rewrite Hsrv. split_and!; try done.
    + lia.
    + subst out. lia.
    + intros row Hrow Hid. fold out in Hg. rewrite Hg.
      apply list_elem_of_fmap. exists row. split; [|done].
      symmetry. by apply (Hc row).
    + intros row' Hrow' Hid. fold out in Hg. rewrite Hg in Hrow'.
      apply list_elem_of_fmap in Hrow' as (row & -> & Hrow).
      destruct (Hc row) as [Hcont Hset].
      assert (Hrid : row_id row = c).
      { unfold content in Hcont. injection Hcont as Hrid _. by rewrite <- Hrid. }
      by rewrite (Hset Hrid).
Qed.

(** C2, as stated, fails on two counts.  A run in which the response
    carries a [success] item for a record can leave that record in
    ['error']: here the same response goes on with an [error] item for
    the same record.  And [last_synced_at] is not taken from the response:
    the item carries one under [resolved_data], and what is stored is the
    reading of the local clock. *)
Lemma success_item_overridden :
  let w := twice_failed in
  let out := sync env_flaky default_config w in
  let out' := sync env_stamped default_config (milk_pending 0) in
  post env_flaky (n_post w) (select_queue (db w)) =
    Post_resolves (Some (mkResponse (Some
      [mkProcessed (sample_uuid 0) (Some "srv-1") Rs_success None None;
       mkProcessed (sample_uuid 0) None Rs_error None (Some "rejected")]))) ∧
  row_id <$> tasks (db out.2) = [sample_uuid 0] ∧
  row_sync_status <$> tasks (db out.2) = [St_error] ∧
  post env_stamped (n_post (milk_pending 0)) (select_queue (db (milk_pending 0))) =
    Post_resolves (Some (mkResponse (Some
      [mkProcessed (sample_uuid 0) (Some "srv-1") Rs_success (Some stamped) None]))) ∧
  p_last_synced_at stamped = Some 1800000000000 ∧
  row_sync_status <$> tasks (db out'.2) = [St_synced] ∧
  row_last_synced_at <$> tasks (db out'.2) = [Some 1700000000001] ∧
  clock env_stamped 1 = 1700000000001.
Proof. vm_compute. by repeat split. Qed.

(** ** The theorems at work on the sample worlds *)

(** Scenario B: the task created offline, then a run that is accepted. *)
Lemma scenario_B :
  let out := sync env_success default_config (buy_milk env_success) in
  out.1 = Some (mkResult true 1 0 []) ∧
  row_sync_status <$> tasks (db out.2) = [St_synced] ∧
  row_server_id <$> tasks (db out.2) = [Some "srv-1"] ∧
  sync_queue (db out.2) = [].
Proof. vm_compute. by repeat split. Qed.

(** Three tasks in batches of two: the item for the first task arrives
    with the first response, followed by the item for the second. *)
Lemma success_item_syncs_record_witness :
  let out := sync env_success batches_of_two three_tasks in
  ∃ r n,
    out.1 = Some r ∧
    (1 ≤ synced_items r)%nat ∧
    set_sync St_synced (Some "srv-1") (sample_clock n)
      (mkTaskRow (sample_uuid 0) "a" None 0 (sample_clock 0) (sample_clock 0) 0
                 St_pending None None)
      ∈ tasks (db out.2) ∧
    (∀ q, q ∈ sync_queue (db out.2) → q_task_id q ≠ sample_uuid 0).
Proof.
  assert (Hqueue : select_queue (db three_tasks) = sync_queue (db three_tasks))
    by (vm_compute; reflexivity).
  destruct (success_item_syncs_record env_success batches_of_two three_tasks 0 []
              accepted_milk
              [mkProcessed (sample_uuid 2) (Some "srv-1") Rs_success None None])
    as (r & n & Hr & Hcount & _ & Hrow & _ & Hpruned).
  - reflexivity.
  - vm_compute. lia.
  - vm_compute. lia.
  - vm_compute. reflexivity.
  - reflexivity.
  - intros p Hp%list_elem_of_singleton. subst p. vm_compute. discriminate.
  - intros j Hj Hlen. rewrite Hqueue.
    destruct j as [|[|j]]; [lia| |vm_compute in Hlen; lia].
    vm_compute. intros (p & Hp%list_elem_of_singleton & Hid). subst p. discriminate Hid.
  - exists r, n. split_and!; [exact Hr|exact Hcount| |exact Hpruned].
    apply Hrow; [vm_compute|reflexivity]. left.
Defined.


(** Scenario A: the task created offline, and a run without connectivity. *)
Lemma sync_offline_witness :
  let w := buy_milk env_offline in
  let out := sync env_offline default_config w in
  out.1 = Some (mkResult false 0 0
                  [mkSyncError "" "sync" "Offline" (clock env_offline (n_clock w))]) ∧
  db out.2 = db w ∧
  trace out.2 = trace w ++ [Ev_health] ∧
  length (sync_queue (db out.2)) = length (sync_queue (db w)).
Proof.
  intros w out.
  apply (sync_offline env_offline default_config w).
  vm_compute. reflexivity.
Defined.

Lemma deleted_record_rejects_mutation_witness :
  let w' := (calls env_success default_config
               [Call_sync; Call_create (only_title "Buy bread")]
               deleted_milk).2 in
  gone (sample_uuid 0) (db w') ∧
  (updateTask env_success (sample_uuid 0) (only_title "Buy tea") w').1 = None ∧
  db (updateTask env_success (sample_uuid 0) (only_title "Buy tea") w').2 = db w' ∧
  (deleteTask env_success (sample_uuid 0) w').1 = false ∧
  db (deleteTask env_success (sample_uuid 0) w').2 = db w'.
Proof.
  destruct (deleted_record_rejects_mutation env_success default_config
              deleted_milk (sample_uuid 0)
              (mkTaskRow (sample_uuid 0) "Buy milk" None 0 (sample_clock 0)
                         (sample_clock 1) 1 St_pending None None)
              [Call_sync; Call_create (only_title "Buy bread")] (only_title "Buy tea"))
    as (Hgone & Hu1 & Hu2 & Hd1 & Hd2 & _).
  - vm_compute. reflexivity.
  - vm_compute. discriminate.
  - split_and!; [exact Hgone|exact Hu1|exact Hu2|exact Hd1|exact Hd2].
Defined.

Lemma update_rejects_blank_title_witness :
  let w := milk_pending 0 in
  let blank := put_task env_success (sample_uuid 0) (body_of (Js_string "   ")) w in
  let tea := put_task env_success (sample_uuid 0) (body_of (Js_string " Buy tea ")) w in
  (blank.1 = Res_error 400 "If provided, title must be a non-empty string" ∧
   blank.2 = w) ∧
  (∃ r', tea.1 = Res_task 200 (toTask r') ∧
         select_task (sample_uuid 0) (db tea.2) = Some r' ∧
         row_title r' = "Buy tea" ∧
         length (sync_queue (db tea.2)) = 2%nat).
Proof.
  split.
  - destruct (update_rejects_blank_title env_success (sample_uuid 0)
                (body_of (Js_string "   ")) (milk_pending 0) (milk_row St_pending 0))
      as (Hrej & _).
    + vm_compute. reflexivity.
    + reflexivity.
    + discriminate.
    + apply Hrej. intros s [= <-]. vm_compute. reflexivity.
  - destruct (update_rejects_blank_title env_success (sample_uuid 0)
                (body_of (Js_string " Buy tea ")) (milk_pending 0) (milk_row St_pending 0))
      as (_ & Hok & _).
    + vm_compute. reflexivity.
    + reflexivity.
    + discriminate.
    + destruct (Hok " Buy tea " eq_refl) as (r' & H1 & H2 & H3 & H4).
      * vm_compute. discriminate.
      * exists r'. split_and!; [exact H1|exact H2|exact H3|exact H4].
Defined.

Lemma sync_dispatches_oldest_first_witness :
  (∃ batches,
     posted (trace (sync env_success batches_of_two three_tasks).2)
       = posted (trace three_tasks) ++ batches ∧
     s_title ∘ q_data <$> concat batches = ["a"; "b"; "c"]) ∧
  (∃ batches,
     posted (trace (sync env_same_ms batches_of_two same_ms_ops).2)
       = posted (trace same_ms_ops) ++ batches ∧
     q_created_at <$> concat batches =
       [1700000000000; 1700000000000; 1700000000000] ∧
     q_operation <$> concat batches = [Op_create; Op_update; Op_delete]).
Proof.
  split.
  - destruct (sync_dispatches_oldest_first env_success batches_of_two three_tasks)
      as (batches & _ & Hposted & Hconcat & _).
    + vm_compute. reflexivity.
    + vm_compute. lia.
    + apply (bool_decide_unpack _). vm_compute. exact I.
    + exists batches. split; [exact Hposted|]. rewrite Hconcat.
      vm_compute. reflexivity.
  - destruct (sync_dispatches_oldest_first env_same_ms batches_of_two same_ms_ops)
      as (batches & _ & Hposted & Hconcat & _).
    + vm_compute. reflexivity.
    + vm_compute. lia.
    + apply (bool_decide_unpack _). vm_compute. exact I.
    + exists batches. split; [exact Hposted|]. rewrite Hconcat.
      split; vm_compute; reflexivity.
Defined.

Lemma soft_deleted_record_hidden_witness :
  let w := milk_soft_deleted in
  let r := milk_row St_pending 1 in
  (select_task (row_id r) (db w) = Some r → (getTask (row_id r) w).1 = None) ∧
  (∀ t, t ∈ (getAllTasks w).1 → is_deleted t = false) ∧
  (toTask r ∉ (getAllTasks w).1) ∧
  r ∈ tasks (db (getTask (row_id r) w).2) ∧
  r ∈ tasks (db (getAllTasks w).2).
Proof.
  apply (soft_deleted_record_hidden milk_soft_deleted (milk_row St_pending 1)).
  - vm_compute. left.
  - vm_compute. discriminate.
Defined.

(** * The further properties at work on the sample worlds *)

Lemma createTask_appends_record_and_entry_witness :
  let out := createTask env_success padded_title empty_world in
  ∃ row e,
    tasks (db out.2) = [row] ∧ sync_queue (db out.2) = [e] ∧
    row_title row = "Buy milk" ∧ q_data e = snapshot_of row.
Proof.
  destruct (createTask_appends_record_and_entry env_success padded_title empty_world)
    as (row & e & Ht & Hq & _ & Htitle & _ & _ & _ & _ & _ & _ & _ & _ & _ & _ & _ & _
        & _ & Hdata & _).
  - vm_compute. discriminate.
  - exists row, e. split_and!; [exact Ht|exact Hq|exact Htitle|exact Hdata].
Defined.

Lemma createTask_blank_title_throws_witness :
  (createTask env_success (only_title "   ") empty_world).1 =
    Throws (new_Error "Title is required") ∧
  db (createTask env_success (only_title "   ") empty_world).2 = db empty_world.
Proof.
  destruct (createTask_blank_title_throws env_success (only_title "   ") empty_world)
    as (H1 & H2 & _).
  - vm_compute. reflexivity.
  - split; [exact H1|exact H2].
Defined.

Lemma updateTask_applies_present_keys_witness :
  let out := updateTask env_success (sample_uuid 0) (only_title " Buy oat milk ")
               (milk_pending 0) in
  ∃ r', out.1 = Some (toTask r') ∧
        row_title r' = trim " Buy oat milk " ∧
        row_description r' = row_description (milk_row St_pending 0).
Proof.
  destruct (updateTask_applies_present_keys env_success (sample_uuid 0)
              (only_title " Buy oat milk ") (milk_pending 0) (milk_row St_pending 0))
    as (r' & e & Hres & _ & _ & Htitle & Hdesc & _).
  - vm_compute. reflexivity.
  - reflexivity.
  - exists r'. split_and!; [exact Hres|exact Htitle|exact Hdesc].
Defined.

Lemma mutation_of_missing_id_witness :
  (updateTask env_success "no-such-id" (only_title "x") (milk_pending 0)).1 = None ∧
  (deleteTask env_success "no-such-id" (milk_pending 0)).1 = false.
Proof.
  destruct (mutation_of_missing_id env_success "no-such-id" (only_title "x")
              (milk_pending 0)) as [Hu Hd].
  - vm_compute. reflexivity.
  - split; [exact (f_equal fst Hu)|exact (f_equal fst Hd)].
Defined.

Lemma deleteTask_soft_deletes_witness :
  let out := deleteTask env_success (sample_uuid 0) (milk_pending 0) in
  out.1 = true ∧
  (getTask (sample_uuid 0) out.2).1 = None ∧
  (deleteTask env_success (sample_uuid 0) out.2).1 = false.
Proof.
  destruct (deleteTask_soft_deletes env_success (sample_uuid 0) (milk_pending 0)
              (milk_row St_pending 0) no_updates)
    as (r' & e & Hres & _ & _ & _ & _ & _ & _ & _ & _ & _ & _ & _ & _ & _ & _ & _ & _
        & _ & _ & _ & _ & Hget & Hdel & _).
  - vm_compute. reflexivity.
  - reflexivity.
  - split_and!; [exact Hres|exact Hget|exact Hdel].
Defined.

Lemma created_task_is_readable_witness :
  let out := createTask env_success padded_title empty_world in
  ∃ t, out.1 = Returns (Some t) ∧
       (getTask (uuid env_success (n_uuid empty_world)) out.2).1 = Some t ∧
       title t = trim (default "" (p_title padded_title)).
Proof.
  destruct (created_task_is_readable env_success padded_title empty_world)
    as (t & Hret & Hget & _ & _ & Htitle & _).
  - vm_compute. discriminate.
  - reflexivity.
  - exists t. split_and!; [exact Hret|exact Hget|exact Htitle].
Defined.

Lemma sync_empty_queue_witness :
  (sync env_success default_config empty_world).1 = Some (mkResult true 0 0 []).
Proof.
  exact (f_equal fst (sync_empty_queue env_success default_config empty_world
                        eq_refl eq_refl)).
Defined.

Lemma accepted_item_stays_pruned_witness :
  Forall (λ q, q_task_id q ≠ client_id accepted_milk)
         (sync_queue (db (sync env_success default_config (milk_pending 0)).2)).
Proof.
  apply Forall_forall.
  apply (accepted_item_stays_pruned env_success default_config (milk_pending 0) 0
           [accepted_milk] accepted_milk).
  - reflexivity.
  - vm_compute. lia.
  - vm_compute. lia.
  - vm_compute. reflexivity.
  - left.
  - left. reflexivity.
Defined.

Lemma sync_result_consistent_witness :
  ∃ r, (sync env_timeout default_config (milk_pending 0)).1 = Some r ∧
       (success r = true ↔ errors r = []) ∧
       failed_items r = length (errors r).
Proof.
  eexists. split; [vm_compute; reflexivity|].
  destruct (sync_result_consistent env_timeout default_config (milk_pending 0) _
              ltac:(vm_compute; reflexivity)) as (H1 & _ & H3).
  split; [exact H1|]. apply H3. reflexivity.
Defined.

Lemma sync_ignores_empty_responses_witness :
  (sync env_silent default_config (milk_pending 0)).1 = Some (mkResult true 0 0 []) ∧
  db (sync env_silent default_config (milk_pending 0)).2 = db (milk_pending 0).
Proof.
  apply (sync_ignores_empty_responses env_silent default_config (milk_pending 0)).
  - reflexivity.
  - vm_compute. lia.
  - intros n items. left. reflexivity.
Defined.

Lemma sync_all_transport_failures_witness :
  ∃ r, (sync env_same_ms default_config same_ms_ops).1 = Some r ∧
       failed_items r = 3%nat ∧
       e_operation <$> errors r = ["create"; "update"; "delete"] ∧
       q_retry_count <$> sync_queue (db (sync env_same_ms default_config same_ms_ops).2) =
         [1%nat; 1%nat; 1%nat].
Proof.
  destruct (sync_all_transport_failures env_same_ms default_config same_ms_ops
              timeout_error) as (r & Hr & _ & Hf & _ & Hkeys & _ & Hq).
  - vm_compute. reflexivity.
  - vm_compute. lia.
  - intros n items. reflexivity.
  - exists r. split_and!; [exact Hr| | |].
    + rewrite Hf. vm_compute. reflexivity.
    + assert (Hop : e_operation <$> errors r = (λ k, k.1.2) <$> (error_key <$> errors r)).
      { rewrite <- list_fmap_compose. by apply list_fmap_ext. }
      rewrite Hop, Hkeys. vm_compute. reflexivity.
    + rewrite Hq; [vm_compute; reflexivity|].
      apply (bool_decide_unpack _). vm_compute. exact I.
Defined.

Lemma answer_all_accepts st srv rd err items :
  st ≠ Rs_error → accepts (answer_all st srv rd err items) items.
Proof.
  intros Hst. eexists. split; [reflexivity|]. split.
  - rewrite <- list_fmap_compose. by apply list_fmap_ext.
  - apply Forall_fmap, Forall_true. by intros q.
Qed.

Lemma sync_against_accepting_remote_witness :
  let w' := (sync env_success default_config (milk_pending 0)).2 in
  (sync env_success default_config (milk_pending 0)).1 =
    Some (mkResult true (length (sync_queue (db (milk_pending 0)))) 0 []) ∧
  sync_queue (db w') = [].
Proof.
  destruct (sync_against_accepting_remote env_success default_config (milk_pending 0))
    as (Hr & Hq & _).
  - reflexivity.
  - vm_compute. lia.
  - intros n items _. by apply answer_all_accepts.
  - split; [exact Hr|exact Hq].
Defined.

Lemma batch_endpoint_accepts_all_witness :
  client_id <$> batch_endpoint sample_uuid 0 [milk_entry 0] =
    q_task_id <$> [milk_entry 0] ∧
  NoDup (pi_server_id <$> batch_endpoint sample_uuid 0 [milk_entry 0]).
Proof.
  destruct (batch_endpoint_accepts_all sample_uuid 0 [milk_entry 0])
    as (_ & _ & Hc & Hn).
  split.
  - apply Hc. intros q Hq. apply list_elem_of_singleton in Hq as ->.
    vm_compute. discriminate.
  - apply Hn, sample_uuid_fresh.
Defined.

Lemma sync_against_batch_endpoint_witness :
  (sync env_bundled default_config (milk_pending 0)).1 =
    Some (mkResult true (length (sync_queue (db (milk_pending 0)))) 0 []) ∧
  sync_queue (db (sync env_bundled default_config (milk_pending 0)).2) = [].
Proof.
  destruct (sync_against_batch_endpoint env_bundled default_config (milk_pending 0)
              sample_uuid) as (Hr & Hq & _).
  - reflexivity.
  - vm_compute. lia.
  - intros n items. by exists (2 * n)%nat.
  - intros q Hq. apply list_elem_of_singleton in Hq as ->. vm_compute. discriminate.
  - split; [exact Hr|exact Hq].
Defined.

Lemma error_item_charges_first_entry_witness :
  let out := process_item env_success default_config [milk_entry 2]
               (mkResult true 0 0 []) rejected_milk (milk_pending 2) in
  success out.1 = false ∧
  db out.2 = charge default_config "rejected" (db (milk_pending 2)) (milk_entry 2).
Proof.
  destruct (error_item_charges_first_entry env_success default_config [milk_entry 2]
              (mkResult true 0 0 []) rejected_milk (milk_pending 2))
    as (Hr & _ & Hdb).
  - reflexivity.
  - split; [exact (f_equal success Hr)|].
    apply (Hdb [] (milk_entry 2) []); [reflexivity|reflexivity|].
    intros q Hq. by apply not_elem_of_nil in Hq.
Defined.

Lemma post_task_creates_or_rejects_witness :
  post_task env_success (body_of Js_null) empty_world =
    (Create_error 400 "Title is required", empty_world) ∧
  ∃ t, (post_task env_success (body_of (Js_string "  Buy milk ")) empty_world).1 =
       Create_ok 201 (Some t).
Proof.
  split.
  - apply (post_task_creates_or_rejects env_success (body_of Js_null) empty_world).
    intros s Hs. discriminate Hs.
  - destruct (proj2 (post_task_creates_or_rejects env_success
                       (body_of (Js_string "  Buy milk ")) empty_world)
                    "  Buy milk " eq_refl) as (t & row & e & Hr & _).
    + vm_compute. discriminate.
    + by exists t.
Defined.

Lemma put_task_answers_witness :
  put_task env_success (sample_uuid 0) (body_of (Js_string "   ")) (milk_pending 0) =
    (Res_error 400 "If provided, title must be a non-empty string", milk_pending 0) ∧
  (put_task env_success "no-such-id" (body_of Js_undefined) (milk_pending 0)).1 =
    Res_error 404 "Task not found".
Proof.
  split.
  - apply (put_task_answers env_success (sample_uuid 0) (body_of (Js_string "   "))
             (milk_pending 0)); [discriminate|].
    intros s [= <-]. vm_compute. reflexivity.
  - apply (proj2 (put_task_answers env_success "no-such-id" (body_of Js_undefined)
                    (milk_pending 0)) None eq_refl).
    left. vm_compute. reflexivity.
Defined.

Lemma delete_task_then_not_found_witness :
  let w' := (delete_task env_success (sample_uuid 0) (milk_pending 0)).2 in
  (delete_task env_success (sample_uuid 0) (milk_pending 0)).1 = Delete_ok ∧
  (get_task (sample_uuid 0) w').1 = Res_error 404 "Task not found" ∧
  (delete_task env_success (sample_uuid 0) w').1 =
    Delete_error 404 "Task not found or already deleted".
Proof.
  destruct (delete_task_then_not_found env_success (sample_uuid 0) (milk_pending 0)
              (milk_row St_pending 0) (body_of Js_undefined))
    as (H1 & _ & H2 & _ & H3 & _).
  - vm_compute. reflexivity.
  - reflexivity.
  - split_and!; [exact H1|exact H2|exact H3].
Defined.

Lemma routers_keep_titles_valid_witness :
  titles_valid
    (db (serve env_success default_config
           [Req_post (body_of (Js_string "  Buy milk "));
            Req_put (sample_uuid 0) (body_of (Js_string " Buy oat milk "));
            Req_sync; Req_delete (sample_uuid 0)]
           empty_world).2).
Proof.
  apply (routers_keep_titles_valid env_success default_config).
  intros r Hr. vm_compute in Hr. by apply not_elem_of_nil in Hr.
Defined.

Lemma post_sync_probes_twice_witness :
  (post_sync env_offline default_config (milk_pending 0)).1 =
    Sync_error 503 "Cannot reach server - offline" ∧
  ∃ ts, (post_sync env_dropping default_config (milk_pending 0)).1 =
    Sync_done (mkResult false 0 0 [mkSyncError "" "sync" "Offline" ts]).
Proof.
  split.
  - exact (f_equal fst (proj1 (post_sync_probes_twice env_offline default_config
                                 (milk_pending 0)) eq_refl)).
  - eexists.
    exact (f_equal fst (proj2 (post_sync_probes_twice env_dropping default_config
                                 (milk_pending 0)) eq_refl eq_refl)).
Defined.

Lemma sync_batch_size_zero_never_ends_witness :
  (sync env_success (mkConfig 0 DEFAULT_RETRIES) (milk_pending 0)).1 = None.
Proof.
  apply (sync_batch_size_zero_never_ends env_success (mkConfig 0 DEFAULT_RETRIES)
           (milk_pending 0)); [reflexivity|reflexivity|discriminate].
Defined.

Lemma addToSyncQueue_only_enqueues_witness :
  let w := world_of (mkDb [milk_row St_synced 0] []) in
  let w' := (addToSyncQueue env_success (sample_uuid 0) Op_update
               (snapshot_of (milk_row St_synced 0)) w).2 in
  tasks (db w') = tasks (db w) ∧ length (sync_queue (db w')) = 1%nat ∧
  ¬ pending_synced_invariant (db w').
Proof.
  destruct (addToSyncQueue_only_enqueues env_success (sample_uuid 0) Op_update
              (snapshot_of (milk_row St_synced 0))
              (world_of (mkDb [milk_row St_synced 0] []))) as (Ht & Hq & Hbreak).
  split_and!; [exact Ht|exact (f_equal length Hq)|].
  apply (Hbreak (milk_row St_synced 0)); [left|reflexivity|reflexivity].
Defined.
